(** * Mesh Maker: the document reducer, the import/export codec and the Bezier tool

    A shallow embedding of the Mesh Maker project
    (src/projects/Mesh Maker: types.ts, utils.ts with the reducer, and the
    hooks useImportExport.ts and useCanvasInteraction.ts), followed by the
    properties of the editor's document model.

    Conventions of the embedding.
    - A JavaScript [number] is a rational ([Q]); NaN, the infinities and
      overflow are not represented.  Arithmetic is exact, except in the
      export's conversion to grid units: there the result is rounded to two
      decimals, double-precision rounding decides the outcome at decimal
      ties, and every operation is rounded to the nearest double ([fl64]).
      The two places where the source starts a running minimum at
      [Infinity] use [option Q].
    - A JavaScript [Map] is a [gmap] and a [Set] a [gset]: insertion order
      is not represented.  Loops that visit every entry once and write only
      the visited key are given pointwise.
    - [generateId()] and [Date.now()] are inputs of the function that calls
      them.
    - Array indices carried by actions are integers ([Z]). *)

From Stdlib Require Import QArith Qround Qabs Qpower Lqa ZArith Lia.
From stdpp Require Import gmap strings list fin_maps pretty.

Local Open Scope Q_scope.
Local Open Scope string_scope.
Local Open Scope list_scope.

(** ** Numbers (utils.ts) *)

(** [Math.round]: the nearest integer, halves going up. *)
Definition Math_round (q : Q) : Q := inject_Z (Qfloor (q + (1 # 2))).

(** *** Double precision

    The value of an arithmetic operation on doubles is the exact result
    rounded to the nearest double, ties going to the even significand.  A
    positive double is an integer of at most 53 bits times a power of two
    that is at least [2^-1074]. *)
Definition pow2 (k : Z) : Q := Qpower 2 k.

(** The integer [k] with [2^k <= q < 2^(k+1)], for a positive [q]. *)
Definition ilog2 (q : Q) : Z :=
  let k0 := (Z.log2 (Qnum q) - Z.log2 (Zpos (Qden q)))%Z in
  if Qle_bool (pow2 k0) q then k0 else (k0 - 1)%Z.

(** The nearest integer, a half going to the even neighbour. *)
Definition rne (q : Q) : Z :=
  let f := Qfloor q in
  match Qcompare (q - inject_Z f) (1 # 2) with
  | Lt => f
  | Gt => (f + 1)%Z
  | Eq => if Z.even f then f else (f + 1)%Z
  end.

(** The exponent of the last bit of the doubles around a positive [q]. *)
Definition expo (q : Q) : Z := Z.max (ilog2 q - 52) (-1074).

Definition fl64_pos (q : Q) : Q :=
  Qred (inject_Z (rne (q / pow2 (expo q))) * pow2 (expo q)).

(** The double nearest to [q]. *)
Definition fl64 (q : Q) : Q :=
  match Qcompare q 0 with
  | Eq => 0
  | Gt => fl64_pos q
  | Lt => - fl64_pos (- q)
  end.

(** Half the gap between 1 and the next double, and half the smallest
    positive double: [fl64 q] is within [unit_roundoff * |q| + eta_min]
    of [q]. *)
Definition unit_roundoff : Q := pow2 (-53).
Definition eta_min : Q := pow2 (-1075).

(** [Math.min] and [Math.max] on two numbers. *)
Definition Math_min (a b : Q) : Q := if Qle_bool a b then a else b.
Definition Math_max (a b : Q) : Q := if Qle_bool a b then b else a.

(** [lerp(a, b, t) = a + (b - a) * t]. *)
Definition lerp (a b t : Q) : Q := a + (b - a) * t.

(** [x || d] on a number: zero is falsy. *)
Definition num_or (x d : Q) : Q := if Qeq_bool x 0 then d else x.

(** [s || d] on a string: the empty string is falsy. *)
Definition str_or (s d : string) : string := if bool_decide (s = "") then d else s.

(** ** The data model (types.ts) *)

Inductive VertexType := anchor | control.

Record Vertex := mkVertex {
  v_id : string;
  v_x : Q;
  v_y : Q;
  v_type : VertexType;
  v_parentId : option string;
}.

Record Style := mkStyle {
  color : string;
  strokeWidth : Q;
  fill : option string;
  opacity : option Q;
}.

Record BezierSegment := mkSeg { p0 : string; p1 : string; p2 : string; p3 : string }.

(** The discriminant [type] of a shape together with the fields that only
    that variant carries. *)
Inductive ShapeKind :=
  | line
  | rect
  | circle (radius : Q)
  | bezier (segments : list BezierSegment) (closed : bool)
  | polygon (closed : bool).

Record Shape := mkShape {
  s_id : string;
  s_kind : ShapeKind;
  vertexIds : list string;
  style : Style;
  visible : bool;
  locked : bool;
  metadata : option string;
}.

Record ShapeGroup := mkGroup {
  g_id : string;
  g_name : string;
  shapeIds : list string;
  g_locked : bool;
}.

Record Pos := mkPos { px : Q; py : Q }.

(** [{ radius?: number }] *)
Record ShapeProps := mkProps { sp_radius : option Q }.

Record Frame := mkFrame {
  f_id : string;
  f_name : string;
  f_vertices : gmap string Pos;
  f_shapeProperties : gmap string ShapeProps;
  f_timestamp : Q;
}.

Record Snapshot := mkSnap {
  snap_vertices : gmap string Vertex;
  snap_shapes : gmap string Shape;
}.

Record History := mkHistory { past : list Snapshot; future : list Snapshot }.

Record AppState := mkState {
  vertices : gmap string Vertex;
  shapes : gmap string Shape;
  groups : gmap string ShapeGroup;
  frames : list Frame;
  currentFrameIndex : Z;
  isRecording : bool;
  selectedVertexIds : gset string;
  selectedShapeIds : gset string;
  hoveredVertexId : option string;
  hoveredShapeId : option string;
  history : History;
}.

(** [Partial<Vertex>]: a field is [Some] when the update object has it. *)
Record VertexUpdates := mkVU {
  vu_id : option string;
  vu_x : option Q;
  vu_y : option Q;
  vu_type : option VertexType;
  vu_parentId : option (option string);
}.

(** [Partial<Shape>].  An update of the discriminant [type] would leave the
    union and is not represented; a variant field given to a shape of another
    variant is a stray property that nothing reads. *)
Record ShapeUpdates := mkSU {
  su_id : option string;
  su_vertexIds : option (list string);
  su_style : option Style;
  su_visible : option bool;
  su_locked : option bool;
  su_metadata : option (option string);
  su_radius : option Q;
  su_segments : option (list BezierSegment);
  su_closed : option bool;
}.

(** [Partial<Frame>] *)
Record FrameUpdates := mkFU {
  fu_id : option string;
  fu_name : option string;
  fu_vertices : option (gmap string Pos);
  fu_shapeProperties : option (gmap string ShapeProps);
  fu_timestamp : option Q;
}.

Inductive AppAction :=
  | ADD_VERTEX (vertex : Vertex)
  | UPDATE_VERTEX (id : string) (updates : VertexUpdates)
  | DELETE_VERTEX (id : string)
  | ADD_SHAPE (shape : Shape)
  | UPDATE_SHAPE (id : string) (updates : ShapeUpdates)
  | DELETE_SHAPE (id : string)
  | SELECT_VERTICES (ids : list string) (additive : bool)
  | SELECT_SHAPES (ids : list string) (additive : bool)
  | HOVER_VERTEX (id : option string)
  | HOVER_SHAPE (id : option string)
  | CREATE_GROUP (name : string) (shapeIds : list string)
  | DELETE_GROUP (id : string)
  | MERGE_VERTICES (vertexIds : list string) (targetPosition : Pos)
  | IMPORT_DATA (vertices : gmap string Vertex) (shapes : gmap string Shape)
                (groups : gmap string ShapeGroup) (frames : option (list Frame))
  | ADD_FRAME (frame : Frame)
  | UPDATE_FRAME (frameIndex : Z) (updates : FrameUpdates)
  | DELETE_FRAME (frameIndex : Z)
  | SET_CURRENT_FRAME (frameIndex : Z)
  | START_RECORDING
  | STOP_RECORDING
  | RECORD_FRAME (name : option string)
  | APPLY_FRAME (frameIndex : Z)
  | INTERPOLATE_FRAMES (fromIndex toIndex : Z) (t : Q)
  | UNDO
  | REDO
  | CLEAR_ALL
  | UPDATE_CURRENT_FRAME_DATA
  | BATCH_UPDATE (vertexUpdates : option (list (string * VertexUpdates)))
                 (shapeUpdates : option (list (string * ShapeUpdates))).

(** ** Record updates *)

Definition set_vertices (vs : gmap string Vertex) (s : AppState) : AppState :=
  mkState vs (shapes s) (groups s) (frames s) (currentFrameIndex s) (isRecording s)
          (selectedVertexIds s) (selectedShapeIds s) (hoveredVertexId s)
          (hoveredShapeId s) (history s).

Definition set_shapes (sh : gmap string Shape) (s : AppState) : AppState :=
  mkState (vertices s) sh (groups s) (frames s) (currentFrameIndex s) (isRecording s)
          (selectedVertexIds s) (selectedShapeIds s) (hoveredVertexId s)
          (hoveredShapeId s) (history s).

Definition set_groups (g : gmap string ShapeGroup) (s : AppState) : AppState :=
  mkState (vertices s) (shapes s) g (frames s) (currentFrameIndex s) (isRecording s)
          (selectedVertexIds s) (selectedShapeIds s) (hoveredVertexId s)
          (hoveredShapeId s) (history s).

Definition set_frames (fs : list Frame) (s : AppState) : AppState :=
  mkState (vertices s) (shapes s) (groups s) fs (currentFrameIndex s) (isRecording s)
          (selectedVertexIds s) (selectedShapeIds s) (hoveredVertexId s)
          (hoveredShapeId s) (history s).

Definition set_currentFrameIndex (i : Z) (s : AppState) : AppState :=
  mkState (vertices s) (shapes s) (groups s) (frames s) i (isRecording s)
          (selectedVertexIds s) (selectedShapeIds s) (hoveredVertexId s)
          (hoveredShapeId s) (history s).

Definition set_isRecording (b : bool) (s : AppState) : AppState :=
  mkState (vertices s) (shapes s) (groups s) (frames s) (currentFrameIndex s) b
          (selectedVertexIds s) (selectedShapeIds s) (hoveredVertexId s)
          (hoveredShapeId s) (history s).

Definition set_selectedVertexIds (sel : gset string) (s : AppState) : AppState :=
  mkState (vertices s) (shapes s) (groups s) (frames s) (currentFrameIndex s) (isRecording s)
          sel (selectedShapeIds s) (hoveredVertexId s)
          (hoveredShapeId s) (history s).

Definition set_selectedShapeIds (sel : gset string) (s : AppState) : AppState :=
  mkState (vertices s) (shapes s) (groups s) (frames s) (currentFrameIndex s) (isRecording s)
          (selectedVertexIds s) sel (hoveredVertexId s)
          (hoveredShapeId s) (history s).

Definition set_hoveredVertexId (h : option string) (s : AppState) : AppState :=
  mkState (vertices s) (shapes s) (groups s) (frames s) (currentFrameIndex s) (isRecording s)
          (selectedVertexIds s) (selectedShapeIds s) h
          (hoveredShapeId s) (history s).

Definition set_hoveredShapeId (h : option string) (s : AppState) : AppState :=
  mkState (vertices s) (shapes s) (groups s) (frames s) (currentFrameIndex s) (isRecording s)
          (selectedVertexIds s) (selectedShapeIds s) (hoveredVertexId s)
          h (history s).

Definition set_history (h : History) (s : AppState) : AppState :=
  mkState (vertices s) (shapes s) (groups s) (frames s) (currentFrameIndex s) (isRecording s)
          (selectedVertexIds s) (selectedShapeIds s) (hoveredVertexId s)
          (hoveredShapeId s) h.

Definition with_vertexIds (ids : list string) (s : Shape) : Shape :=
  mkShape (s_id s) (s_kind s) ids (style s) (visible s) (locked s) (metadata s).

Definition with_kind (k : ShapeKind) (s : Shape) : Shape :=
  mkShape (s_id s) k (vertexIds s) (style s) (visible s) (locked s) (metadata s).

Definition with_pos (x y : Q) (v : Vertex) : Vertex :=
  mkVertex (v_id v) x y (v_type v) (v_parentId v).

(** [{ ...vertex, ...updates }] *)
Definition apply_vertex_updates (v : Vertex) (u : VertexUpdates) : Vertex :=
  mkVertex (default (v_id v) (vu_id u))
           (default (v_x v) (vu_x u))
           (default (v_y v) (vu_y u))
           (default (v_type v) (vu_type u))
           (default (v_parentId v) (vu_parentId u)).

Definition update_kind (k : ShapeKind) (u : ShapeUpdates) : ShapeKind :=
  match k with
  | line => line
  | rect => rect
  | circle r => circle (default r (su_radius u))
  | bezier segs c => bezier (default segs (su_segments u)) (default c (su_closed u))
  | polygon c => polygon (default c (su_closed u))
  end.

(** [{ ...shape, ...updates }] *)
Definition apply_shape_updates (s : Shape) (u : ShapeUpdates) : Shape :=
  mkShape (default (s_id s) (su_id u))
          (update_kind (s_kind s) u)
          (default (vertexIds s) (su_vertexIds u))
          (default (style s) (su_style u))
          (default (visible s) (su_visible u))
          (default (locked s) (su_locked u))
          (default (metadata s) (su_metadata u)).

(** [{ ...frame, ...updates }] *)
Definition apply_frame_updates (f : Frame) (u : FrameUpdates) : Frame :=
  mkFrame (default (f_id f) (fu_id u))
          (default (f_name f) (fu_name u))
          (default (f_vertices f) (fu_vertices u))
          (default (f_shapeProperties f) (fu_shapeProperties u))
          (default (f_timestamp f) (fu_timestamp u)).

(** ** The reducer (utils.ts, section reducer.ts) *)

(** What one call of the reducer obtains from [generateId()] and
    [Date.now()]. *)
Record Env := mkEnv { env_id : string; env_now : Q }.

(** [arr.slice(-n)]: the last [n] elements. *)
Definition slice_last {A} (n : nat) (l : list A) : list A :=
  drop (length l - n) l.

(** [arr[i]] for a numeric index: [undefined] outside the array. *)
Definition js_index {A} (l : list A) (i : Z) : option A :=
  if (i <? 0)%Z then None else l !! Z.to_nat i.

(** [i < 0 || i >= arr.length] *)
Definition out_of_range {A} (l : list A) (i : Z) : bool :=
  (i <? 0)%Z || (Z.of_nat (length l) <=? i)%Z.

Definition saveHistory (state : AppState) : History :=
  mkHistory
    (slice_last 50 (past (history state) ++ [mkSnap (vertices state) (shapes state)]))
    [].

Definition includes (ids : list string) (v : string) : bool := bool_decide (v ∈ ids).

(** The first loop of DELETE_VERTEX: the keys of the shapes that list [id]. *)
Definition shapesToDelete (sh : gmap string Shape) (id : string) : list string :=
  (filter (λ p, includes (vertexIds p.2) id = true) (map_to_list sh)).*1.

Definition delete_all {V} (ks : list string) (m : gmap string V) : gmap string V :=
  foldl (λ acc k, delete k acc) m ks.

(** DELETE_SHAPE, Bezier branch: the control points of the segments. *)
Definition vertexIdsToCheck (segs : list BezierSegment) : list string :=
  flat_map (λ seg, [p1 seg; p2 seg]) segs.

Definition isUsedElsewhere (sh : gmap string Shape) (self vertexId : string) : bool :=
  existsb (λ p, negb (bool_decide (p.1 = self)) && includes (vertexIds p.2) vertexId)
          (map_to_list sh).

Definition delete_orphans (sh : gmap string Shape) (self : string)
    (check : list string) (vs : gmap string Vertex) : gmap string Vertex :=
  foldl (λ acc vertexId,
           if isUsedElsewhere sh self vertexId then acc else delete vertexId acc)
        vs check.

(** MERGE_VERTICES: the rewriting of one shape. *)
Definition merge_id (ids : list string) (newId v : string) : string :=
  if includes ids v then newId else v.

Definition merge_segment (ids : list string) (newId : string) (seg : BezierSegment)
    : BezierSegment :=
  mkSeg (merge_id ids newId (p0 seg)) (merge_id ids newId (p1 seg))
        (merge_id ids newId (p2 seg)) (merge_id ids newId (p3 seg)).

Definition segment_touched (ids : list string) (seg : BezierSegment) : bool :=
  includes ids (p0 seg) || includes ids (p1 seg)
  || includes ids (p2 seg) || includes ids (p3 seg).

Definition seg_refs (seg : BezierSegment) : list string :=
  [p0 seg; p1 seg; p2 seg; p3 seg].

Definition merge_shape (ids : list string) (newId : string) (shape : Shape) : Shape :=
  match s_kind shape with
  | bezier segs cl =>
      let newSegments := map (merge_segment ids newId) segs in
      let updated := existsb (segment_touched ids) segs in
      if updated
      then mkShape (s_id shape) (bezier newSegments cl)
                   (flat_map seg_refs newSegments)
                   (style shape) (visible shape) (locked shape) (metadata shape)
      else shape
  | _ =>
      let newVertexIds := map (merge_id ids newId) (vertexIds shape) in
      if existsb (λ p, negb (bool_decide (p.1 = p.2)))
                 (zip newVertexIds (vertexIds shape))
      then with_vertexIds newVertexIds shape
      else shape
  end.

(** RECORD_FRAME and UPDATE_CURRENT_FRAME_DATA: what a frame captures. *)
Definition capture_positions (vs : gmap string Vertex) : gmap string Pos :=
  (λ v, mkPos (v_x v) (v_y v)) <$> vs.

Definition capture_properties (sh : gmap string Shape) : gmap string ShapeProps :=
  omap (λ s, match s_kind s with
             | circle r => Some (mkProps (Some r))
             | _ => None
             end) sh.

(** APPLY_FRAME on one vertex and one shape. *)
Definition apply_frame_vertex (f : Frame) (id : string) (v : Vertex) : Vertex :=
  match f_vertices f !! id with
  | Some pos => with_pos (px pos) (py pos) v
  | None => v
  end.

Definition apply_frame_shape (f : Frame) (id : string) (s : Shape) : Shape :=
  match f_shapeProperties f !! id, s_kind s with
  | Some (mkProps (Some r)), circle _ => with_kind (circle r) s
  | _, _ => s
  end.

(** [Math.max(0, Math.min(1, t))] *)
Definition clamp01 (t : Q) : Q := Math_max 0 (Math_min 1 t).

(** INTERPOLATE_FRAMES on one vertex and one shape. *)
Definition interpolate_vertex (fromFrame toFrame : Frame) (t : Q)
    (id : string) (v : Vertex) : Vertex :=
  match f_vertices fromFrame !! id, f_vertices toFrame !! id with
  | Some fromPos, Some toPos =>
      with_pos (lerp (px fromPos) (px toPos) t) (lerp (py fromPos) (py toPos) t) v
  | _, _ => v
  end.

Definition interpolate_shape (fromFrame toFrame : Frame) (t : Q)
    (id : string) (s : Shape) : Shape :=
  match s_kind s with
  | circle _ =>
      match f_shapeProperties fromFrame !! id ≫= sp_radius,
            f_shapeProperties toFrame !! id ≫= sp_radius with
      | Some r1, Some r2 => with_kind (circle (lerp r1 r2 t)) s
      | _, _ => s
      end
  | _ => s
  end.

(** BATCH_UPDATE: the updates are applied in list order. *)
Definition batch_vertices (us : list (string * VertexUpdates))
    (vs : gmap string Vertex) : gmap string Vertex :=
  foldl (λ acc u, match acc !! u.1 with
                  | Some v => <[u.1 := apply_vertex_updates v u.2]> acc
                  | None => acc
                  end) vs us.

Definition batch_shapes (us : list (string * ShapeUpdates))
    (sh : gmap string Shape) : gmap string Shape :=
  foldl (λ acc u, match acc !! u.1 with
                  | Some s => <[u.1 := apply_shape_updates s u.2]> acc
                  | None => acc
                  end) sh us.

Definition initialState : AppState :=
  mkState ∅ ∅ ∅ [] 0 false ∅ ∅ None None (mkHistory [] []).

Definition appReducer (env : Env) (state : AppState) (action : AppAction) : AppState :=
  match action with
  | ADD_VERTEX vertex =>
      set_history (saveHistory state)
        (set_vertices (<[v_id vertex := vertex]> (vertices state)) state)

  | UPDATE_VERTEX id updates =>
      match vertices state !! id with
      | None => state
      | Some vertex =>
          set_vertices (<[id := apply_vertex_updates vertex updates]> (vertices state)) state
      end

  | DELETE_VERTEX id =>
      let newVertices := delete id (vertices state) in
      let newShapes := delete_all (shapesToDelete (shapes state) id) (shapes state) in
      set_history (saveHistory state)
        (set_selectedVertexIds (selectedVertexIds state ∖ {[id]})
          (set_shapes newShapes (set_vertices newVertices state)))

  | ADD_SHAPE shape =>
      set_history (saveHistory state)
        (set_shapes (<[s_id shape := shape]> (shapes state)) state)

  | UPDATE_SHAPE id updates =>
      match shapes state !! id with
      | None => state
      | Some shape =>
          set_shapes (<[id := apply_shape_updates shape updates]> (shapes state)) state
      end

  | DELETE_SHAPE id =>
      match shapes state !! id with
      | Some (mkShape _ (bezier segs _) _ _ _ _ _) =>
          let newVertices :=
            delete_orphans (shapes state) id (vertexIdsToCheck segs) (vertices state) in
          set_history (saveHistory state)
            (set_selectedShapeIds (selectedShapeIds state ∖ {[id]})
              (set_vertices newVertices
                (set_shapes (delete id (shapes state)) state)))
      | _ =>
          set_history (saveHistory state)
            (set_selectedShapeIds (selectedShapeIds state ∖ {[id]})
              (set_shapes (delete id (shapes state)) state))
      end

  | SELECT_VERTICES ids additive =>
      if additive
      then set_selectedVertexIds (selectedVertexIds state ∪ list_to_set ids) state
      else set_selectedVertexIds (list_to_set ids) state

  | SELECT_SHAPES ids additive =>
      if additive
      then set_selectedShapeIds (selectedShapeIds state ∪ list_to_set ids) state
      else set_selectedShapeIds (list_to_set ids) state

  | HOVER_VERTEX id => set_hoveredVertexId id state

  | HOVER_SHAPE id => set_hoveredShapeId id state

  | CREATE_GROUP name ids =>
      let group := mkGroup (env_id env) name ids false in
      set_groups (<[g_id group := group]> (groups state)) state

  | DELETE_GROUP id => set_groups (delete id (groups state)) state

  | MERGE_VERTICES ids targetPosition =>
      if (length ids <? 2)%nat then state
      else
        let mergedVertex :=
          mkVertex (env_id env) (px targetPosition) (py targetPosition) anchor None in
        let newVertices :=
          delete_all ids (<[v_id mergedVertex := mergedVertex]> (vertices state)) in
        let newShapes := merge_shape ids (v_id mergedVertex) <$> shapes state in
        set_history (saveHistory state)
          (set_selectedVertexIds {[v_id mergedVertex]}
            (set_shapes newShapes (set_vertices newVertices state)))

  | IMPORT_DATA vs sh gs fs =>
      mkState vs sh gs (default (frames state) fs) 0 (isRecording state)
              ∅ ∅ None None (saveHistory state)

  | ADD_FRAME _ => state

  | START_RECORDING => set_isRecording true state

  | STOP_RECORDING => set_isRecording false state

  | RECORD_FRAME name =>
      let newFrame :=
        mkFrame (env_id env)
                (str_or (default "" name)
                        ("Frame " +:+ pretty (length (frames state) + 1)%nat))
                (capture_positions (vertices state))
                (capture_properties (shapes state))
                (env_now env) in
      set_currentFrameIndex (Z.of_nat (length (frames state)))
        (set_frames (frames state ++ [newFrame]) state)

  | DELETE_FRAME frameIndex =>
      if out_of_range (frames state) frameIndex then state
      else
        let newFrames := delete (Z.to_nat frameIndex) (frames state) in
        set_currentFrameIndex
          (Z.min (currentFrameIndex state) (Z.of_nat (length newFrames) - 1))
          (set_frames newFrames state)

  | SET_CURRENT_FRAME frameIndex =>
      if out_of_range (frames state) frameIndex then state
      else set_currentFrameIndex frameIndex state

  | APPLY_FRAME frameIndex =>
      if out_of_range (frames state) frameIndex then state
      else
        match js_index (frames state) frameIndex with
        | None => state
        | Some frame =>
            set_currentFrameIndex frameIndex
              (set_shapes (map_imap (λ id s, Some (apply_frame_shape frame id s)) (shapes state))
                (set_vertices
                   (map_imap (λ id v, Some (apply_frame_vertex frame id v)) (vertices state))
                   state))
        end

  | INTERPOLATE_FRAMES fromIndex toIndex t =>
      match js_index (frames state) fromIndex, js_index (frames state) toIndex with
      | Some fromFrame, Some toFrame =>
          let t' := clamp01 t in
          set_shapes
            (map_imap (λ id s, Some (interpolate_shape fromFrame toFrame t' id s))
                      (shapes state))
            (set_vertices
               (map_imap (λ id v, Some (interpolate_vertex fromFrame toFrame t' id v))
                         (vertices state))
               state)
      | _, _ => state
      end

  | UPDATE_FRAME frameIndex updates =>
      if out_of_range (frames state) frameIndex then state
      else
        set_frames
          (alter (λ f, apply_frame_updates f updates) (Z.to_nat frameIndex) (frames state))
          state

  | UPDATE_CURRENT_FRAME_DATA =>
      if out_of_range (frames state) (currentFrameIndex state) then state
      else
        set_frames
          (alter (λ f, mkFrame (f_id f) (f_name f)
                               (capture_positions (vertices state))
                               (capture_properties (shapes state))
                               (env_now env))
                 (Z.to_nat (currentFrameIndex state)) (frames state))
          state

  | BATCH_UPDATE vus sus =>
      set_shapes (batch_shapes (default [] sus) (shapes state))
        (set_vertices (batch_vertices (default [] vus) (vertices state)) state)

  | UNDO =>
      match last (past (history state)) with
      | None => state
      | Some previous =>
          let newPast := removelast (past (history state)) in
          set_history
            (mkHistory newPast
               (mkSnap (vertices state) (shapes state) :: future (history state)))
            (set_shapes (snap_shapes previous)
              (set_vertices (snap_vertices previous) state))
      end

  | REDO =>
      match future (history state) with
      | [] => state
      | next :: newFuture =>
          set_history
            (mkHistory
               (past (history state) ++ [mkSnap (vertices state) (shapes state)])
               newFuture)
            (set_shapes (snap_shapes next)
              (set_vertices (snap_vertices next) state))
      end

  | CLEAR_ALL => initialState
  end.

(** A session: the reducer applied to a list of dispatched actions, each
    with the environment of its call. *)
Definition run (state : AppState) (acts : list (Env * AppAction)) : AppState :=
  foldl (λ s ea, appReducer ea.1 s ea.2) state acts.

(** ** The export document (types.ts, MeshExport)

    [properties] and [style] are [Record<string, any>] in the source; they
    are given here with the keys that export writes and import reads.  The
    [stats] and [renderingHints] blocks of the metadata and the
    [description] of the coordinate system are written by export and never
    read back; they are left out. *)

Record ExportVertex := mkEV {
  ev_id : string;
  ev_position : Q * Q;
  ev_type : VertexType;
  ev_parentId : option string;
}.

Record ExportProperties := mkEP {
  ep_radius : option Q;
  ep_segments : option (list BezierSegment);
  ep_closed : option bool;
  ep_metadata : option string;
}.

Record ExportStyle := mkES {
  es_color : option string;
  es_strokeWidth : option Q;
  es_fill : option string;
  es_opacity : option Q;
  es_visible : option bool;
  es_locked : option bool;
}.

Record ExportShape := mkESh {
  esh_id : string;
  esh_type : string;
  esh_vertexRefs : list string;
  esh_properties : ExportProperties;
  esh_style : ExportStyle;
}.

Record ExportGroup := mkEG {
  eg_id : string;
  eg_name : string;
  eg_shapeRefs : list string;
}.

Record ExportFrame := mkEF {
  ef_id : string;
  ef_name : string;
  ef_timestamp : Q;
  ef_vertexPositions : list (string * (Q * Q));
  ef_shapeProperties : option (list (string * ShapeProps));
}.

Record CoordinateSystem := mkCS {
  cs_unit : option string;
  cs_gridSize : option Q;
}.

Record BoundingBoxInfo := mkBBI {
  bb_width : Q;
  bb_height : Q;
  bb_originalOrigin : Q * Q;
}.

Record ExportMetadata := mkEM {
  em_boundingBox : option BoundingBoxInfo;
  em_coordinateSystem : option CoordinateSystem;
}.

Record MeshExport := mkME {
  me_version : string;
  me_timestamp : string;
  me_vertices : list ExportVertex;
  me_shapes : list ExportShape;
  me_groups : list ExportGroup;
  me_frames : option (list ExportFrame);
  me_metadata : option ExportMetadata;
}.

(** ** Export (hooks/useImportExport.ts, exportToJSON) *)

Record BoundingBox := mkBB { originX : Q; originY : Q; width : Q; height : Q }.

(** One step of a running [Math.min] / [Math.max] that starts at
    [Infinity] / [-Infinity] ([None]). *)
Definition min_step (acc : option Q) (x : Q) : option Q :=
  Some (match acc with None => x | Some m => Math_min m x end).

Definition max_step (acc : option Q) (x : Q) : option Q :=
  Some (match acc with None => x | Some m => Math_max m x end).

(** The positions the two loops of [calculateGlobalBoundingBox] visit: the
    live vertices, then the positions recorded in every frame. *)
Definition visited_positions (state : AppState) : list Pos :=
  ((λ v, mkPos (v_x v) (v_y v)) <$> (map_to_list (vertices state)).*2)
  ++ flat_map (λ f, (map_to_list (f_vertices f)).*2) (frames state).

Definition calculateGlobalBoundingBox (state : AppState) : BoundingBox :=
  let ps := visited_positions state in
  let minX := foldl min_step None (px <$> ps) in
  let minY := foldl min_step None (py <$> ps) in
  let maxX := foldl max_step None (px <$> ps) in
  let maxY := foldl max_step None (py <$> ps) in
  match minX, minY, maxX, maxY with
  | Some x0, Some y0, Some x1, Some y1 =>
      mkBB x0 y0 (fl64 (x1 - x0)) (fl64 (y1 - y0))
  | _, _, _, _ => mkBB 0 0 0 0
  end.

(** [Math.round(v * 100) / 100] on a double [v]: the product and the
    quotient are rounded to doubles; [Math.round] of a double is exact. *)
Definition round2 (v : Q) : Q := fl64 (Math_round (fl64 (v * 100)) / 100).

Definition toGridUnits (bb : BoundingBox) (gridSize : Q) (pixelX pixelY : Q) : Q * Q :=
  let relativeX := fl64 (pixelX - originX bb) in
  let relativeY := fl64 (pixelY - originY bb) in
  let gridX := round2 (fl64 (relativeX / gridSize)) in
  let gridY := round2 (fl64 (relativeY / gridSize)) in
  (gridX, gridY).

Definition type_name (k : ShapeKind) : string :=
  match k with
  | line => "line"
  | rect => "rect"
  | circle _ => "circle"
  | bezier _ _ => "bezier"
  | polygon _ => "polygon"
  end.

Definition export_properties (gridSize : Q) (k : ShapeKind) : ExportProperties :=
  match k with
  | circle r => mkEP (Some (round2 (fl64 (r / gridSize)))) None None None
  | bezier segs cl =>
      mkEP None (Some (map (λ seg, mkSeg (p0 seg) (p1 seg) (p2 seg) (p3 seg)) segs))
           (Some cl) None
  | polygon cl => mkEP None None (Some cl) None
  | _ => mkEP None None None None
  end.

Definition export_shape (gridSize : Q) (shape : Shape) : ExportShape :=
  mkESh (s_id shape) (type_name (s_kind shape)) (vertexIds shape)
        (export_properties gridSize (s_kind shape))
        (mkES (Some (color (style shape)))
              (Some (strokeWidth (style shape)))
              (Some (str_or (default "" (fill (style shape))) ""))
              (Some (default 1 (opacity (style shape))))
              (Some (visible shape))
              (Some (locked shape))).

Definition export_vertex (bb : BoundingBox) (gridSize : Q) (v : Vertex) : ExportVertex :=
  mkEV (v_id v) (toGridUnits bb gridSize (v_x v) (v_y v)) (v_type v) (v_parentId v).

Definition export_frame (bb : BoundingBox) (gridSize : Q) (frame : Frame) : ExportFrame :=
  mkEF (f_id frame) (f_name frame) (f_timestamp frame)
       ((λ e, (e.1, toGridUnits bb gridSize (px e.2) (py e.2)))
          <$> map_to_list (f_vertices frame))
       (Some ((λ e, (e.1, mkProps (option_map (λ r, round2 (fl64 (r / gridSize)))
                                               (sp_radius e.2))))
                <$> filter (λ e, is_Some (sp_radius e.2))
                           (map_to_list (f_shapeProperties frame)))).

(** The object that [exportToJSON] serialises; [timestamp] is
    [new Date().toISOString()]. *)
Definition exportToJSON (state : AppState) (gridSize : Q) (timestamp : string)
    : MeshExport :=
  let boundingBox := calculateGlobalBoundingBox state in
  mkME "2.1.0" timestamp
       (export_vertex boundingBox gridSize <$> (map_to_list (vertices state)).*2)
       (export_shape gridSize <$> (map_to_list (shapes state)).*2)
       ((λ g, mkEG (g_id g) (g_name g) (shapeIds g)) <$> (map_to_list (groups state)).*2)
       (Some (export_frame boundingBox gridSize <$> frames state))
       (Some (mkEM
                (Some (mkBBI (round2 (fl64 (width boundingBox / gridSize)))
                             (round2 (fl64 (height boundingBox / gridSize)))
                             (round2 (originX boundingBox), round2 (originY boundingBox))))
                (Some (mkCS (Some "grid") (Some gridSize))))).

(** ** Import (utils.ts, parseImportData) *)

Record Parsed := mkParsed {
  pd_vertices : gmap string Vertex;
  pd_shapes : gmap string Shape;
  pd_groups : gmap string ShapeGroup;
  pd_frames : list Frame;
}.

(** [importData.metadata?.coordinateSystem] *)
Definition coordinateSystem (importData : MeshExport) : option CoordinateSystem :=
  match me_metadata importData with
  | Some md => em_coordinateSystem md
  | None => None
  end.

Definition usesGridUnits (importData : MeshExport) : bool :=
  match coordinateSystem importData with
  | Some cs => bool_decide (cs_unit cs = Some "grid")
  | None => false
  end.

(** [metadata?.coordinateSystem?.gridSize || gridSize] *)
Definition importGridSize (importData : MeshExport) (gridSize : Q) : Q :=
  match coordinateSystem importData with
  | Some (mkCS _ (Some g)) => num_or g gridSize
  | _ => gridSize
  end.

Definition fromGridUnits (importData : MeshExport) (gridSize : Q) (gridX gridY : Q)
    : Q * Q :=
  if usesGridUnits importData
  then (gridX * importGridSize importData gridSize,
        gridY * importGridSize importData gridSize)
  else (gridX, gridY).

Definition import_vertex (importData : MeshExport) (gridSize : Q) (v : ExportVertex)
    : Vertex :=
  let xy := fromGridUnits importData gridSize (ev_position v).1 (ev_position v).2 in
  mkVertex (ev_id v) xy.1 xy.2 (ev_type v) (ev_parentId v).

Definition import_style (st : ExportStyle) : Style :=
  mkStyle (str_or (default "" (es_color st)) "#000000")
          (num_or (default 0 (es_strokeWidth st)) 2)
          (es_fill st)
          (Some (default 1 (es_opacity st))).

(** One shape of the import loop; [None] is the [default:] branch, which
    warns and skips the entry.  For a circle the source keeps
    [[s.vertexRefs[0]]]: with an empty [vertexRefs] that is the one-element
    array [[undefined]], given here as the empty list. *)
Definition import_shape (importData : MeshExport) (gridSize : Q) (s : ExportShape)
    : option Shape :=
  let base (k : ShapeKind) (ids : list string) :=
    mkShape (esh_id s) k ids (import_style (esh_style s))
            (default true (es_visible (esh_style s)))
            (default false (es_locked (esh_style s)))
            (ep_metadata (esh_properties s)) in
  if bool_decide (esh_type s = "line") then Some (base line (esh_vertexRefs s))
  else if bool_decide (esh_type s = "rect") then Some (base rect (esh_vertexRefs s))
  else if bool_decide (esh_type s = "circle") then
    let radius := num_or (default 0 (ep_radius (esh_properties s))) 50 in
    Some (base (circle (if usesGridUnits importData
                        then radius * importGridSize importData gridSize
                        else radius))
               (take 1 (esh_vertexRefs s)))
  else if bool_decide (esh_type s = "bezier") then
    Some (base (bezier (default [] (ep_segments (esh_properties s)))
                       (default false (ep_closed (esh_properties s))))
               (esh_vertexRefs s))
  else if bool_decide (esh_type s = "polygon") then
    Some (base (polygon (default true (ep_closed (esh_properties s))))
               (esh_vertexRefs s))
  else None.

Definition import_frame (importData : MeshExport) (gridSize : Q) (f : ExportFrame)
    : Frame :=
  let vertexPositions :=
    foldl (λ m vp,
             let xy := fromGridUnits importData gridSize vp.2.1 vp.2.2 in
             <[vp.1 := mkPos xy.1 xy.2]> m)
          (∅ : gmap string Pos) (ef_vertexPositions f) in
  let shapeProperties :=
    foldl (λ m sp,
             <[sp.1 := mkProps (if usesGridUnits importData
                                then option_map (λ r, r * importGridSize importData gridSize)
                                                (sp_radius sp.2)
                                else sp_radius sp.2)]> m)
          (∅ : gmap string ShapeProps) (default [] (ef_shapeProperties f)) in
  mkFrame (ef_id f) (ef_name f) vertexPositions shapeProperties (ef_timestamp f).

Definition parseImportData (importData : MeshExport) (gridSize : Q) : Parsed :=
  let vertices :=
    foldl (λ m v, <[ev_id v := import_vertex importData gridSize v]> m)
          (∅ : gmap string Vertex) (me_vertices importData) in
  let shapes :=
    foldl (λ m s, match import_shape importData gridSize s with
                  | Some shape => <[s_id shape := shape]> m
                  | None => m
                  end)
          (∅ : gmap string Shape) (me_shapes importData) in
  let groups :=
    foldl (λ m g, <[eg_id g := mkGroup (eg_id g) (eg_name g) (eg_shapeRefs g) false]> m)
          (∅ : gmap string ShapeGroup) (me_groups importData) in
  let frames := import_frame importData gridSize <$> default [] (me_frames importData) in
  mkParsed vertices shapes groups frames.

(** ** Validation of parsed JSON (utils.ts, validateImportData)

    [validateImportData] receives whatever [JSON.parse] returned, so it is
    given on untyped values.  A property that is absent reads as
    [undefined], here [None]. *)

#[local] Set Warnings "-register-all".

Inductive value :=
  | VNull
  | VBool (b : bool)
  | VNum (n : Q)
  | VStr (s : string)
  | VArr (items : list value)
  | VObj (fields : list (string * value)).

(** What a [throw] carries: an [Error] made by the program with its
    message, or an error raised by the engine (a TypeError on a property
    read of [null] or on a call of something that is not a function, a
    SyntaxError of [JSON.parse]), whose message is the engine's own. *)
Inductive Thrown :=
  | Error (message : string)
  | TypeError
  | SyntaxError.

(** A computation that may throw. *)
Inductive Result (A : Type) :=
  | Ret (a : A)
  | Throw (e : Thrown).
Arguments Ret {A} a.
Arguments Throw {A} e.

#[global] Instance Result_bind : MBind Result :=
  λ A B k r, match r with
             | Ret a => k a
             | Throw e => Throw e
             end.

Fixpoint assoc {A} (k : string) (l : list (string * A)) : option A :=
  match l with
  | [] => None
  | (k', a) :: rest => if bool_decide (k' = k) then Some a else assoc k rest
  end.

(** [v.k]: a TypeError on [null], [undefined] when there is no such
    property. *)
Definition prop (v : value) (k : string) : Result (option value) :=
  match v with
  | VNull => Throw TypeError
  | VObj fields => Ret (assoc k fields)
  | _ => Ret None
  end.

Definition truthy (v : option value) : bool :=
  match v with
  | None | Some VNull => false
  | Some (VBool b) => b
  | Some (VNum n) => negb (Qeq_bool n 0)
  | Some (VStr s) => negb (bool_decide (s = ""))
  | Some (VArr _) | Some (VObj _) => true
  end.

Definition isArray (v : option value) : bool :=
  match v with
  | Some (VArr _) => true
  | _ => false
  end.

Definition items_of (v : option value) : list value :=
  match v with
  | Some (VArr items) => items
  | _ => []
  end.

Inductive Warning := VersionMismatch (got : option value).

(** [!data.version?.startsWith("2.")]: the optional chain stops on
    [null] and [undefined] only; on any other value that is not a string
    [startsWith] is not a function and the call throws. *)
Definition version_check (data : value) : Result (list Warning) :=
  version ← prop data "version";
  match version with
  | None | Some VNull => Ret [VersionMismatch version]
  | Some (VStr s) =>
      if String.prefix "2." s then Ret [] else Ret [VersionMismatch version]
  | Some _ => Throw TypeError
  end.

(** The body of the loop over [data.vertices]: [Ret false] is the
    [return false]. *)
Definition vertex_ok (vertex : value) : Result bool :=
  id ← prop vertex "id";
  if negb (truthy id) then Ret false
  else
    position ← prop vertex "position";
    if negb (isArray position) || negb (length (items_of position) =? 2)%nat
    then Ret false
    else
      type ← prop vertex "type";
      match type with
      | Some (VStr s) =>
          Ret (bool_decide (s = "anchor") || bool_decide (s = "control"))
      | _ => Ret false
      end.

Definition shape_ok (shape : value) : Result bool :=
  id ← prop shape "id";
  if negb (truthy id) then Ret false
  else
    type ← prop shape "type";
    if negb (truthy type) then Ret false
    else
      vertexRefs ← prop shape "vertexRefs";
      Ret (isArray vertexRefs).

Definition frame_ok (frame : value) : Result bool :=
  id ← prop frame "id";
  if negb (truthy id) then Ret false
  else
    name ← prop frame "name";
    if negb (truthy name) then Ret false
    else
      vertexPositions ← prop frame "vertexPositions";
      Ret (isArray vertexPositions).

(** [for (const x of xs) { if (...) return false; }] *)
Fixpoint all_ok (check : value → Result bool) (xs : list value) : Result bool :=
  match xs with
  | [] => Ret true
  | x :: rest =>
      ok ← check x;
      if ok : bool then all_ok check rest else Ret false
  end.

(** The checks after the version warning. *)
Definition validate_body (data : value) : Result bool :=
  vertices ← prop data "vertices";
  if negb (isArray vertices) then Ret false
  else
    shapes ← prop data "shapes";
    if negb (isArray shapes) then Ret false
    else
      groups ← prop data "groups";
      if negb (isArray groups) then Ret false
      else
        vs_ok ← all_ok vertex_ok (items_of vertices);
        if negb (vs_ok : bool) then Ret false
        else
          ss_ok ← all_ok shape_ok (items_of shapes);
          if negb (ss_ok : bool) then Ret false
          else
            frames ← prop data "frames";
            if truthy frames
            then
              if negb (isArray frames) then Ret false
              else all_ok frame_ok (items_of frames)
            else Ret true.

(** The verdict together with what was passed to [console.warn]. *)
Definition validateImportData (data : value) : Result (list Warning * bool) :=
  match data with
  | VArr _ | VObj _ =>
      warnings ← version_check data;
      ok ← validate_body data;
      Ret (warnings, ok)
  | _ => Ret ([], false)
  end.

(** ** Reading a validated value at type [MeshExport]

    [validateImportData] is a type guard: after it, the source uses [data]
    at the declared type [MeshExport].  [as_MeshExport] reads a value at that
    type, key by key as [parseImportData] does.  An optional property that
    [parseImportData] reads through [||], [??], [?.] or a truthiness test
    is read as absent on every value on which that reading gives the
    default: [null] for [??], every falsy value for [||] and [if], every
    value that is not an object for [?.].  [as_MeshExport] gives [None] on
    the values that pass the guard without having the declared type (a
    shape with no [style] object, a position that holds strings, a [null]
    in a property that is copied as it is); what the untyped JavaScript
    does with such a value is not represented. *)

Definition get_str (fields : list (string * value)) (k : string) : option string :=
  match assoc k fields with
  | Some (VStr s) => Some s
  | _ => None
  end.

Definition get_num (fields : list (string * value)) (k : string) : option Q :=
  match assoc k fields with
  | Some (VNum n) => Some n
  | _ => None
  end.

(** An optional key that is copied: [Some None] when it is absent. *)
Definition opt_str (fields : list (string * value)) (k : string) : option (option string) :=
  match assoc k fields with
  | None => Some None
  | Some (VStr s) => Some (Some s)
  | Some _ => None
  end.

Definition opt_num (fields : list (string * value)) (k : string) : option (option Q) :=
  match assoc k fields with
  | None => Some None
  | Some (VNum n) => Some (Some n)
  | Some _ => None
  end.

(** An optional key read as [x || d]: a falsy value gives the default, as
    an absent key does. *)
Definition or_str (fields : list (string * value)) (k : string) : option (option string) :=
  match assoc k fields with
  | None => Some None
  | Some (VStr s) => Some (Some s)
  | Some v => if truthy (Some v) then None else Some None
  end.

Definition or_num (fields : list (string * value)) (k : string) : option (option Q) :=
  match assoc k fields with
  | None => Some None
  | Some (VNum n) => Some (Some n)
  | Some v => if truthy (Some v) then None else Some None
  end.

(** An optional key read as [x ?? d]: [null] gives the default, as an
    absent key does. *)
Definition nullish_num (fields : list (string * value)) (k : string) : option (option Q) :=
  match assoc k fields with
  | None | Some VNull => Some None
  | Some (VNum n) => Some (Some n)
  | Some _ => None
  end.

Definition nullish_bool (fields : list (string * value)) (k : string)
    : option (option bool) :=
  match assoc k fields with
  | None | Some VNull => Some None
  | Some (VBool b) => Some (Some b)
  | Some _ => None
  end.

Definition as_str (v : value) : option string :=
  match v with
  | VStr s => Some s
  | _ => None
  end.

Definition as_pair (v : option value) : option (Q * Q) :=
  match v with
  | Some (VArr [VNum a; VNum b]) => Some (a, b)
  | _ => None
  end.

Definition as_list {A} (f : value → option A) (v : option value) : option (list A) :=
  match v with
  | Some (VArr items) => mapM f items
  | _ => None
  end.

(** An optional array read as [x || []] or under [if (x)]: a falsy value
    is skipped, as an absent key is. *)
Definition opt_list {A} (f : value → option A) (v : option value) : option (option (list A)) :=
  match v with
  | None => Some None
  | Some (VArr items) => Some <$> mapM f items
  | Some v => if truthy (Some v) then None else Some None
  end.

Definition as_type (s : string) : option VertexType :=
  if bool_decide (s = "anchor") then Some anchor
  else if bool_decide (s = "control") then Some control
  else None.

Definition as_vertex (v : value) : option ExportVertex :=
  match v with
  | VObj f =>
      id ← get_str f "id";
      position ← as_pair (assoc "position" f);
      type ← get_str f "type" ≫= as_type;
      parentId ← opt_str f "parentId";
      Some (mkEV id position type parentId)
  | _ => None
  end.

Definition as_segment (v : value) : option BezierSegment :=
  match v with
  | VObj f =>
      a ← get_str f "p0"; b ← get_str f "p1";
      c ← get_str f "p2"; d ← get_str f "p3";
      Some (mkSeg a b c d)
  | _ => None
  end.

(** [s.properties]: [radius || 50], [segments || []], [closed || false]
    for a Bezier curve and [closed ?? true] for a polygon ([null] gives the
    default in both), [metadata] copied. *)
Definition as_properties (v : option value) : option ExportProperties :=
  match v with
  | Some (VObj f) =>
      radius ← or_num f "radius";
      segments ← opt_list as_segment (assoc "segments" f);
      closed ← nullish_bool f "closed";
      metadata ← opt_str f "metadata";
      Some (mkEP radius segments closed metadata)
  | _ => None
  end.

(** [s.style]: [color || "#000000"], [strokeWidth || 2], [fill] copied,
    [opacity ?? 1], [visible ?? true], [locked ?? false]. *)
Definition as_style (v : option value) : option ExportStyle :=
  match v with
  | Some (VObj f) =>
      color ← or_str f "color";
      strokeWidth ← or_num f "strokeWidth";
      fill ← opt_str f "fill";
      opacity ← nullish_num f "opacity";
      visible ← nullish_bool f "visible";
      locked ← nullish_bool f "locked";
      Some (mkES color strokeWidth fill opacity visible locked)
  | _ => None
  end.

Definition as_shape (v : value) : option ExportShape :=
  match v with
  | VObj f =>
      id ← get_str f "id";
      type ← get_str f "type";
      vertexRefs ← as_list as_str (assoc "vertexRefs" f);
      properties ← as_properties (assoc "properties" f);
      style ← as_style (assoc "style" f);
      Some (mkESh id type vertexRefs properties style)
  | _ => None
  end.

Definition as_group (v : value) : option ExportGroup :=
  match v with
  | VObj f =>
      id ← get_str f "id";
      name ← get_str f "name";
      shapeRefs ← as_list as_str (assoc "shapeRefs" f);
      Some (mkEG id name shapeRefs)
  | _ => None
  end.

Definition as_vertexPosition (v : value) : option (string * (Q * Q)) :=
  match v with
  | VObj f =>
      vertexId ← get_str f "vertexId";
      position ← as_pair (assoc "position" f);
      Some (vertexId, position)
  | _ => None
  end.

(** [{ ...sp.properties }]: spreading [undefined] or [null] gives the
    empty object. *)
Definition as_shapeProperty (v : value) : option (string * ShapeProps) :=
  match v with
  | VObj f =>
      shapeId ← get_str f "shapeId";
      match assoc "properties" f with
      | None | Some VNull => Some (shapeId, mkProps None)
      | Some (VObj pf) => radius ← opt_num pf "radius"; Some (shapeId, mkProps radius)
      | _ => None
      end
  | _ => None
  end.

Definition as_frame (v : value) : option ExportFrame :=
  match v with
  | VObj f =>
      id ← get_str f "id";
      name ← get_str f "name";
      timestamp ← get_num f "timestamp";
      vertexPositions ← as_list as_vertexPosition (assoc "vertexPositions" f);
      shapeProperties ← opt_list as_shapeProperty (assoc "shapeProperties" f);
      Some (mkEF id name timestamp vertexPositions shapeProperties)
  | _ => None
  end.

(** [metadata?.coordinateSystem]: on a value that is not an object the
    properties read as [undefined].  [unit] is only compared with "grid";
    [gridSize] is read as [gridSize || d]. *)
Definition as_coordinateSystem (v : option value) : option (option CoordinateSystem) :=
  match v with
  | Some (VObj f) =>
      gridSize ← or_num f "gridSize";
      Some (Some (mkCS (get_str f "unit") gridSize))
  | _ => Some None
  end.

Definition as_metadata (v : option value) : option (option ExportMetadata) :=
  match v with
  | Some (VObj f) =>
      cs ← as_coordinateSystem (assoc "coordinateSystem" f);
      Some (Some (mkEM None cs))
  | _ => Some None
  end.

(** [version] and [timestamp] are never read by the import; they are kept
    when they are strings. *)
Definition as_MeshExport (data : value) : option MeshExport :=
  match data with
  | VObj f =>
      vertices ← as_list as_vertex (assoc "vertices" f);
      shapes ← as_list as_shape (assoc "shapes" f);
      groups ← as_list as_group (assoc "groups" f);
      frames ← opt_list as_frame (assoc "frames" f);
      metadata ← as_metadata (assoc "metadata" f);
      Some (mkME (default "" (get_str f "version")) (default "" (get_str f "timestamp"))
                 vertices shapes groups frames metadata)
  | _ => None
  end.

(** ** Import (hooks/useImportExport.ts, importFromJSON) *)

(** [{ type: 'success', message }] and
    [{ type: 'error', message: `Import failed: ${error.message}` }]: the
    error status holds the error that was caught. *)
Inductive ImportStatus :=
  | success (message : string)
  | error (caught : Thrown).

(** The text that is shown; for an error raised by the engine it ends with
    the engine's message, which is not represented. *)
Definition status_message (status : ImportStatus) : option string :=
  match status with
  | success message => Some message
  | error (Error message) => Some ("Import failed: " +:+ message)
  | error _ => None
  end.

Definition import_counts (verb : string) (p : Parsed) : string :=
  verb +:+ ": " +:+ pretty (size (pd_vertices p)) +:+ " vertices, "
       +:+ pretty (size (pd_shapes p)) +:+ " shapes, "
       +:+ pretty (length (pd_frames p)) +:+ " frames".

(** What the [try] block does with data of the declared type: the action
    it dispatches and the status it sets. *)
Definition import_parsed (state : AppState) (gridSize : Q) (confirmMerge : bool)
    (importData : MeshExport) : AppAction * ImportStatus :=
  let p := parseImportData importData gridSize in
  let shouldMerge :=
    negb (size (vertices state) =? 0)%nat || negb (size (shapes state) =? 0)%nat in
  if shouldMerge && confirmMerge
  then
    (* [source.forEach((x, id) => merged.set(id, x))]: the imported
       entry wins on a key that both maps have *)
    (IMPORT_DATA (pd_vertices p ∪ vertices state)
                 (pd_shapes p ∪ shapes state)
                 (pd_groups p ∪ groups state)
                 (Some (frames state ++ pd_frames p)),
     success (import_counts "Merged" p))
  else
    (IMPORT_DATA (pd_vertices p) (pd_shapes p) (pd_groups p) (Some (pd_frames p)),
     success (import_counts "Imported" p)).

(** The body of the [try] block after [JSON.parse]: the action it
    dispatches with the status it sets, or the thrown error.  [None]: the
    data passes the validation without having the declared type, and what
    the import does with it is not represented. *)
Definition import_try (state : AppState) (gridSize : Q) (confirmMerge : bool)
    (data : value) : option (Result (AppAction * ImportStatus)) :=
  match validateImportData data with
  | Throw e => Some (Throw e)
  | Ret verdict =>
      if negb verdict.2 then Some (Throw (Error "Invalid import data format"))
      else
        match as_MeshExport data with
        | None => None
        | Some importData => Some (Ret (import_parsed state gridSize confirmMerge importData))
        end
  end.

(** [importFromJSON]: [parsed] is the outcome of [JSON.parse(jsonString)],
    [confirmMerge] the answer to [window.confirm].  The result is the
    dispatched action, if any, and the import status shown to the user;
    the [catch] block turns a thrown error into the error status. *)
Definition importFromJSON (state : AppState) (gridSize : Q) (confirmMerge : bool)
    (parsed : Result value) : option (option AppAction * ImportStatus) :=
  match parsed with
  | Throw e => Some (None, error e)
  | Ret data =>
      match import_try state gridSize confirmMerge data with
      | None => None
      | Some (Ret (action, status)) => Some (Some action, status)
      | Some (Throw e) => Some (None, error e)
      end
  end.

(** The document after the import: the reducer run on what was dispatched. *)
Definition document_after_import (env : Env) (state : AppState) (gridSize : Q)
    (confirmMerge : bool) (parsed : Result value) : option AppState :=
  match importFromJSON state gridSize confirmMerge parsed with
  | Some (Some action, _) => Some (appReducer env state action)
  | Some (None, _) => Some state
  | None => None
  end.

(** ** The Bezier tool (hooks/useCanvasInteraction.ts, handleMouseDown) *)

(** The loop over consecutive pending anchors.  [gen k] is the result of the
    [k]-th call of [generateId()]; [state] is the state the handler closed
    over, which the dispatches inside the loop do not change.  The result is
    the dispatched actions and the segments pushed. *)
Fixpoint bezier_loop (gen : nat → string) (state : AppState) (i : nat)
    (tempVertices : list Vertex) : list AppAction * list BezierSegment :=
  match tempVertices with
  | P0 :: ((P3 :: rest) as tail) =>
      let P1 := mkVertex (gen (2 * i)%nat)
                         (v_x P0 + (v_x P3 - v_x P0) * 0.33)
                         (v_y P0) control (Some (v_id P0)) in
      let P2 := mkVertex (gen (2 * i + 1)%nat)
                         (v_x P0 + (v_x P3 - v_x P0) * 0.66)
                         (v_y P3) control (Some (v_id P3)) in
      let here :=
        (if bool_decide (is_Some (vertices state !! v_id P0)) then [] else [ADD_VERTEX P0])
        ++ [ADD_VERTEX P1; ADD_VERTEX P2]
        ++ (match rest with
            | [] => if bool_decide (is_Some (vertices state !! v_id P3))
                    then [] else [ADD_VERTEX P3]
            | _ => []
            end) in
      let later := bezier_loop gen state (S i) tail in
      (here ++ later.1, mkSeg (v_id P0) (v_id P1) (v_id P2) (v_id P3) :: later.2)
  | _ => ([], [])
  end.

(** The [tool === "bezier"] branch of [handleMouseDown].  [button] is
    [e.button]; [newVertex] is what [getOrCreateVertex] returns for the
    snapped click point (hooks/useVertexOperations).  The result is the
    dispatched actions and the new pending list. *)
Definition handleMouseDown_bezier (gen : nat → string) (state : AppState)
    (currentStyle : Style) (tempVertices : list Vertex) (button : Z)
    (newVertex : Vertex) : list AppAction * list Vertex :=
  if (button =? 2)%Z && (2 <=? length tempVertices)%nat
  then
    let loop := bezier_loop gen state 0 tempVertices in
    let segments := loop.2 in
    let bezierShape :=
      mkShape (gen (2 * (length tempVertices - 1))%nat)
              (bezier segments false)
              (flat_map seg_refs segments)
              currentStyle true false None in
    (loop.1 ++ [ADD_SHAPE bezierShape], [])
  else ([], tempVertices ++ [newVertex]).

(** * Notions used by the properties *)

Local Open Scope nat_scope.

(** ** History *)

(** The actions whose reducer case spreads [saveHistory()]: the structural
    edits. *)
Definition structural (a : AppAction) : bool :=
  match a with
  | ADD_VERTEX _ | DELETE_VERTEX _ | ADD_SHAPE _ | DELETE_SHAPE _
  | IMPORT_DATA _ _ _ _ => true
  | MERGE_VERTICES ids _ => (2 <=? length ids)%nat
  | _ => false
  end.

Definition snapshot_of (s : AppState) : Snapshot := mkSnap (vertices s) (shapes s).

(** The states a session goes through: before the first action, after the
    first, and so on up to (but not including) the last. *)
Definition states_before (acts : list (Env * AppAction)) : list AppState :=
  (λ i, run initialState (take i acts)) <$> seq 0 (length acts).

(** [past] and [future] together never hold more than 50 snapshots. *)
Definition history_bounded (s : AppState) : Prop :=
  (length (past (history s)) + length (future (history s)) ≤ 50)%nat.


(** Sixty distinct vertex placements, and fifty UNDOs. *)
Definition sixty_edits : list (Env * AppAction) :=
  (λ i : nat, (mkEnv "" 0, ADD_VERTEX (mkVertex (pretty i) 0 0 anchor None)))
    <$> seq 0 60.

Definition fifty_undos : list (Env * AppAction) := replicate 50 (mkEnv "" 0, UNDO).

(** ** Frames *)


(** A document with a single recorded frame. *)
Definition one_frame_state : AppState :=
  run initialState [(mkEnv "f1" 0, RECORD_FRAME None)].

(** The scenario of two recorded frames: a circle of radius 10 centred at
    (0, 0), then moved to (50, 50) with radius 20. *)
Definition frame_a : Frame :=
  mkFrame "f1" "Frame 1" {["c" := mkPos 0 0]} {["C" := mkProps (Some 10%Q)]} 0.

Definition frame_b : Frame :=
  mkFrame "f2" "Frame 2" {["c" := mkPos 50 50]} {["C" := mkProps (Some 20%Q)]} 0.

Definition centre_moved : Vertex := mkVertex "c" 50 50 anchor None.

Definition two_frame_state : AppState :=
  mkState {["c" := centre_moved]}
          {["C" := mkShape "C" (circle 20) ["c"] (mkStyle "#000000" 2 (Some "") (Some 1%Q))
                           true false None]}
          ∅ [frame_a; frame_b] 1 false ∅ ∅ None None (mkHistory [] []).

(** ** Shapes and their references *)

(** Some shape other than [self] lists [v] among its [vertexIds]. *)
Definition referenced_elsewhere (sh : gmap string Shape) (self v : string) : Prop :=
  ∃ k s, k ≠ self ∧ sh !! k = Some s ∧ v ∈ vertexIds s.

(** [v] is a control point ([p1] or [p2]) of one of the segments. *)
Definition control_point_of (segs : list BezierSegment) (v : string) : Prop :=
  ∃ seg, seg ∈ segs ∧ (v = p1 seg ∨ v = p2 seg).

(** A document that holds one Bezier curve from [a] to [b] and nothing
    else. *)
Definition curve_style : Style := mkStyle "#000000" 2 (Some "") (Some 1%Q).

Definition single_curve_state : AppState :=
  mkState {["a" := mkVertex "a" 0 0 anchor None;
            "c1" := mkVertex "c1" 33 0 control (Some "a");
            "c2" := mkVertex "c2" 66 100 control (Some "b");
            "b" := mkVertex "b" 100 100 anchor None]}
          {["B" := mkShape "B" (bezier [mkSeg "a" "c1" "c2" "b"] false)
                           ["a"; "c1"; "c2"; "b"] curve_style true false None]}
          ∅ [] 0 false ∅ {["B"]} None None (mkHistory [] []).

(** ** Import *)

(** A document without a [metadata] block: one vertex at position
    [5, 0]. *)
Definition plain_document : MeshExport :=
  mkME "2.1.0" "" [mkEV "a" (5, 0)%Q anchor None] [] [] None None.

(** The same vertex in a document that declares grid units of size 10. *)
Definition grid_document : MeshExport :=
  mkME "2.1.0" "" [mkEV "a" (5, 0)%Q anchor None] [] [] None
       (Some (mkEM None (Some (mkCS (Some "grid") (Some 10%Q))))).

(** ** Merging and referential integrity *)

(** The vertex list of a Bezier shape is the flattening of its segments
    (data model: Bezier = 4·N references via Segments). *)
Definition bezier_wf (s : Shape) : Prop :=
  match s_kind s with
  | bezier segs _ => vertexIds s = flat_map seg_refs segs
  | _ => True
  end.

(** The rewriting that the merge is specified to do on one shape: every
    reference to a merged id, in [vertexIds] and in the segment fields,
    becomes the new id. *)
Definition rewrite_refs (ids : list string) (newId : string) (s : Shape) : Shape :=
  mkShape (s_id s)
          (match s_kind s with
           | bezier segs cl => bezier (map (merge_segment ids newId) segs) cl
           | k => k
           end)
          (map (merge_id ids newId) (vertexIds s))
          (style s) (visible s) (locked s) (metadata s).

(** Every vertex id that a shape lists is a key of the vertex map. *)
Definition refs_exist (vs : gmap string Vertex) (sh : gmap string Shape) : Prop :=
  ∀ k s v, sh !! k = Some s → v ∈ vertexIds s → is_Some (vs !! v).

Definition shapes_wf (sh : gmap string Shape) : Prop :=
  ∀ k s, sh !! k = Some s → bezier_wf s.

Definition consistent (vs : gmap string Vertex) (sh : gmap string Shape) : Prop :=
  refs_exist vs sh ∧ shapes_wf sh.

(** The invariant: the live document and every snapshot kept for undo and
    redo are consistent. *)
Definition integrity (s : AppState) : Prop :=
  consistent (vertices s) (shapes s)
  ∧ Forall (λ x, consistent (snap_vertices x) (snap_shapes x)) (past (history s))
  ∧ Forall (λ x, consistent (snap_vertices x) (snap_shapes x)) (future (history s)).

(** An update that leaves the references of a shape alone. *)
Definition keeps_refs (u : ShapeUpdates) : Prop :=
  su_vertexIds u = None ∧ su_segments u = None.

(** What the reducer does not check and its callers provide: shapes that
    enter the document refer to vertices that are there, shape updates do
    not replace references, and a generated id is not one of the ids being
    merged. *)
Definition admissible (env : Env) (s : AppState) (a : AppAction) : Prop :=
  match a with
  | ADD_SHAPE shape =>
      (∀ v, v ∈ vertexIds shape → is_Some (vertices s !! v)) ∧ bezier_wf shape
  | UPDATE_SHAPE _ u => keeps_refs u
  | BATCH_UPDATE _ sus => Forall (λ u, keeps_refs u.2) (default [] sus)
  | IMPORT_DATA vs sh _ _ => consistent vs sh
  | MERGE_VERTICES ids _ => env_id env ∉ ids
  | _ => True
  end.

Fixpoint admissible_run (s : AppState) (acts : list (Env * AppAction)) : Prop :=
  match acts with
  | [] => True
  | ea :: rest => admissible ea.1 s ea.2 ∧ admissible_run (appReducer ea.1 s ea.2) rest
  end.

(** Two vertices joined by a line. *)
Definition line_ab : Shape :=
  mkShape "L" line ["a"; "b"] curve_style true false None.

Definition line_state : AppState :=
  mkState {["a" := mkVertex "a" 0 0 anchor None; "b" := mkVertex "b" 100 0 anchor None]}
          {["L" := line_ab]}
          ∅ [] 0 false ∅ ∅ None None (mkHistory [] []).

(** Two vertices are placed, joined by a line, and the first is deleted. *)
Definition line_session : list (Env * AppAction) :=
  [(mkEnv "" 0, ADD_VERTEX (mkVertex "a" 0 0 anchor None));
   (mkEnv "" 0, ADD_VERTEX (mkVertex "b" 100 0 anchor None));
   (mkEnv "" 0, ADD_SHAPE line_ab);
   (mkEnv "" 0, DELETE_VERTEX "a")].

(** A file that the validation accepts: two anchors and a Bezier shape
    that lists them in [vertexRefs] and has no segments. *)
Definition stale_bezier_document : value :=
  VObj [("version", VStr "2.1.0");
        ("vertices",
         VArr [VObj [("id", VStr "a"); ("position", VArr [VNum 0; VNum 0]);
                     ("type", VStr "anchor")];
               VObj [("id", VStr "b"); ("position", VArr [VNum 10; VNum 0]);
                     ("type", VStr "anchor")]]);
        ("shapes",
         VArr [VObj [("id", VStr "B"); ("type", VStr "bezier");
                     ("vertexRefs", VArr [VStr "a"; VStr "b"]);
                     ("properties", VObj []); ("style", VObj [])]]);
        ("groups", VArr [])].

(** ** The Bezier tool *)

(** A generator of ids and two pending anchors on a diagonal. *)
Definition numbered_ids (k : nat) : string := "id" +:+ pretty k.

Definition anchor_a : Vertex := mkVertex "a" 0 0 anchor None.
Definition anchor_b : Vertex := mkVertex "b" 100 100 anchor None.

(** ** Import validation *)

(** Reading property [k] of a value that is not [null]. *)
Definition field (v : value) (k : string) : option value :=
  match v with
  | VObj f => assoc k f
  | _ => None
  end.





(** An empty document of version 1.0 and the same document at 2.1.0, a
    document whose only vertex has a one-element position, and a document
    whose version is a number. *)
Definition empty_arrays : list (string * value) :=
  [("vertices", VArr []); ("shapes", VArr []); ("groups", VArr [])].



Definition short_position_document : value :=
  VObj [("version", VStr "2.1.0");
        ("vertices", VArr [VObj [("id", VStr "a"); ("position", VArr [VNum 1]);
                                 ("type", VStr "anchor")]]);
        ("shapes", VArr []); ("groups", VArr [])].


(** An empty document whose optional [frames] and [metadata] are [null]. *)
Definition null_frames_document : value :=
  VObj (("version", VStr "2.1.0") :: ("frames", VNull) :: ("metadata", VNull)
        :: empty_arrays).

(** ** Export followed by import *)

(** The data-model conditions on a document: a vertex and a shape are
    stored under their own id, and a circle lists exactly its centre. *)
Definition well_keyed (state : AppState) : Prop :=
  (∀ k v, vertices state !! k = Some v → v_id v = k)
  ∧ (∀ k s, shapes state !! k = Some s → s_id s = k)
  ∧ (∀ k s r, shapes state !! k = Some s → s_kind s = circle r →
       length (vertexIds s) = 1).

(** A style with every field set to a value that the import does not
    replace by a default. *)
Definition style_complete (st : Style) : Prop :=
  color st ≠ "" ∧ ¬ (strokeWidth st == 0)%Q ∧ is_Some (fill st) ∧ is_Some (opacity st).

(** What a shape becomes when it is exported and imported again with grid
    size [g]. *)
Definition reimported_shape (g : Q) (s : Shape) : Shape :=
  mkShape (s_id s)
          (match s_kind s with
           | circle r => circle (num_or (round2 (fl64 (r / g))) 50 * g)
           | k => k
           end)
          (match s_kind s with
           | circle _ => take 1 (vertexIds s)
           | _ => vertexIds s
           end)
          (mkStyle (str_or (color (style s)) "#000000")
                   (num_or (strokeWidth (style s)) 2)
                   (Some (default "" (fill (style s))))
                   (Some (default 1%Q (opacity (style s)))))
          (visible s) (locked s) None.

(** A document with a single vertex away from the origin. *)
Definition offset_state : AppState :=
  mkState {["a" := mkVertex "a" 100 100 anchor None]} ∅
          ∅ [] 0 false ∅ ∅ None None (mkHistory [] []).

(** ** Proof tactics *)

(** Reduce the reducer and the field accesses, and nothing else. *)
Ltac reduce_state :=
  cbn [appReducer admissible vertices shapes groups frames currentFrameIndex isRecording
       selectedVertexIds selectedShapeIds hoveredVertexId hoveredShapeId history
       set_vertices set_shapes set_groups set_frames set_currentFrameIndex
       set_isRecording set_selectedVertexIds set_selectedShapeIds
       set_hoveredVertexId set_hoveredShapeId set_history initialState
       past future snap_vertices snap_shapes default] in *.

Ltac unchanged := reduce_state; split; [assumption|split; assumption].

(** * Further notions: history, frames and playback *)

(** An update that carries only a position ([{ x, y }], as the drag and the
    snap of useCanvasInteraction build them). *)
Definition position_only (u : VertexUpdates) : bool :=
  match vu_id u, vu_type u, vu_parentId u with
  | None, None, None => true
  | _, _, _ => false
  end.

(** An update that carries only a radius ([{ radius }], as the radius drag
    builds it). *)
Definition radius_only (u : ShapeUpdates) : bool :=
  match su_id u, su_vertexIds u, su_style u, su_visible u, su_locked u,
        su_metadata u, su_segments u, su_closed u with
  | None, None, None, None, None, None, None, None => true
  | _, _, _, _, _, _, _, _ => false
  end.

(** The actions that only move what a frame records: drags, radius drags,
    selection and hovering, playback, and the recording of further
    frames. *)
Definition motion (a : AppAction) : bool :=
  match a with
  | UPDATE_VERTEX _ u => position_only u
  | UPDATE_SHAPE _ u => radius_only u
  | BATCH_UPDATE vus sus =>
      forallb (λ u, position_only u.2) (default [] vus)
      && forallb (λ u, radius_only u.2) (default [] sus)
  | SELECT_VERTICES _ _ | SELECT_SHAPES _ _ | HOVER_VERTEX _ | HOVER_SHAPE _
  | SET_CURRENT_FRAME _ | APPLY_FRAME _ | INTERPOLATE_FRAMES _ _ _
  | RECORD_FRAME _ | START_RECORDING | STOP_RECORDING => true
  | _ => false
  end.

(** The actions that rewrite the history or reset the document. *)
Definition history_action (a : AppAction) : bool :=
  match a with
  | UNDO | REDO | CLEAR_ALL => true
  | _ => false
  end.

(** A vertex placed and then dragged. *)
Definition placed_and_dragged : list (Env * AppAction) :=
  [(mkEnv "" 0, ADD_VERTEX (mkVertex "a" 0 0 anchor None));
   (mkEnv "" 0, UPDATE_VERTEX "a" (mkVU None (Some 10%Q) (Some 20%Q) None None))].

(** ** Frames *)

(** The current frame index points at a frame whenever there is one; with
    no frame it is 0 (initially) or -1 (after the last frame was
    deleted). *)
Definition frame_index_valid (s : AppState) : Prop :=
  let n := Z.of_nat (length (frames s)) in
  ((0 < n)%Z → (0 ≤ currentFrameIndex s < n)%Z)
  ∧ (n = 0%Z → currentFrameIndex s = 0%Z ∨ currentFrameIndex s = (-1)%Z).

(** [v'] is [v] at another position; [s'] is [s], with another radius if it
    is a circle. *)
Definition moved_vertex (v v' : Vertex) : Prop := ∃ x y, v' = with_pos x y v.

Definition moved_shape (s s' : Shape) : Prop :=
  s' = s ∨ ∃ r r', s_kind s = circle r ∧ s' = with_kind (circle r') s.

(** Two maps with the same keys whose entries are related. *)
Definition pointwise {V} (R : V → V → Prop) (m m' : gmap string V) : Prop :=
  ∀ k, match m !! k, m' !! k with
       | Some x, Some x' => R x x'
       | None, None => True
       | _, _ => False
       end.

(** A frame is recorded of [line_state]; its first vertex is dragged, the
    frame pair (0, 0) is played, and the selection changes. *)
Definition moves_after_recording : list (Env * AppAction) :=
  [(mkEnv "" 0, UPDATE_VERTEX "a" (mkVU None (Some 10%Q) (Some 20%Q) None None));
   (mkEnv "" 0, BATCH_UPDATE (Some [("b", mkVU None (Some 7%Q) None None None)]) None);
   (mkEnv "" 0, SELECT_VERTICES ["a"] false)].

(** * Geometry, snapping and the viewport *)

Local Open Scope Q_scope.

(** ** utils.ts: [cubicBezier] *)


(** ** hooks/useVertexOperations: [snapPoint] *)

Definition snapPoint (snapToGrid : bool) (gridSize : Q) (x y : Q) : Pos :=
  if negb snapToGrid then mkPos x y
  else mkPos (Math_round (x / gridSize) * gridSize)
             (Math_round (y / gridSize) * gridSize).

(** ** Canvas.tsx: the viewport *)

Record Viewport := mkViewport { zoom : Q; offsetX : Q; offsetY : Q }.

(** The initial viewport, which is also what [resetViewport] sets. *)
Definition resetViewport : Viewport := mkViewport 1 0 0.



Definition zoomIn (prev : Viewport) : Viewport :=
  mkViewport (Math_min 5 (zoom prev * 1.2)) (offsetX prev) (offsetY prev).

Definition zoomOut (prev : Viewport) : Viewport :=
  mkViewport (Math_max 0.1 (zoom prev / 1.2)) (offsetX prev) (offsetY prev).

(** [handleWheel]: [deltaY] is [e.deltaY], and [mouseX], [mouseY] are the
    pointer position relative to the canvas element. *)
Definition handleWheel (deltaY mouseX mouseY : Q) (prev : Viewport) : Viewport :=
  let delta := if Qle_bool deltaY 0 then 1.1 else 0.9 in
  let newZoom := Math_max 0.1 (Math_min 5 (zoom prev * delta)) in
  let scale := newZoom / zoom prev in
  mkViewport newZoom
             (mouseX - (mouseX - offsetX prev) * scale)
             (mouseY - (mouseY - offsetY prev) * scale).


Definition pan (start : Pos) (clientX clientY : Q) (prev : Viewport) : Viewport :=
  mkViewport (zoom prev) (clientX - px start) (clientY - py start).

(** What the user can do to the viewport. *)
Inductive ViewportEvent :=
  | ZoomIn
  | ZoomOut
  | ResetView
  | Wheel (deltaY mouseX mouseY : Q)
  | Pan (start : Pos) (clientX clientY : Q).

Definition viewport_step (prev : Viewport) (e : ViewportEvent) : Viewport :=
  match e with
  | ZoomIn => zoomIn prev
  | ZoomOut => zoomOut prev
  | ResetView => resetViewport
  | Wheel deltaY mouseX mouseY => handleWheel deltaY mouseX mouseY prev
  | Pan start clientX clientY => pan start clientX clientY prev
  end.




Local Open Scope nat_scope.

(** * The drawing tools, the selection box, dragging and the Delete key *)

(** ** hooks/useCanvasInteraction.ts *)

Inductive Tool :=
  | tool_select | tool_vertex | tool_line | tool_rect | tool_circle
  | tool_bezier | tool_polygon.

(** [if (!state.vertices.has(v.id)) dispatch({ type: "ADD_VERTEX", vertex: v })]:
    the vertex map read is that of the render the handler was created in. *)
Definition add_if_new (state : AppState) (v : Vertex) : list AppAction :=
  if bool_decide (is_Some (vertices state !! v_id v)) then [] else [ADD_VERTEX v].

(** The [tool === "line"] branch of [handleMouseDown].  [newVertex] is what
    [getOrCreateVertex] returns for the snapped click point and [newId] what
    [generateId()] returns.  The result is the dispatched actions and the new
    pending list. *)
Definition handleMouseDown_line (newId : string) (state : AppState)
    (currentStyle : Style) (tempVertices : list Vertex) (newVertex : Vertex)
    : list AppAction * list Vertex :=
  match tempVertices with
  | [] => ([], [newVertex])
  | [first] =>
      (add_if_new state first ++ add_if_new state newVertex
       ++ [ADD_SHAPE (mkShape newId line [v_id first; v_id newVertex]
                              currentStyle true false None)],
       [])
  | _ => ([], tempVertices)
  end.

(** The [tool === "rect"] branch of [handleMouseUp] while drawing.  The
    three further corners are what [getOrCreateVertex] returns. *)
Definition handleMouseUp_rect (newId : string) (state : AppState)
    (currentStyle : Style) (tempVertices : list Vertex)
    (topRight bottomRight bottomLeft : Vertex) : list AppAction * list Vertex :=
  match tempVertices with
  | [topLeft] =>
      (flat_map (add_if_new state) [topLeft; topRight; bottomRight; bottomLeft]
       ++ [ADD_SHAPE (mkShape newId rect
                              [v_id topLeft; v_id topRight; v_id bottomRight;
                               v_id bottomLeft]
                              currentStyle true false None)],
       [])
  | _ => ([], tempVertices)
  end.

(** [handleContextMenu]: a right click closes the pending polygon. *)
Definition handleContextMenu (newId : string) (state : AppState) (tool : Tool)
    (currentStyle : Style) (tempVertices : list Vertex)
    : list AppAction * list Vertex :=
  match tool with
  | tool_polygon =>
      if (3 <=? length tempVertices)%nat
      then (flat_map (add_if_new state) tempVertices
            ++ [ADD_SHAPE (mkShape newId (polygon true) (v_id <$> tempVertices)
                                   currentStyle true false None)],
            [])
      else ([], tempVertices)
  | _ => ([], tempVertices)
  end.

(** The selection box of [handleMouseUp]. *)
Record SelectionBox := mkBox { startX : Q; startY : Q; endX : Q; endY : Q }.

Definition inside_box (box : SelectionBox) (v : Vertex) : bool :=
  let minX := Math_min (startX box) (endX box) in
  let maxX := Math_max (startX box) (endX box) in
  let minY := Math_min (startY box) (endY box) in
  let maxY := Math_max (startY box) (endY box) in
  Qle_bool minX (v_x v) && Qle_bool (v_x v) maxX
  && Qle_bool minY (v_y v) && Qle_bool (v_y v) maxY.

Definition handleMouseUp_selectionBox (state : AppState) (box : SelectionBox)
    (shiftKey : bool) : AppAction :=
  SELECT_VERTICES ((filter (λ p, inside_box box p.2 = true)
                           (map_to_list (vertices state))).*1)
                  shiftKey.

(** The update list that a loop over the selected vertices builds: one
    entry for every selected id that has a vertex. *)
Definition selected_updates (state : AppState) (f : Vertex → VertexUpdates)
    : list (string * VertexUpdates) :=
  omap (λ id, (λ v, (id, f v)) <$> vertices state !! id)
       (elements (selectedVertexIds state)).

Definition move_to (x y : Q) : VertexUpdates := mkVU None (Some x) (Some y) None None.

(** [if (updates.length > 0) dispatch({ type: "BATCH_UPDATE", ... })] *)
Definition dispatch_updates (updates : list (string * VertexUpdates)) : list AppAction :=
  match updates with
  | [] => []
  | _ => [BATCH_UPDATE (Some updates) None]
  end.


(** The snap at the end of a drag in [handleMouseUp], taken when
    [draggedVertexId && snapToGrid]; [snap] is the [snapPoint] passed to the
    hook. *)
Definition handleMouseUp_snap (state : AppState) (snap : Q → Q → Pos)
    (draggedVertexId : string) : list AppAction :=
  let snapped v := move_to (px (snap (v_x v) (v_y v))) (py (snap (v_x v) (v_y v))) in
  dispatch_updates
    (if bool_decide (draggedVertexId ∈ selectedVertexIds state)
     then selected_updates state snapped
     else match vertices state !! draggedVertexId with
          | Some v => [(draggedVertexId, snapped v)]
          | None => []
          end).

(** ** hooks/useKeyboardShortcuts.ts: the Delete and Backspace keys *)

Definition handleKeyDown_delete (state : AppState) : list AppAction :=
  (DELETE_VERTEX <$> elements (selectedVertexIds state))
  ++ (DELETE_SHAPE <$> elements (selectedShapeIds state)).

(** ** hooks/useVertexOperations: [mergeSelectedVertices] *)


(** A handler's dispatches, each with the environment of its reducer call. *)
Definition dispatches (acts : list AppAction) (tagged : list (Env * AppAction)) : Prop :=
  tagged.*2 = acts.

(** [line_state] with both vertices selected, and with its line selected. *)
Definition both_selected : AppState := set_selectedVertexIds {["a"; "b"]} line_state.

Definition line_selected : AppState := set_selectedShapeIds {["L"]} line_state.

(** Three pending polygon corners. *)
Definition triangle : list Vertex :=
  [mkVertex "p" 0 0 anchor None; mkVertex "q" 10 0 anchor None;
   mkVertex "r" 0 10 anchor None].

(** The [tool === "circle"] branch of [handleMouseUp] while drawing;
    [radius] is the value of the [Math.sqrt] expression (the distance from
    the centre to the release point). *)
Definition handleMouseUp_circle (newId : string) (state : AppState)
    (currentStyle : Style) (tempVertices : list Vertex) (radius : Q)
    : list AppAction * list Vertex :=
  match tempVertices with
  | [centre] =>
      (add_if_new state centre
       ++ [ADD_SHAPE (mkShape newId (circle radius) [v_id centre]
                              currentStyle true false None)],
       [])
  | _ => ([], tempVertices)
  end.

(** What one of the five shape tools dispatches when it completes a
    shape. *)
Inductive tool_dispatch (state : AppState) : list AppAction → Prop :=
  | dispatch_line newId currentStyle tempVertices newVertex :
      tool_dispatch state
        (handleMouseDown_line newId state currentStyle tempVertices newVertex).1
  | dispatch_rect newId currentStyle tempVertices topRight bottomRight bottomLeft :
      tool_dispatch state
        (handleMouseUp_rect newId state currentStyle tempVertices
                            topRight bottomRight bottomLeft).1
  | dispatch_circle newId currentStyle tempVertices radius :
      tool_dispatch state
        (handleMouseUp_circle newId state currentStyle tempVertices radius).1
  | dispatch_polygon newId tool currentStyle tempVertices :
      tool_dispatch state
        (handleContextMenu newId state tool currentStyle tempVertices).1
  | dispatch_bezier gen currentStyle tempVertices button newVertex :
      tool_dispatch state
        (handleMouseDown_bezier gen state currentStyle tempVertices button newVertex).1.

(** * Playback (hooks/useAnimationPlayback.ts) *)

(** The refs of the hook: [lastTimeRef], [playbackProgressRef] and
    [currentFramePairRef]. *)
Record PlaybackRefs := mkRefs {
  lastTime : Q;
  playbackProgress : Q;
  pair_from : Z;
  pair_to : Z;
}.

(** What one call of [animate] leaves behind: the refs, the dispatched
    actions, [isPlaying] (set to [false] when the loop wraps around), and
    whether the next animation frame was requested. *)
Record Tick := mkTick {
  tick_refs : PlaybackRefs;
  tick_dispatched : list AppAction;
  tick_isPlaying : bool;
  tick_requested : bool;
}.

(** [animate(timestamp)].  The remainder [%] is taken on numbers that are
    not negative. *)
Definition animate (isPlaying : bool) (playbackSpeed : Q) (state : AppState)
    (refs : PlaybackRefs) (timestamp : Q) : Tick :=
  let n := Z.of_nat (length (frames state)) in
  if negb isPlaying || (length (frames state) <? 2)%nat
  then mkTick refs [] isPlaying false
  else
    let last := if Qeq_bool (lastTime refs) 0 then timestamp else lastTime refs in
    let deltaTime := (timestamp - last)%Q in
    let progress := (playbackProgress refs + deltaTime / 2000 * playbackSpeed)%Q in
    if Qle_bool 1 progress
    then
      let nextFromIndex := Z.rem (pair_to refs) n in
      let nextToIndex := Z.rem (nextFromIndex + 1) n in
      let refs' := mkRefs timestamp 0 nextFromIndex nextToIndex in
      if (nextFromIndex =? 0)%Z
      then mkTick refs' [SET_CURRENT_FRAME nextFromIndex] false false
      else mkTick refs'
                  [SET_CURRENT_FRAME nextFromIndex;
                   INTERPOLATE_FRAMES nextFromIndex nextToIndex 0]
                  isPlaying true
    else
      mkTick (mkRefs timestamp progress (pair_from refs) (pair_to refs))
             [INTERPOLATE_FRAMES (pair_from refs) (pair_to refs) progress]
             isPlaying true.

(** The effect that starts the playback: the refs are reset and the first
    pair starts at the current frame. *)
Definition start_playback (state : AppState) : PlaybackRefs :=
  mkRefs 0 0 (currentFrameIndex state)
         (Z.rem (currentFrameIndex state + 1) (Z.of_nat (length (frames state)))).

(** The player: the reducer's state, the refs, [isPlaying], and whether an
    animation frame is requested ([animationFrameRef]). *)
Record Player := mkPlayer {
  pl_state : AppState;
  pl_refs : PlaybackRefs;
  pl_isPlaying : bool;
  pl_requested : bool;
}.

(** The effect of the hook, with its cleanup.  It runs after a render in
    which [isPlaying], [animate], [state.frames.length] or
    [state.currentFrameIndex] has changed: the cleanup cancels the frame
    that is requested; then, when playing with two frames or more, the refs
    are reset, the first pair starts at the current frame and a frame is
    requested; otherwise none is. *)
Definition start_effect (isPlaying : bool) (state : AppState) (refs : PlaybackRefs)
    : Player :=
  if isPlaying && (2 <=? length (frames state))%nat
  then mkPlayer state (start_playback state) isPlaying true
  else mkPlayer state refs isPlaying false.

(** One animation frame and the render that follows it.  The requested
    frame calls [animate]; the reducer handles what was dispatched, in
    order; the component renders, and the effect runs again when one of its
    dependencies has changed ([animate] changes with [isPlaying] and
    [state.frames.length]; the speed is not changed during playback).
    The result is the player before the next animation frame, with the
    actions that were dispatched. *)
Definition animation_frame (env : Env) (playbackSpeed : Q) (p : Player) (timestamp : Q)
    : Player * list AppAction :=
  if pl_requested p
  then
    let tick := animate (pl_isPlaying p) playbackSpeed (pl_state p) (pl_refs p) timestamp in
    let state' := foldl (appReducer env) (pl_state p) (tick_dispatched tick) in
    let changed :=
      negb (eqb (tick_isPlaying tick) (pl_isPlaying p))
      || negb (length (frames state') =? length (frames (pl_state p)))%nat
      || negb (currentFrameIndex state' =? currentFrameIndex (pl_state p))%Z in
    (if changed
     then start_effect (tick_isPlaying tick) state' (tick_refs tick)
     else mkPlayer state' (tick_refs tick) (tick_isPlaying tick) (tick_requested tick),
     tick_dispatched tick)
  else (p, []).

(** The actions dispatched by the animation frames at the given
    timestamps. *)
Fixpoint play (env : Env) (playbackSpeed : Q) (p : Player) (timestamps : list Q)
    : list AppAction :=
  match timestamps with
  | [] => []
  | timestamp :: rest =>
      let r := animation_frame env playbackSpeed p timestamp in
      r.2 ++ play env playbackSpeed r.1 rest
  end.

(** [setIsPlaying(true)] in a state where nothing plays: the refs have
    their initial values, and the effect runs. *)
Definition press_play (state : AppState) : Player :=
  start_effect true state (mkRefs 0 0 0 1).

(** A playback action that names existing frames, with a parameter in
    [0, 1). *)
Definition names_frames (n : Z) (a : AppAction) : Prop :=
  match a with
  | SET_CURRENT_FRAME i => (0 ≤ i < n)%Z
  | INTERPOLATE_FRAMES i j t =>
      (0 ≤ i < n)%Z ∧ (0 ≤ j < n)%Z ∧ (0 <= t ∧ t < 1)%Q
  | _ => False
  end.

(** Timestamps that do not go back, starting from [t0]. *)
Fixpoint ascending (t0 : Q) (timestamps : list Q) : Prop :=
  match timestamps with
  | [] => True
  | t :: rest => (t0 <= t)%Q ∧ ascending t rest
  end.

(** What holds of the player between two animation frames. *)
Definition player_ok (n : nat) (t0 : Q) (p : Player) : Prop :=
  length (frames (pl_state p)) = n
  ∧ frame_index_valid (pl_state p)
  ∧ (pl_requested p = true →
     pl_isPlaying p = true
     ∧ (lastTime (pl_refs p) <= t0)%Q
     ∧ (0 ≤ pair_from (pl_refs p) < Z.of_nat n)%Z
     ∧ (0 ≤ pair_to (pl_refs p) < Z.of_nat n)%Z
     ∧ (0 <= playbackProgress (pl_refs p) ∧ playbackProgress (pl_refs p) < 1)%Q).

(** * The exported file

    [JSON.stringify] followed by [JSON.parse], on a document of type
    [MeshExport]: an object becomes the list of its keys, a key whose value
    is [undefined] is left out, and arrays, strings, numbers and booleans
    are kept. *)

Definition json_opt {A} (k : string) (f : A → value) (o : option A)
    : list (string * value) :=
  match o with
  | Some a => [(k, f a)]
  | None => []
  end.

Definition json_pair (p : Q * Q) : value := VArr [VNum p.1; VNum p.2].

Definition json_type (t : VertexType) : value :=
  VStr (match t with anchor => "anchor" | control => "control" end).

Definition json_vertex (v : ExportVertex) : value :=
  VObj ([("id", VStr (ev_id v)); ("position", json_pair (ev_position v));
         ("type", json_type (ev_type v))]
        ++ json_opt "parentId" VStr (ev_parentId v)).

Definition json_segment (seg : BezierSegment) : value :=
  VObj [("p0", VStr (p0 seg)); ("p1", VStr (p1 seg));
        ("p2", VStr (p2 seg)); ("p3", VStr (p3 seg))].

Definition json_properties (p : ExportProperties) : value :=
  VObj (json_opt "radius" VNum (ep_radius p)
        ++ json_opt "segments" (λ l, VArr (json_segment <$> l)) (ep_segments p)
        ++ json_opt "closed" VBool (ep_closed p)
        ++ json_opt "metadata" VStr (ep_metadata p)).

Definition json_style (st : ExportStyle) : value :=
  VObj (json_opt "color" VStr (es_color st)
        ++ json_opt "strokeWidth" VNum (es_strokeWidth st)
        ++ json_opt "fill" VStr (es_fill st)
        ++ json_opt "opacity" VNum (es_opacity st)
        ++ json_opt "visible" VBool (es_visible st)
        ++ json_opt "locked" VBool (es_locked st)).

Definition json_shape (s : ExportShape) : value :=
  VObj [("id", VStr (esh_id s)); ("type", VStr (esh_type s));
        ("vertexRefs", VArr (VStr <$> esh_vertexRefs s));
        ("properties", json_properties (esh_properties s));
        ("style", json_style (esh_style s))].

Definition json_group (g : ExportGroup) : value :=
  VObj [("id", VStr (eg_id g)); ("name", VStr (eg_name g));
        ("shapeRefs", VArr (VStr <$> eg_shapeRefs g))].

Definition json_vertexPosition (vp : string * (Q * Q)) : value :=
  VObj [("vertexId", VStr vp.1); ("position", json_pair vp.2)].

Definition json_shapeProperty (sp : string * ShapeProps) : value :=
  VObj [("shapeId", VStr sp.1);
        ("properties", VObj (json_opt "radius" VNum (sp_radius sp.2)))].

Definition json_frame (f : ExportFrame) : value :=
  VObj ([("id", VStr (ef_id f)); ("name", VStr (ef_name f));
         ("timestamp", VNum (ef_timestamp f));
         ("vertexPositions", VArr (json_vertexPosition <$> ef_vertexPositions f))]
        ++ json_opt "shapeProperties" (λ l, VArr (json_shapeProperty <$> l))
                    (ef_shapeProperties f)).

Definition json_coordinateSystem (cs : CoordinateSystem) : value :=
  VObj (json_opt "unit" VStr (cs_unit cs) ++ json_opt "gridSize" VNum (cs_gridSize cs)).

Definition json_boundingBox (bb : BoundingBoxInfo) : value :=
  VObj [("width", VNum (bb_width bb)); ("height", VNum (bb_height bb));
        ("originalOrigin", VObj [("x", VNum (bb_originalOrigin bb).1);
                                 ("y", VNum (bb_originalOrigin bb).2)])].

Definition json_metadata (md : ExportMetadata) : value :=
  VObj (json_opt "coordinateSystem" json_coordinateSystem (em_coordinateSystem md)
        ++ json_opt "boundingBox" json_boundingBox (em_boundingBox md)).

Definition to_json (e : MeshExport) : value :=
  VObj ([("version", VStr (me_version e)); ("timestamp", VStr (me_timestamp e));
         ("vertices", VArr (json_vertex <$> me_vertices e));
         ("shapes", VArr (json_shape <$> me_shapes e));
         ("groups", VArr (json_group <$> me_groups e))]
        ++ json_opt "frames" (λ l, VArr (json_frame <$> l)) (me_frames e)
        ++ json_opt "metadata" json_metadata (me_metadata e)).

(** The document without the bounding-box block of its metadata, which the
    import never reads. *)
Definition without_boundingBox (e : MeshExport) : MeshExport :=
  mkME (me_version e) (me_timestamp e) (me_vertices e) (me_shapes e) (me_groups e)
       (me_frames e)
       (option_map (λ md, mkEM None (em_coordinateSystem md)) (me_metadata e)).

(** What the validation looks at in a document of the declared type: the
    ids of vertices and shapes, the types of shapes, and the ids and names of
    frames must not be empty. *)
Definition named (e : MeshExport) : bool :=
  forallb (λ v, negb (bool_decide (ev_id v = ""))) (me_vertices e)
  && forallb (λ s, negb (bool_decide (esh_id s = ""))
                   && negb (bool_decide (esh_type s = ""))) (me_shapes e)
  && forallb (λ f, negb (bool_decide (ef_id f = ""))
                   && negb (bool_decide (ef_name f = "")))
             (default [] (me_frames e)).

(** The ids and names stored in a document are not empty. *)
Definition ids_not_empty (state : AppState) : Prop :=
  (∀ k v, vertices state !! k = Some v → v_id v ≠ "")
  ∧ (∀ k s, shapes state !! k = Some s → s_id s ≠ "")
  ∧ Forall (λ f, f_id f ≠ "" ∧ f_name f ≠ "") (frames state).

(** ** Validation of the optional frames *)

(** A frame entry without an id, without a name, or without a
    [vertexPositions] array. *)
Definition frame_malformed (f : value) : Prop :=
  truthy (field f "id") = false
  ∨ truthy (field f "name") = false
  ∨ isArray (field f "vertexPositions") = false.

(** The document has a [frames] property that is truthy and is not an array
    of well-formed frames. *)
Definition frames_malformed (data : value) : Prop :=
  truthy (field data "frames") = true
  ∧ (isArray (field data "frames") = false
     ∨ ∃ f, f ∈ items_of (field data "frames") ∧ frame_malformed f).

(** A document whose only frame has no name. *)
Definition unnamed_frame_document : value :=
  VObj (("version", VStr "2.1.0") :: empty_arrays
        ++ [("frames", VArr [VObj [("id", VStr "f1"); ("vertexPositions", VArr [])]])]).

(** The actions that write the groups. *)
Definition writes_groups (a : AppAction) : bool :=
  match a with
  | CREATE_GROUP _ _ | DELETE_GROUP _ | IMPORT_DATA _ _ _ _ | CLEAR_ALL => true
  | _ => false
  end.

(** [line_state] with its line in a group. *)
Definition grouped_line : AppState :=
  set_groups {["G" := mkGroup "G" "Group" ["L"] false]} line_state.

(** ** Double precision: the rounding error and its monotonicity *)

Section Doubles.
Local Open Scope Q_scope.

Lemma pow2_pos k : 0 < pow2 k.
Proof. apply Qpower_0_lt. reflexivity. Qed.

Lemma pow2_add a b : pow2 (a + b) == pow2 a * pow2 b.
Proof. apply Qpower_plus. discriminate. Qed.

Lemma pow2_le a b : (a <= b)%Z -> pow2 a <= pow2 b.
Proof. intros H. apply Qpower_le_compat_l; [exact H|discriminate]. Qed.

Lemma pow2_lt a b : (a < b)%Z -> pow2 a < pow2 b.
Proof. intros H. apply Qpower_lt_compat_l; [exact H|reflexivity]. Qed.

Lemma pow2_Z k : (0 <= k)%Z -> pow2 k == inject_Z (2 ^ k).
Proof. intros H. unfold pow2. rewrite Zpower_Qpower by exact H. reflexivity. Qed.

Lemma pow2_succ k : pow2 (k + 1) == 2 * pow2 k.
Proof. rewrite pow2_add. change (pow2 1) with 2. ring. Qed.

Lemma ilog2_spec q : 0 < q -> pow2 (ilog2 q) <= q /\ q < pow2 (ilog2 q + 1).
Proof.
  intros Hq. destruct q as [n d].
  assert (Hn : (0 < n)%Z).
  { unfold Qlt in Hq. cbn in Hq. lia. }
  set (a := Z.log2 n). set (b := Z.log2 (Zpos d)).
  destruct (Z.log2_spec n Hn) as [Ha1 Ha2]. fold a in Ha1, Ha2.
  destruct (Z.log2_spec (Zpos d) ltac:(lia)) as [Hb1 Hb2]. fold b in Hb1, Hb2.
  assert (Ha0 : (0 <= a)%Z) by apply Z.log2_nonneg.
  assert (Hb0 : (0 <= b)%Z) by apply Z.log2_nonneg.
  rewrite Zle_Qle, <- pow2_Z in Ha1, Hb1 by assumption.
  rewrite Zlt_Qlt, <- pow2_Z in Ha2, Hb2 by lia.
  change (Z.succ a) with (a + 1)%Z in Ha2. change (Z.succ b) with (b + 1)%Z in Hb2.
  set (N := inject_Z n) in *. set (D := inject_Z (Zpos d)) in *.
  assert (HD : 0 < D) by (pose proof (pow2_pos b); lra).
  assert (E : n # d == N / D) by apply Qmake_Qdiv.
  assert (Hlow : pow2 (a - b - 1) < N / D).
  { apply Qlt_shift_div_l; [exact HD|].
    apply (Qlt_le_trans _ (pow2 (a - b - 1) * pow2 (b + 1))).
    - apply Qmult_lt_l; [apply pow2_pos|exact Hb2].
    - rewrite <- pow2_add. replace (a - b - 1 + (b + 1))%Z with a by lia. exact Ha1. }
  assert (Hup : N / D < pow2 (a - b + 1)).
  { apply Qlt_shift_div_r; [exact HD|].
    apply (Qlt_le_trans _ (pow2 (a + 1))); [exact Ha2|].
    replace (a + 1)%Z with (a - b + 1 + b)%Z by lia. rewrite pow2_add.
    apply Qmult_le_l; [apply pow2_pos|exact Hb1]. }
  unfold ilog2. cbn [Qnum Qden]. fold a b.
  destruct (Qle_bool (pow2 (a - b)) (n # d)) eqn:Ht.
  - apply Qle_bool_iff in Ht. split; [exact Ht|]. rewrite E. exact Hup.
  - assert (Hlt : n # d < pow2 (a - b)).
    { apply Qnot_le_lt. intros H. apply Qle_bool_iff in H. congruence. }
    replace (a - b - 1 + 1)%Z with (a - b)%Z by lia.
    split; [|exact Hlt]. rewrite E. apply Qlt_le_weak, Hlow.
Qed.

Lemma ilog2_mono q q' : 0 < q -> q <= q' -> (ilog2 q <= ilog2 q')%Z.
Proof.
  intros Hq Hle.
  destruct (ilog2_spec q Hq) as [H1 _].
  destruct (ilog2_spec q' ltac:(lra)) as [_ H2].
  destruct (Z_le_gt_dec (ilog2 q) (ilog2 q')) as [H|H]; [exact H|exfalso].
  assert (pow2 (ilog2 q' + 1) <= pow2 (ilog2 q)) by (apply pow2_le; lia).
  lra.
Qed.

Lemma rne_floor q : (Qfloor q <= rne q <= Qfloor q + 1)%Z.
Proof.
  unfold rne. destruct (Qcompare _ _); [destruct (Z.even _)| |]; lia.
Qed.

Lemma rne_near q : inject_Z (rne q) - q <= 1 # 2 /\ q - inject_Z (rne q) <= 1 # 2.
Proof.
  pose proof (Qfloor_le q) as Hle. pose proof (Qlt_floor q) as Hlt.
  rewrite inject_Z_plus in Hlt. change (inject_Z 1) with 1 in Hlt.
  unfold rne. destruct (Qcompare (q - inject_Z (Qfloor q)) (1 # 2)) eqn:Hc.
  - apply Qeq_alt in Hc. destruct (Z.even (Qfloor q)).
    + split; lra.
    + rewrite inject_Z_plus. change (inject_Z 1) with 1. split; lra.
  - apply Qlt_alt in Hc. split; lra.
  - apply Qgt_alt in Hc. rewrite inject_Z_plus. change (inject_Z 1) with 1. split; lra.
Qed.

Lemma rne_mono q q' : q <= q' -> (rne q <= rne q')%Z.
Proof.
  intros Hle. pose proof (Qfloor_resp_le _ _ Hle) as Hf.
  destruct (Z.eq_dec (Qfloor q) (Qfloor q')) as [E|Hne].
  - unfold rne. rewrite <- E.
    destruct (Qcompare (q - inject_Z (Qfloor q)) (1 # 2)) eqn:Hc;
      destruct (Qcompare (q' - inject_Z (Qfloor q)) (1 # 2)) eqn:Hc';
      first [apply Qeq_alt in Hc | apply Qlt_alt in Hc | apply Qgt_alt in Hc];
      first [apply Qeq_alt in Hc' | apply Qlt_alt in Hc' | apply Qgt_alt in Hc'];
      try destruct (Z.even (Qfloor q)); try lia; exfalso; lra.
  - pose proof (rne_floor q). pose proof (rne_floor q'). lia.
Qed.

Lemma rne_Z k : rne (inject_Z k) = k.
Proof.
  unfold rne. rewrite Qfloor_Z.
  destruct (Qcompare (inject_Z k - inject_Z k) (1 # 2)) eqn:Hc; [|reflexivity|].
  - apply Qeq_alt in Hc. exfalso. revert Hc. generalize (inject_Z k). intros x Hc. lra.
  - apply Qgt_alt in Hc. exfalso. revert Hc. generalize (inject_Z k). intros x Hc. lra.
Qed.

Lemma fl64_pos_eq q : fl64_pos q == inject_Z (rne (q / pow2 (expo q))) * pow2 (expo q).
Proof. apply Qred_correct. Qed.

Lemma scaled_back q e : q / pow2 e * pow2 e == q.
Proof. field. pose proof (pow2_pos e). lra. Qed.

Lemma fl64_pos_near q :
  0 < q ->
  q - (unit_roundoff * q + eta_min) <= fl64_pos q
  /\ fl64_pos q <= q + (unit_roundoff * q + eta_min).
Proof.
  intros Hq. rewrite fl64_pos_eq. set (e := expo q).
  pose proof (pow2_pos e) as He.
  destruct (rne_near (q / pow2 e)) as [Hup Hdown].
  set (m := inject_Z (rne (q / pow2 e))) in *.
  assert (Hq' : q == q / pow2 e * pow2 e) by (symmetry; apply scaled_back).
  set (s := q / pow2 e) in *.
  assert (Hhalf : pow2 (e - 1) * 2 == pow2 e).
  { replace e with (e - 1 + 1)%Z at 2 by lia. rewrite pow2_succ. ring. }
  assert (Hbound : pow2 (e - 1) <= unit_roundoff * q + eta_min).
  { pose proof (pow2_pos (-53)). pose proof (pow2_pos (-1075)).
    unfold unit_roundoff, eta_min.
    destruct (ilog2_spec q Hq) as [Hl _]. unfold e, expo.
    destruct (Z.max_spec (ilog2 q - 52) (-1074)) as [[_ ->]|[_ ->]].
    - change (-1074 - 1)%Z with (-1075)%Z.
      assert (0 <= pow2 (-53) * q) by (apply Qmult_le_0_compat; lra). lra.
    - replace (ilog2 q - 52 - 1)%Z with (-53 + ilog2 q)%Z by lia. rewrite pow2_add.
      assert (pow2 (-53) * pow2 (ilog2 q) <= pow2 (-53) * q)
        by (apply Qmult_le_l; assumption).
      lra. }
  assert (H1 : (m - s) * pow2 e <= (1 # 2) * pow2 e) by (apply Qmult_le_compat_r; lra).
  assert (H2 : (s - m) * pow2 e <= (1 # 2) * pow2 e) by (apply Qmult_le_compat_r; lra).
  assert (E1 : (m - s) * pow2 e == m * pow2 e - s * pow2 e) by ring.
  assert (E2 : (s - m) * pow2 e == s * pow2 e - m * pow2 e) by ring.
  rewrite E1 in H1. rewrite E2 in H2. rewrite <- Hq' in H1, H2.
  assert (E3 : (1 # 2) * pow2 e == pow2 (e - 1)) by (rewrite <- Hhalf; ring).
  rewrite E3 in H1, H2. split; lra.
Qed.

Lemma fl64_pos_nonneg q : 0 < q -> 0 <= fl64_pos q.
Proof.
  intros Hq. rewrite fl64_pos_eq. pose proof (pow2_pos (expo q)) as He.
  apply Qmult_le_0_compat; [|lra].
  change 0 with (inject_Z 0). rewrite <- Zle_Qle.
  rewrite <- (rne_Z 0). apply rne_mono. change (inject_Z 0) with 0.
  apply Qle_shift_div_l; [exact He|]. lra.
Qed.

Lemma fl64_pos_mono q q' : 0 < q -> q <= q' -> fl64_pos q <= fl64_pos q'.
Proof.
  intros Hq Hle. assert (Hq' : 0 < q') by lra.
  rewrite !fl64_pos_eq.
  pose proof (ilog2_mono q q' Hq Hle) as Hi.
  assert (He : (expo q <= expo q')%Z) by (unfold expo; lia).
  pose proof (pow2_pos (expo q)) as Hp. pose proof (pow2_pos (expo q')) as Hp'.
  destruct (Z.eq_dec (expo q) (expo q')) as [E|Hne].
  - rewrite <- E. apply Qmult_le_compat_r; [|lra].
    rewrite <- Zle_Qle. apply rne_mono.
    unfold Qdiv. apply Qmult_le_compat_r; [exact Hle|].
    apply Qinv_le_0_compat. lra.
  - assert (Hlt : (expo q < expo q')%Z) by lia.
    apply (Qle_trans _ (pow2 (expo q + 53))).
    + rewrite Z.add_comm, pow2_add. apply Qmult_le_compat_r; [|lra].
      rewrite (pow2_Z 53) by lia. rewrite <- Zle_Qle.
      rewrite <- (rne_Z (2 ^ 53)). apply rne_mono.
      rewrite <- (pow2_Z 53) by lia.
      apply Qle_shift_div_r; [exact Hp|]. rewrite <- pow2_add.
      destruct (ilog2_spec q Hq) as [_ Hu].
      apply (Qle_trans _ (pow2 (ilog2 q + 1))); [lra|].
      apply pow2_le. unfold expo. lia.
    + apply (Qle_trans _ (pow2 (52 + expo q'))); [apply pow2_le; lia|].
      rewrite pow2_add. apply Qmult_le_compat_r; [|lra].
      rewrite (pow2_Z 52) by lia. rewrite <- Zle_Qle.
      rewrite <- (rne_Z (2 ^ 52)). apply rne_mono.
      rewrite <- (pow2_Z 52) by lia.
      apply Qle_shift_div_l; [exact Hp'|]. rewrite <- pow2_add.
      destruct (ilog2_spec q' Hq') as [Hl _].
      apply (Qle_trans _ (pow2 (ilog2 q'))); [|exact Hl].
      apply pow2_le. unfold expo in *. lia.
Qed.

Lemma fl64_cases q :
  (q == 0 /\ fl64 q = 0)
  \/ (0 < q /\ fl64 q = fl64_pos q)
  \/ (q < 0 /\ fl64 q = - fl64_pos (- q)).
Proof.
  unfold fl64. destruct (Qcompare q 0) eqn:Hc.
  - left. split; [apply Qeq_alt, Hc|reflexivity].
  - right. right. split; [apply Qlt_alt, Hc|reflexivity].
  - right. left. split; [apply Qgt_alt, Hc|reflexivity].
Qed.

(** The result is within half a unit in the last place: a relative error
    of at most 2^-53, or an absolute error of 2^-1075 among the subnormal
    numbers. *)
Lemma fl64_near q :
  q - (unit_roundoff * Qabs q + eta_min) <= fl64 q
  /\ fl64 q <= q + (unit_roundoff * Qabs q + eta_min).
Proof.
  pose proof (pow2_pos (-1075)) as Heta. fold eta_min in Heta.
  destruct (fl64_cases q) as [[Hq ->]|[[Hq ->]|[Hq ->]]].
  - rewrite Hq. change (Qabs 0) with 0. split; lra.
  - rewrite (Qabs_pos q) by lra. apply fl64_pos_near, Hq.
  - rewrite (Qabs_neg q) by lra.
    destruct (fl64_pos_near (- q) ltac:(lra)) as [H1 H2]. split; lra.
Qed.

Lemma fl64_mono q q' : q <= q' -> fl64 q <= fl64 q'.
Proof.
  intros Hle.
  destruct (fl64_cases q) as [[Hq ->]|[[Hq ->]|[Hq ->]]];
    destruct (fl64_cases q') as [[Hq' ->]|[[Hq' ->]|[Hq' ->]]]; try (exfalso; lra).
  - lra.
  - apply fl64_pos_nonneg, Hq'.
  - apply fl64_pos_mono; assumption.
  - pose proof (fl64_pos_nonneg (- q) ltac:(lra)). lra.
  - pose proof (fl64_pos_nonneg (- q) ltac:(lra)).
    pose proof (fl64_pos_nonneg q' Hq'). lra.
  - pose proof (fl64_pos_mono (- q') (- q) ltac:(lra) ltac:(lra)). lra.
Qed.

Lemma fl64_nonneg q : 0 <= q -> 0 <= fl64 q.
Proof. intros H. change 0 with (fl64 0) at 1. apply fl64_mono, H. Qed.

End Doubles.

(** * Properties *)

(** ** History (saveHistory, UNDO, REDO) *)


Lemma slice_last_length {A} (n : nat) (l : list A) :
  length (slice_last n l) = Nat.min n (length l).
Proof. unfold slice_last. rewrite length_drop. lia. Qed.

Lemma slice_last_short {A} (n : nat) (l : list A) :
  (length l ≤ n)%nat → slice_last n l = l.
Proof.
  intros H. unfold slice_last.
  replace (length l - n)%nat with 0%nat by lia. reflexivity.
Qed.

Lemma slice_last_snoc {A} (n : nat) (l : list A) x :
  slice_last (S n) (slice_last (S n) l ++ [x]) = slice_last (S n) (l ++ [x]).
Proof.
  unfold slice_last.
  rewrite !length_app, length_drop. simpl.
  destruct (decide (length l ≤ S n)%nat) as [Hle|Hgt].
  - replace (length l - S n)%nat with 0%nat by lia. simpl.
    rewrite Nat.sub_0_r. reflexivity.
  - rewrite drop_app_le by (rewrite length_drop; lia).
    rewrite drop_drop.
    rewrite (drop_app_le l) by lia.
    f_equal. f_equal. lia.
Qed.

Lemma run_snoc s acts ea : run s (acts ++ [ea]) = appReducer ea.1 (run s acts) ea.2.
Proof. unfold run. rewrite foldl_app. reflexivity. Qed.

Lemma structural_history env s a :
  structural a = true → history (appReducer env s a) = saveHistory s.
Proof.
  destruct a; intros H; try discriminate H; cbn -[Nat.leb Nat.ltb] in *;
    try reflexivity.
  - destruct (shapes s !! id) as [[? [] ? ? ? ? ?]|]; reflexivity.
  - apply Nat.leb_le in H.
    destruct (Nat.ltb_spec (length vertexIds0) 2) as [Hlt|Hge]; [lia|reflexivity].
Qed.

Lemma states_before_snoc acts ea :
  states_before (acts ++ [ea]) = states_before acts ++ [run initialState acts].
Proof.
  unfold states_before. rewrite length_app. simpl.
  rewrite Nat.add_1_r, seq_S, fmap_app. simpl. f_equal.
  - apply list_fmap_ext. intros i n Hn.
    apply lookup_seq in Hn as [-> Hlt]. simpl.
    rewrite take_app_le by lia. reflexivity.
  - rewrite take_app_length. reflexivity.
Qed.

(** After structural edits only, [past] holds the last 50 of the states the
    session went through, oldest first, and [future] is empty. *)
Lemma structural_run_history acts :
  Forall (λ ea, structural ea.2 = true) acts →
  history (run initialState acts)
  = mkHistory (slice_last 50 (snapshot_of <$> states_before acts)) [].
Proof.
  induction acts as [|ea acts IH] using rev_ind; intros Hall.
  - reflexivity.
  - apply Forall_app in Hall as [Hacts Hea].
    rewrite Forall_singleton in Hea.
    rewrite run_snoc, (structural_history _ _ _ Hea).
    unfold saveHistory. rewrite (IH Hacts). simpl.
    rewrite states_before_snoc, fmap_app. simpl.
    f_equal. apply (slice_last_snoc 49).
Qed.

(** UNDO pops the newest snapshot. *)
Lemma undo_step env s p x :
  past (history s) = p ++ [x] →
  let s' := appReducer env s UNDO in
  vertices s' = snap_vertices x ∧ shapes s' = snap_shapes x
  ∧ past (history s') = p.
Proof.
  intros Hp. simpl. rewrite Hp, last_snoc. simpl.
  rewrite removelast_last. auto.
Qed.

Lemma undo_empty env s : past (history s) = [] → appReducer env s UNDO = s.
Proof. intros Hp. simpl. rewrite Hp. reflexivity. Qed.

(** As many UNDOs as there are snapshots in [l] bring back the oldest of
    them. *)
Lemma undo_many undos : ∀ s p x l,
  Forall (λ ea, ea.2 = UNDO) undos →
  length undos = S (length l) →
  past (history s) = p ++ x :: l →
  let s' := run s undos in
  vertices s' = snap_vertices x ∧ shapes s' = snap_shapes x
  ∧ past (history s') = p.
Proof.
  induction undos as [|[env a] undos IH]; intros s p x l Hall Hlen Hp; [discriminate|].
  apply Forall_cons in Hall as [Ha Hall]. simpl in Ha. subst a.
  destruct l as [|y l _] using rev_ind.
  - destruct undos; [|discriminate].
    apply (undo_step env s p x Hp).
  - cbn [run foldl fst snd].
    change (foldl _ ?s0 undos) with (run s0 undos).
    destruct (undo_step env s (p ++ x :: l) y) as (_ & _ & Hp').
    { rewrite Hp. rewrite <- app_assoc. reflexivity. }
    apply (IH _ p x l Hall); [|exact Hp'].
    rewrite length_app in Hlen. simpl in Hlen. simpl. lia.
Qed.

Lemma saveHistory_bounded s :
  (length (past (saveHistory s)) + length (future (saveHistory s)) ≤ 50)%nat.
Proof. simpl. rewrite slice_last_length. lia. Qed.

Lemma reducer_history_bounded env s a :
  history_bounded s → history_bounded (appReducer env s a).
Proof.
  unfold history_bounded. intros Hb.
  destruct a;
    try (cbn -[saveHistory Nat.ltb];
         repeat match goal with
                | |- context [match ?o with _ => _ end] => destruct o; cbn -[saveHistory]
                end;
         solve [exact Hb | apply saveHistory_bounded | simpl; lia]).
  - (* UNDO *)
    simpl. destruct (last (past (history s))) as [x|] eqn:Hl; [|exact Hb].
    apply last_Some in Hl as [p Hp]. simpl.
    rewrite Hp in Hb |- *. rewrite removelast_last.
    rewrite length_app in Hb. simpl in Hb. lia.
  - (* REDO *)
    simpl. destruct (future (history s)) as [|next newFuture] eqn:Hf; [rewrite Hf; exact Hb|].
    simpl in *. rewrite length_app. simpl. lia.
Qed.

(** The bound holds in every state a session can reach. *)
Lemma run_history_bounded acts : history_bounded (run initialState acts).
Proof.
  induction acts as [|ea acts IH] using rev_ind.
  - unfold history_bounded. simpl. lia.
  - rewrite run_snoc. apply reducer_history_bounded, IH.
Qed.

(** ** C4: the history bound *)

(** C4.  [history.past] never holds more than 50 snapshots in any state a
    session reaches.  After 60 structural edits from the empty document it
    holds exactly 50, and 50 UNDOs then restore the vertices and shapes of
    the state after the 10th edit and exhaust [past]. *)
Theorem history_bound_and_undo :
  (∀ acts, length (past (history (run initialState acts))) ≤ 50)
  ∧ (∀ edits undos,
       length edits = 60 →
       Forall (λ ea, structural ea.2 = true) edits →
       length undos = 50 →
       Forall (λ ea, ea.2 = UNDO) undos →
       length (past (history (run initialState edits))) = 50
       ∧ vertices (run (run initialState edits) undos)
         = vertices (run initialState (take 10 edits))
       ∧ shapes (run (run initialState edits) undos)
         = shapes (run initialState (take 10 edits))
       ∧ past (history (run (run initialState edits) undos)) = []).
Proof.
  split.
  - intros acts. pose proof (run_history_bounded acts) as Hb.
    unfold history_bounded in Hb. lia.
  - intros edits undos Hlen Hstruct Hulen Hundo.
    pose proof (structural_run_history edits Hstruct) as Hh.
    set (L := snapshot_of <$> states_before edits) in *.
    assert (HL : length L = 60).
    { unfold L, states_before. rewrite !length_fmap, length_seq. exact Hlen. }
    assert (H10 : L !! 10 = Some (snapshot_of (run initialState (take 10 edits)))).
    { unfold L, states_before. rewrite !list_lookup_fmap.
      rewrite lookup_seq_lt by lia. reflexivity. }
    assert (Hpast : past (history (run initialState edits))
                    = [] ++ snapshot_of (run initialState (take 10 edits))
                         :: drop 11 L).
    { rewrite Hh. simpl. unfold slice_last. rewrite HL.
      change (60 - 50) with 10. apply drop_S, H10. }
    split.
    { rewrite Hpast. simpl. rewrite length_drop, HL. reflexivity. }
    apply (undo_many undos _ [] (snapshot_of (run initialState (take 10 edits)))
                     (drop 11 L) Hundo); [|exact Hpast].
    rewrite length_drop, HL, Hulen. reflexivity.
Qed.

Lemma history_bound_and_undo_witness :
  length (past (history (run initialState sixty_edits))) = 50
  ∧ size (vertices (run (run initialState sixty_edits) fifty_undos)) = 10.
Proof.
  destruct (proj2 history_bound_and_undo sixty_edits fifty_undos)
    as (Hp & Hv & _ & _).
  - reflexivity.
  - vm_compute. repeat constructor.
  - reflexivity.
  - vm_compute. repeat constructor.
  - split; [exact Hp|]. rewrite Hv. vm_compute. reflexivity.
Defined.

(** ** Frames (DELETE_FRAME, INTERPOLATE_FRAMES) *)

Lemma out_of_range_false {A} (l : list A) (i : Z) :
  (0 ≤ i < Z.of_nat (length l))%Z → out_of_range l i = false.
Proof.
  intros [H0 H1]. unfold out_of_range.
  apply orb_false_iff. split; [apply Z.ltb_ge|apply Z.leb_gt]; lia.
Qed.

(** C10.  DELETE_FRAME at an index in range removes that frame and sets
    [currentFrameIndex] to the minimum of its old value and the new frame
    count minus one; deleting the only frame of a document whose index was
    not negative leaves it at -1. *)
Theorem delete_frame_current_index env state i :
  (0 ≤ i < Z.of_nat (length (frames state)))%Z →
  frames (appReducer env state (DELETE_FRAME i)) = delete (Z.to_nat i) (frames state)
  ∧ currentFrameIndex (appReducer env state (DELETE_FRAME i))
    = Z.min (currentFrameIndex state)
            (Z.of_nat (length (frames (appReducer env state (DELETE_FRAME i)))) - 1)
  ∧ (length (frames state) = 1 →
     (0 ≤ currentFrameIndex state)%Z →
     currentFrameIndex (appReducer env state (DELETE_FRAME i)) = (-1)%Z).
Proof.
  intros Hi. simpl. rewrite (out_of_range_false _ _ Hi). simpl.
  split; [reflexivity|]. split; [reflexivity|].
  intros Hone Hcur.
  destruct (frames state) as [|f [|f' fs]]; try discriminate.
  simpl in Hi. replace i with 0%Z by lia. simpl. lia.
Qed.

Lemma delete_frame_current_index_witness :
  (0 ≤ currentFrameIndex one_frame_state)%Z
  ∧ currentFrameIndex (appReducer (mkEnv "" 0) one_frame_state (DELETE_FRAME 0)) = (-1)%Z.
Proof.
  split; [vm_compute; discriminate|].
  apply (delete_frame_current_index (mkEnv "" 0) one_frame_state 0).
  - vm_compute. split; [discriminate|reflexivity].
  - reflexivity.
  - vm_compute. discriminate.
Defined.

(** So [0 ≤ currentFrameIndex] is not an invariant of the reducer. *)
Lemma currentFrameIndex_nonneg_not_preserved :
  ∃ env state action,
    (0 ≤ currentFrameIndex state)%Z
    ∧ (currentFrameIndex (appReducer env state action) < 0)%Z.
Proof.
  exists (mkEnv "" 0), one_frame_state, (DELETE_FRAME 0).
  split; vm_compute; [discriminate|reflexivity].
Qed.



Lemma Math_min_spec a b :
  ((a <= b ∧ Math_min a b = a) ∨ (b < a ∧ Math_min a b = b))%Q.
Proof.
  unfold Math_min. destruct (Qle_bool a b) eqn:E.
  - left. split; [apply Qle_bool_iff, E|reflexivity].
  - right. split; [|reflexivity].
    apply Qnot_le_lt. intros H. apply Qle_bool_iff in H. congruence.
Qed.

Lemma Math_max_spec a b :
  ((a <= b ∧ Math_max a b = b) ∨ (b < a ∧ Math_max a b = a))%Q.
Proof.
  unfold Math_max. destruct (Qle_bool a b) eqn:E.
  - left. split; [apply Qle_bool_iff, E|reflexivity].
  - right. split; [|reflexivity].
    apply Qnot_le_lt. intros H. apply Qle_bool_iff in H. congruence.
Qed.









(** ** Deleting a shape (DELETE_SHAPE) *)

Lemma includes_true ids v : includes ids v = true ↔ v ∈ ids.
Proof. unfold includes. apply bool_decide_eq_true. Qed.

Lemma includes_false ids v : includes ids v = false ↔ v ∉ ids.
Proof. unfold includes. apply bool_decide_eq_false. Qed.

Lemma isUsedElsewhere_spec sh self v :
  isUsedElsewhere sh self v = true ↔ referenced_elsewhere sh self v.
Proof.
  unfold isUsedElsewhere, referenced_elsewhere. rewrite existsb_exists. split.
  - intros [[k s] [Hin Hb]]. apply list_elem_of_In, elem_of_map_to_list in Hin.
    apply andb_true_iff in Hb as [Hk Hv]. simpl in *.
    apply negb_true_iff, bool_decide_eq_false in Hk.
    apply includes_true in Hv. eauto.
  - intros (k & s & Hk & Hs & Hv). exists (k, s). split.
    + apply list_elem_of_In, elem_of_map_to_list, Hs.
    + simpl. apply andb_true_iff. split.
      * apply negb_true_iff, bool_decide_eq_false, Hk.
      * apply includes_true, Hv.
Qed.

Lemma delete_orphans_cons sh self c cs vs :
  delete_orphans sh self (c :: cs) vs
  = delete_orphans sh self cs
      (if isUsedElsewhere sh self c then vs else delete c vs).
Proof. reflexivity. Qed.

Lemma delete_orphans_removed sh self check : ∀ vs v,
  v ∈ check → isUsedElsewhere sh self v = false →
  delete_orphans sh self check vs !! v = None.
Proof.
  induction check as [|c cs IH]; intros vs v Hin Hunused.
  - inversion Hin.
  - rewrite delete_orphans_cons.
    destruct (decide (v ∈ cs)) as [Hcs|Hcs]; [apply IH; assumption|].
    apply elem_of_cons in Hin as [->|?]; [|contradiction].
    rewrite Hunused.
    assert (Hgen : ∀ vs', vs' !! c = None → delete_orphans sh self cs vs' !! c = None).
    { clear. induction cs as [|d ds IHd]; intros vs' Hn; [exact Hn|].
      rewrite delete_orphans_cons.
      apply IHd. destruct (isUsedElsewhere sh self d); [exact Hn|].
      rewrite lookup_delete_None. auto. }
    apply Hgen, lookup_delete_eq.
Qed.

Lemma delete_orphans_kept sh self check : ∀ vs v,
  v ∉ check ∨ isUsedElsewhere sh self v = true →
  delete_orphans sh self check vs !! v = vs !! v.
Proof.
  induction check as [|c cs IH]; intros vs v Hkeep; [reflexivity|].
  rewrite delete_orphans_cons.
  rewrite IH.
  - destruct (isUsedElsewhere sh self c) eqn:Hc; [reflexivity|].
    apply lookup_delete_ne. intros ->.
    destruct Hkeep as [Hn|Hu]; [|congruence].
    apply Hn. left.
  - destruct Hkeep as [Hn|Hu]; [left|right; exact Hu].
    intros Hin. apply Hn. right. exact Hin.
Qed.

Lemma vertexIdsToCheck_spec segs v :
  v ∈ vertexIdsToCheck segs ↔ control_point_of segs v.
Proof.
  unfold vertexIdsToCheck, control_point_of.
  rewrite list_elem_of_In, in_flat_map. split.
  - intros [seg [Hseg Hv]]. exists seg. split; [apply list_elem_of_In, Hseg|].
    simpl in Hv. destruct Hv as [<-|[<-|[]]]; auto.
  - intros [seg [Hseg Hv]]. exists seg. split; [apply list_elem_of_In, Hseg|].
    simpl. destruct Hv as [-> | ->]; auto.
Qed.

(** C7, as the code has it.  Deleting a Bezier shape removes the shape,
    drops its id from the shape selection, and deletes exactly the vertices
    that are a control point ([p1] or [p2]) of one of its segments and that
    no other shape lists; every other vertex, the segment end points [p0]
    and [p3] included unless they are themselves such a control point, is
    kept. *)
Theorem delete_bezier_cascade env state id shape segs cl :
  shapes state !! id = Some shape →
  s_kind shape = bezier segs cl →
  shapes (appReducer env state (DELETE_SHAPE id)) = delete id (shapes state)
  ∧ selectedShapeIds (appReducer env state (DELETE_SHAPE id))
    = selectedShapeIds state ∖ {[id]}
  ∧ (∀ v, control_point_of segs v →
          ¬ referenced_elsewhere (shapes state) id v →
          vertices (appReducer env state (DELETE_SHAPE id)) !! v = None)
  ∧ (∀ v, ¬ control_point_of segs v ∨ referenced_elsewhere (shapes state) id v →
          vertices (appReducer env state (DELETE_SHAPE id)) !! v
          = vertices state !! v).
Proof.
  intros Hs Hk. simpl. rewrite Hs.
  destruct shape as [sid k ids st vis lk md]. simpl in Hk. subst k. simpl.
  split; [reflexivity|]. split; [reflexivity|]. split.
  - intros v Hc Hn. apply delete_orphans_removed.
    + apply vertexIdsToCheck_spec, Hc.
    + apply not_true_is_false. rewrite isUsedElsewhere_spec. exact Hn.
  - intros v Hkeep. apply delete_orphans_kept.
    rewrite vertexIdsToCheck_spec, isUsedElsewhere_spec. exact Hkeep.
Qed.

Lemma delete_bezier_cascade_witness :
  vertices (appReducer (mkEnv "" 0) single_curve_state (DELETE_SHAPE "B")) !! "c1" = None
  ∧ vertices (appReducer (mkEnv "" 0) single_curve_state (DELETE_SHAPE "B")) !! "a"
    = vertices single_curve_state !! "a".
Proof.
  destruct (delete_bezier_cascade (mkEnv "" 0) single_curve_state "B"
              (mkShape "B" (bezier [mkSeg "a" "c1" "c2" "b"] false)
                       ["a"; "c1"; "c2"; "b"] curve_style true false None)
              [mkSeg "a" "c1" "c2" "b"] false)
    as (_ & _ & Hgone & Hkept); [reflexivity|reflexivity|].
  split.
  - apply Hgone.
    + exists (mkSeg "a" "c1" "c2" "b"). split; [left|left; reflexivity].
    + intros (k & s & Hk & Hs & _). revert Hs.
      unfold single_curve_state, shapes.
      rewrite lookup_singleton_ne; [discriminate|congruence].
  - apply Hkept. left. intros (seg & Hseg & Hv).
    apply list_elem_of_singleton in Hseg. subst seg.
    simpl in Hv. destruct Hv; discriminate.
Defined.

(** C7 as stated fails: the curve below is the only shape, its end points
    [a] and [b] are the [p0] and [p3] of its segment and no other shape
    refers to them, yet deleting the curve keeps both; only the control
    points [c1] and [c2] go. *)
Lemma delete_bezier_keeps_end_points :
  shapes single_curve_state
  = {["B" := mkShape "B" (bezier [mkSeg "a" "c1" "c2" "b"] false)
                     ["a"; "c1"; "c2"; "b"] curve_style true false None]}
  ∧ shapes (appReducer (mkEnv "" 0) single_curve_state (DELETE_SHAPE "B")) = ∅
  ∧ vertices (appReducer (mkEnv "" 0) single_curve_state (DELETE_SHAPE "B")) !! "a"
    = Some (mkVertex "a" 0 0 anchor None)
  ∧ vertices (appReducer (mkEnv "" 0) single_curve_state (DELETE_SHAPE "B")) !! "b"
    = Some (mkVertex "b" 100 100 anchor None)
  ∧ vertices (appReducer (mkEnv "" 0) single_curve_state (DELETE_SHAPE "B")) !! "c1" = None
  ∧ vertices (appReducer (mkEnv "" 0) single_curve_state (DELETE_SHAPE "B")) !! "c2" = None.
Proof.
  split; [reflexivity|].
  split; [apply map_eq; intros k; vm_compute; reflexivity|].
  repeat split; vm_compute; reflexivity.
Qed.

(** ** Maps built by a loop of [set] *)

Section FoldInsert.
Context {A V : Type} (key : A → string) (val : A → V).

Lemma build_lookup_Some l : ∀ (m : gmap string V) k v,
  foldl (λ m a, <[key a := val a]> m) m l !! k = Some v →
  (∃ a, a ∈ l ∧ key a = k ∧ val a = v) ∨ m !! k = Some v.
Proof.
  induction l as [|x l IH]; intros m k v Hv; [right; exact Hv|].
  simpl in Hv. apply IH in Hv as [(a & Ha & Hk & Hval)|Hm].
  - left. exists a. split; [right; exact Ha|auto].
  - destruct (decide (key x = k)) as [Heq|Hne].
    + rewrite Heq, lookup_insert_eq in Hm. injection Hm as <-.
      left. exists x. split; [left|auto].
    + rewrite lookup_insert_ne in Hm by exact Hne. right. exact Hm.
Qed.

Lemma build_lookup_fresh l : ∀ (m : gmap string V) k,
  k ∉ key <$> l → foldl (λ m a, <[key a := val a]> m) m l !! k = m !! k.
Proof.
  induction l as [|x l IH]; intros m k Hk; [reflexivity|].
  simpl in *. apply not_elem_of_cons in Hk as [Hx Hl].
  rewrite IH by exact Hl. apply lookup_insert_ne. congruence.
Qed.

Lemma build_lookup_is_Some l : ∀ (m : gmap string V) a,
  a ∈ l → is_Some (foldl (λ m a, <[key a := val a]> m) m l !! key a).
Proof.
  induction l as [|x l IH]; intros m a Ha; [inversion Ha|].
  simpl. apply elem_of_cons in Ha as [->|Hl]; [|apply IH, Hl].
  destruct (decide (key x ∈ key <$> l)) as [Hk|Hk].
  - apply list_elem_of_fmap in Hk as (b & Hb & Hbl).
    rewrite Hb. apply IH, Hbl.
  - rewrite build_lookup_fresh by exact Hk.
    rewrite lookup_insert_eq. eauto.
Qed.

Lemma build_lookup_NoDup l : ∀ (m : gmap string V) a,
  NoDup (key <$> l) → a ∈ l →
  foldl (λ m a, <[key a := val a]> m) m l !! key a = Some (val a).
Proof.
  induction l as [|x l IH]; intros m a Hnd Ha; [inversion Ha|].
  simpl in *. apply NoDup_cons in Hnd as [Hx Hnd].
  apply elem_of_cons in Ha as [->|Ha].
  - rewrite build_lookup_fresh by exact Hx. apply lookup_insert_eq.
  - apply IH; assumption.
Qed.

End FoldInsert.

(** ** Import: unit conversion (parseImportData) *)

Lemma parse_vertices_sound importData gridSize k v :
  pd_vertices (parseImportData importData gridSize) !! k = Some v →
  ∃ ev, ev ∈ me_vertices importData ∧ ev_id ev = k
        ∧ v = import_vertex importData gridSize ev.
Proof.
  intros Hv. simpl in Hv.
  apply (build_lookup_Some ev_id (import_vertex importData gridSize)) in Hv
    as [(ev & Hin & Hk & Hval)|Hempty].
  - exists ev. auto.
  - rewrite lookup_empty in Hempty. discriminate.
Qed.

Lemma parse_vertices_complete importData gridSize ev :
  ev ∈ me_vertices importData →
  is_Some (pd_vertices (parseImportData importData gridSize) !! ev_id ev).
Proof.
  intros Hin. simpl.
  apply (build_lookup_is_Some ev_id (import_vertex importData gridSize)), Hin.
Qed.

Lemma parse_frame_positions_sound importData gridSize ef k p :
  f_vertices (import_frame importData gridSize ef) !! k = Some p →
  ∃ vp, vp ∈ ef_vertexPositions ef ∧ vp.1 = k
        ∧ (px p, py p) = fromGridUnits importData gridSize vp.2.1 vp.2.2.
Proof.
  intros Hp. simpl in Hp.
  apply (build_lookup_Some
           fst (λ vp, mkPos (fromGridUnits importData gridSize vp.2.1 vp.2.2).1
                            (fromGridUnits importData gridSize vp.2.1 vp.2.2).2)) in Hp
    as [(vp & Hin & Hk & Hval)|Hempty].
  - exists vp. split; [exact Hin|]. split; [exact Hk|].
    subst p. simpl. destruct (fromGridUnits _ _ _ _); reflexivity.
  - rewrite lookup_empty in Hempty. discriminate.
Qed.

(** C6, as the code has it.  Every imported vertex position and every
    imported frame position is [fromGridUnits] of the position in the
    document, and every vertex entry is imported.  [fromGridUnits] leaves a
    position as it is unless the document declares
    [coordinateSystem.unit = "grid"]; when it does, the position is
    multiplied by the declared [gridSize] if there is one and it is not
    zero, and by the session's grid size otherwise. *)
Theorem import_unit_conversion importData gridSize :
  (∀ k v, pd_vertices (parseImportData importData gridSize) !! k = Some v →
     ∃ ev, ev ∈ me_vertices importData ∧ ev_id ev = k
           ∧ (v_x v, v_y v)
             = fromGridUnits importData gridSize (ev_position ev).1 (ev_position ev).2)
  ∧ (∀ ev, ev ∈ me_vertices importData →
       is_Some (pd_vertices (parseImportData importData gridSize) !! ev_id ev))
  ∧ (∀ n ef, default [] (me_frames importData) !! n = Some ef →
       ∃ f, pd_frames (parseImportData importData gridSize) !! n = Some f
            ∧ ∀ k p, f_vertices f !! k = Some p →
                ∃ vp, vp ∈ ef_vertexPositions ef ∧ vp.1 = k
                      ∧ (px p, py p)
                        = fromGridUnits importData gridSize vp.2.1 vp.2.2)
  ∧ (∀ gx gy,
       (coordinateSystem importData = None ∨
        ∃ cs, coordinateSystem importData = Some cs ∧ cs_unit cs ≠ Some "grid") →
       fromGridUnits importData gridSize gx gy = (gx, gy))
  ∧ (∀ gx gy cs d,
       coordinateSystem importData = Some cs →
       cs_unit cs = Some "grid" →
       cs_gridSize cs = Some d → ¬ (d == 0)%Q →
       fromGridUnits importData gridSize gx gy = (gx * d, gy * d)%Q)
  ∧ (∀ gx gy cs,
       coordinateSystem importData = Some cs →
       cs_unit cs = Some "grid" →
       (cs_gridSize cs = None ∨ ∃ d, cs_gridSize cs = Some d ∧ (d == 0)%Q) →
       fromGridUnits importData gridSize gx gy = (gx * gridSize, gy * gridSize)%Q).
Proof.
  split; [|split; [|split; [|split; [|split]]]].
  - intros k v Hv.
    apply parse_vertices_sound in Hv as (ev & Hin & Hk & ->).
    exists ev. split; [exact Hin|]. split; [exact Hk|].
    unfold import_vertex. simpl. destruct (fromGridUnits _ _ _ _); reflexivity.
  - intros ev. apply parse_vertices_complete.
  - intros n ef Hn. exists (import_frame importData gridSize ef). split.
    + simpl. rewrite list_lookup_fmap, Hn. reflexivity.
    + intros k p. apply parse_frame_positions_sound.
  - intros gx gy Hcs. unfold fromGridUnits, usesGridUnits.
    destruct Hcs as [-> | (cs & -> & Hunit)]; [reflexivity|].
    rewrite bool_decide_eq_false_2 by exact Hunit. reflexivity.
  - intros gx gy cs d Hcs Hunit Hd Hnz.
    unfold fromGridUnits, usesGridUnits, importGridSize. rewrite Hcs.
    rewrite bool_decide_eq_true_2 by exact Hunit.
    destruct cs as [u g]. simpl in Hd. subst g. unfold num_or.
    destruct (Qeq_bool d 0) eqn:E; [|reflexivity].
    apply Qeq_bool_iff in E. contradiction.
  - intros gx gy cs Hcs Hunit Hd.
    unfold fromGridUnits, usesGridUnits, importGridSize. rewrite Hcs.
    rewrite bool_decide_eq_true_2 by exact Hunit.
    destruct cs as [u g]. simpl in Hd.
    destruct Hd as [-> | (d & -> & Hz)]; [reflexivity|].
    unfold num_or. apply Qeq_bool_iff in Hz. rewrite Hz. reflexivity.
Qed.

Lemma import_unit_conversion_witness :
  ∃ v, pd_vertices (parseImportData grid_document 20) !! "a" = Some v
       ∧ (v_x v, v_y v) = (5 * 10, 0 * 10)%Q.
Proof.
  destruct (import_unit_conversion grid_document 20) as (Hv & Hall & _ & _ & Hgrid & _).
  destruct (Hall (mkEV "a" (5, 0)%Q anchor None)) as [v Hlook]; [left|].
  destruct (Hv "a" v Hlook) as (ev & Hin & Hid & Hpos).
  apply list_elem_of_singleton in Hin. subst ev.
  exists v. split; [exact Hlook|].
  rewrite Hpos.
  apply (Hgrid _ _ (mkCS (Some "grid") (Some 10%Q)) 10%Q);
    [reflexivity|reflexivity|reflexivity|discriminate].
Defined.

(** C6 as stated fails: a document without coordinate-system metadata is
    imported with its positions as they are, not multiplied by the
    session's grid size (20 here). *)
Lemma plain_document_not_scaled :
  coordinateSystem plain_document = None
  ∧ me_vertices plain_document = [mkEV "a" (5, 0)%Q anchor None]
  ∧ pd_vertices (parseImportData plain_document 20) !! "a"
    = Some (mkVertex "a" 5 0 anchor None)
  ∧ ¬ (5 == 5 * 20)%Q.
Proof.
  repeat split; try reflexivity. intros H. vm_compute in H. discriminate.
Qed.

(** ** Merging vertices (MERGE_VERTICES) *)

Lemma delete_all_cons {V} k ks (m : gmap string V) :
  delete_all (k :: ks) m = delete_all ks (delete k m).
Proof. reflexivity. Qed.

Lemma delete_all_lookup_in {V} ks : ∀ (m : gmap string V) k,
  k ∈ ks → delete_all ks m !! k = None.
Proof.
  induction ks as [|c cs IH]; intros m k Hin; [inversion Hin|].
  rewrite delete_all_cons.
  destruct (decide (k ∈ cs)) as [Hcs|Hcs]; [apply IH, Hcs|].
  apply elem_of_cons in Hin as [->|?]; [|contradiction].
  clear IH Hcs. revert m. induction cs as [|d ds IHd]; intros m.
  - apply lookup_delete_eq.
  - rewrite delete_all_cons, delete_delete. apply IHd.
Qed.

Lemma delete_all_lookup_notin {V} ks : ∀ (m : gmap string V) k,
  k ∉ ks → delete_all ks m !! k = m !! k.
Proof.
  induction ks as [|c cs IH]; intros m k Hn; [reflexivity|].
  apply not_elem_of_cons in Hn as [Hc Hcs].
  rewrite delete_all_cons, IH by exact Hcs.
  apply lookup_delete_ne. congruence.
Qed.

Lemma merge_id_fixed ids newId v : v ∉ ids → merge_id ids newId v = v.
Proof. intros H. unfold merge_id. apply includes_false in H. rewrite H. reflexivity. Qed.

Lemma merge_id_not_merged ids newId v : newId ∉ ids → merge_id ids newId v ∉ ids.
Proof.
  intros Hnew. unfold merge_id. destruct (includes ids v) eqn:E; [exact Hnew|].
  apply includes_false, E.
Qed.

Lemma merge_segment_refs ids newId seg :
  seg_refs (merge_segment ids newId seg) = map (merge_id ids newId) (seg_refs seg).
Proof. reflexivity. Qed.

Lemma merge_segments_refs ids newId segs :
  flat_map seg_refs (map (merge_segment ids newId) segs)
  = map (merge_id ids newId) (flat_map seg_refs segs).
Proof.
  induction segs as [|seg segs IH]; [reflexivity|].
  cbn [map flat_map]. rewrite IH, map_app, merge_segment_refs. reflexivity.
Qed.

Lemma segment_untouched ids newId seg :
  segment_touched ids seg = false → merge_segment ids newId seg = seg.
Proof.
  unfold segment_touched. rewrite !orb_false_iff. intros [[[H0 H1] H2] H3].
  unfold merge_segment, merge_id. rewrite H0, H1, H2, H3. destruct seg; reflexivity.
Qed.

Lemma segments_untouched ids newId segs :
  existsb (segment_touched ids) segs = false →
  map (merge_segment ids newId) segs = segs
  ∧ map (merge_id ids newId) (flat_map seg_refs segs) = flat_map seg_refs segs.
Proof.
  induction segs as [|seg segs IH]; [auto|].
  cbn [existsb map flat_map]. rewrite orb_false_iff. intros [Hseg Hsegs].
  destruct (IH Hsegs) as [IH1 IH2].
  rewrite map_app, IH1, IH2, <- merge_segment_refs.
  rewrite (segment_untouched _ _ _ Hseg). auto.
Qed.

Lemma no_difference (f : string → string) (l : list string) :
  existsb (λ p, negb (bool_decide (p.1 = p.2))) (zip (map f l) l) = false →
  map f l = l.
Proof.
  induction l as [|x l IH]; [reflexivity|].
  cbn [map zip zip_with existsb]. rewrite orb_false_iff. intros [Hx Hl].
  apply negb_false_iff, bool_decide_eq_true in Hx. simpl in Hx.
  rewrite Hx, (IH Hl). reflexivity.
Qed.

(** On a shape whose vertex list agrees with its segments, the code's
    rewriting is the specified one. *)
Lemma merge_shape_rewrite ids newId s :
  bezier_wf s → merge_shape ids newId s = rewrite_refs ids newId s.
Proof.
  intros Hwf. unfold merge_shape, rewrite_refs, bezier_wf in *.
  destruct s as [sid k vids st vis lk md]. simpl in *.
  destruct k as [| |r|segs cl|cl];
    try (destruct (existsb _ (zip _ vids)) eqn:E;
         [reflexivity|rewrite (no_difference _ _ E); reflexivity]).
  subst vids. destruct (existsb (segment_touched ids) segs) eqn:E.
  - rewrite merge_segments_refs. reflexivity.
  - destruct (segments_untouched ids newId segs E) as [-> ->]. reflexivity.
Qed.

Lemma rewrite_refs_wf ids newId s : bezier_wf s → bezier_wf (rewrite_refs ids newId s).
Proof.
  unfold bezier_wf, rewrite_refs. destruct s as [sid k vids st vis lk md]. simpl.
  destruct k; try auto. intros ->. symmetry. apply merge_segments_refs.
Qed.

Lemma merge_id_decide ids newId v :
  merge_id ids newId v = if decide (v ∈ ids) then newId else v.
Proof.
  unfold merge_id, includes. destruct (decide (v ∈ ids)) as [H|H].
  - rewrite bool_decide_eq_true_2 by exact H. reflexivity.
  - rewrite bool_decide_eq_false_2 by exact H. reflexivity.
Qed.

Lemma merge_segment_decide ids newId seg :
  merge_segment ids newId seg
  = mkSeg (if decide (p0 seg ∈ ids) then newId else p0 seg)
          (if decide (p1 seg ∈ ids) then newId else p1 seg)
          (if decide (p2 seg ∈ ids) then newId else p2 seg)
          (if decide (p3 seg ∈ ids) then newId else p3 seg).
Proof. unfold merge_segment. rewrite !merge_id_decide. reflexivity. Qed.

Lemma segments_touched ids segs :
  existsb (segment_touched ids) segs = true
  ↔ ∃ seg v, seg ∈ segs ∧ v ∈ seg_refs seg ∧ v ∈ ids.
Proof.
  rewrite existsb_exists. unfold segment_touched, seg_refs. split.
  - intros (seg & Hin & Ht). exists seg.
    rewrite !orb_true_iff, !includes_true in Ht.
    destruct Ht as [[[H|H]|H]|H]; eexists;
      (split; [apply list_elem_of_In, Hin|]); (split; [|exact H]);
      rewrite !elem_of_cons; auto.
  - intros (seg & v & Hin & Hv & Hids). exists seg.
    split; [apply list_elem_of_In, Hin|].
    rewrite !orb_true_iff, !includes_true.
    rewrite !elem_of_cons in Hv.
    destruct Hv as [->|[->|[->|[->|Hv]]]]; auto. inversion Hv.
Qed.

(** What the code's rewriting of one shape keeps and what it changes. *)
Lemma merge_shape_fields ids newId s :
  s_id (merge_shape ids newId s) = s_id s
  ∧ style (merge_shape ids newId s) = style s
  ∧ visible (merge_shape ids newId s) = visible s
  ∧ locked (merge_shape ids newId s) = locked s
  ∧ metadata (merge_shape ids newId s) = metadata s.
Proof.
  unfold merge_shape. destruct s as [sid k vids st vis lk md].
  cbn [s_kind vertexIds s_id style visible locked metadata].
  destruct k as [| |r|segs cl|cl];
    try (destruct (existsb _ (zip _ vids)); cbn; auto).
  destruct (existsb (segment_touched ids) segs); cbn; auto.
Qed.

Lemma merge_shape_refs ids newId s :
  match s_kind s with
  | bezier segs cl =>
      s_kind (merge_shape ids newId s) = bezier (map (merge_segment ids newId) segs) cl
      ∧ (existsb (segment_touched ids) segs = true →
         vertexIds (merge_shape ids newId s)
         = map (merge_id ids newId) (flat_map seg_refs segs))
      ∧ (existsb (segment_touched ids) segs = false →
         vertexIds (merge_shape ids newId s) = vertexIds s)
  | other =>
      s_kind (merge_shape ids newId s) = other
      ∧ vertexIds (merge_shape ids newId s) = map (merge_id ids newId) (vertexIds s)
  end.
Proof.
  unfold merge_shape. destruct s as [sid k vids st vis lk md].
  cbn [s_kind vertexIds].
  destruct k as [| |r|segs cl|cl];
    try (destruct (existsb _ (zip _ vids)) eqn:E; cbn [s_kind vertexIds with_vertexIds];
         [split; reflexivity|split; [reflexivity|]; symmetry; apply no_difference, E]).
  destruct (existsb (segment_touched ids) segs) eqn:E; cbn [s_kind vertexIds].
  - split; [reflexivity|]. split; [|discriminate].
    intros _. apply merge_segments_refs.
  - destruct (segments_untouched ids newId segs E) as [-> _].
    split; [reflexivity|]. split; [discriminate|reflexivity].
Qed.

(** C3, as the code has it.  MERGE_VERTICES with fewer than two ids
    returns the state as it is.  With two or more (the generated id not
    being one of them) it puts one anchor vertex with the generated id at
    the target position, removes every merged id from the vertex map and
    leaves the other vertices alone, and selects exactly the new vertex.
    Every shape stays under its key with its id, style, visibility, lock
    and metadata.  In a shape that is not a Bezier curve every merged id of
    the vertex list becomes the new id.  In a Bezier curve every merged id
    in a segment field becomes the new id; its vertex list becomes the
    flattening of the new segments when some segment field was a merged id,
    and is left as it is otherwise, whatever it lists.  So afterwards no
    segment field is a merged id, and no vertex list holds one provided
    that the vertex list of each Bezier curve was the flattening of its
    segments. *)
Theorem merge_vertices_spec env state ids targetPosition :
  (length ids < 2 →
   appReducer env state (MERGE_VERTICES ids targetPosition) = state)
  ∧ (2 ≤ length ids →
     env_id env ∉ ids →
     let state' := appReducer env state (MERGE_VERTICES ids targetPosition) in
     let renamed := λ v : string, if decide (v ∈ ids) then env_id env else v in
     vertices state' !! env_id env
     = Some (mkVertex (env_id env) (px targetPosition) (py targetPosition) anchor None)
     ∧ (∀ id, id ∈ ids → vertices state' !! id = None)
     ∧ (∀ id, id ∉ ids → id ≠ env_id env → vertices state' !! id = vertices state !! id)
     ∧ (∀ k, shapes state !! k = None → shapes state' !! k = None)
     ∧ (∀ k s, shapes state !! k = Some s →
          ∃ s', shapes state' !! k = Some s'
            ∧ s_id s' = s_id s ∧ style s' = style s ∧ visible s' = visible s
            ∧ locked s' = locked s ∧ metadata s' = metadata s
            ∧ match s_kind s with
              | bezier segs cl =>
                  s_kind s'
                  = bezier (map (λ seg, mkSeg (renamed (p0 seg)) (renamed (p1 seg))
                                              (renamed (p2 seg)) (renamed (p3 seg)))
                                segs) cl
                  ∧ ((∃ seg v, seg ∈ segs ∧ v ∈ seg_refs seg ∧ v ∈ ids) →
                     vertexIds s' = map renamed (flat_map seg_refs segs))
                  ∧ ((∀ seg v, seg ∈ segs → v ∈ seg_refs seg → v ∉ ids) →
                     vertexIds s' = vertexIds s)
              | other => s_kind s' = other ∧ vertexIds s' = map renamed (vertexIds s)
              end
            ∧ (bezier_wf s →
               vertexIds s' = map renamed (vertexIds s)
               ∧ ∀ v, v ∈ vertexIds s' → v ∉ ids)
            ∧ (∀ segs cl seg v,
                 s_kind s' = bezier segs cl → seg ∈ segs → v ∈ seg_refs seg → v ∉ ids))
     ∧ selectedVertexIds state' = {[env_id env]}).
Proof.
  split.
  - intros Hlt. cbn -[Nat.ltb]. apply Nat.ltb_lt in Hlt. rewrite Hlt. reflexivity.
  - intros Hge Hfresh state' renamed. subst state'. cbn -[Nat.ltb].
    replace (length ids <? 2) with false by (symmetry; apply Nat.ltb_ge; lia).
    cbn.
    assert (Hren : ∀ l, map (merge_id ids (env_id env)) l = map renamed l).
    { intros l. apply map_ext. intros v. apply merge_id_decide. }
    split; [|split; [|split; [|split; [|split]]]].
    + rewrite delete_all_lookup_notin by exact Hfresh. apply lookup_insert_eq.
    + intros id Hin. apply delete_all_lookup_in, Hin.
    + intros id Hn Hne. rewrite delete_all_lookup_notin by exact Hn.
      apply lookup_insert_ne. congruence.
    + intros k Hk. rewrite lookup_fmap, Hk. reflexivity.
    + intros k s Hs. rewrite lookup_fmap, Hs. cbn [fmap option_fmap option_map].
      eexists. split; [reflexivity|].
      destruct (merge_shape_fields ids (env_id env) s) as (-> & -> & -> & -> & ->).
      do 5 (split; [reflexivity|]).
      pose proof (merge_shape_refs ids (env_id env) s) as Hrefs.
      split; [|split].
      * destruct (s_kind s) as [| |r|segs cl|cl];
          try (destruct Hrefs as [-> ->]; split; [reflexivity|apply Hren]).
        destruct Hrefs as (-> & Htouched & Huntouched). split; [|split].
        -- f_equal. apply map_ext. intros seg. apply merge_segment_decide.
        -- intros Hex. rewrite Htouched by (apply segments_touched, Hex). apply Hren.
        -- intros Hnone. apply Huntouched.
           destruct (existsb (segment_touched ids) segs) eqn:E; [|reflexivity].
           apply segments_touched in E as (seg & v & Hseg & Hv & Hin).
           exfalso. exact (Hnone seg v Hseg Hv Hin).
      * intros Hwf. rewrite (merge_shape_rewrite _ _ _ Hwf).
        unfold rewrite_refs. cbn [vertexIds]. split; [apply Hren|].
        intros v Hv. apply list_elem_of_In, in_map_iff in Hv as (v0 & <- & _).
        apply merge_id_not_merged, Hfresh.
      * intros segs cl seg v Hk Hseg Hv.
        destruct (s_kind s) as [| |r|segs0 cl0|cl0];
          try (destruct Hrefs as [Hk' _]; rewrite Hk' in Hk; discriminate).
        destruct Hrefs as (Hk' & _). rewrite Hk' in Hk. injection Hk as <- <-.
        apply list_elem_of_In, in_map_iff in Hseg as (seg0 & <- & _).
        rewrite merge_segment_refs in Hv.
        apply list_elem_of_In, in_map_iff in Hv as (v0 & <- & _).
        apply merge_id_not_merged, Hfresh.
    + reflexivity.
Qed.

Lemma merge_vertices_spec_witness :
  vertices (appReducer (mkEnv "n" 0) line_state (MERGE_VERTICES ["a"; "b"] (mkPos 50 0))) !! "n"
  = Some (mkVertex "n" 50 0 anchor None)
  ∧ vertices (appReducer (mkEnv "n" 0) line_state (MERGE_VERTICES ["a"; "b"] (mkPos 50 0))) !! "a"
    = None
  ∧ ∃ s', shapes (appReducer (mkEnv "n" 0) line_state
                    (MERGE_VERTICES ["a"; "b"] (mkPos 50 0))) !! "L" = Some s'
          ∧ s_kind s' = line ∧ vertexIds s' = ["n"; "n"].
Proof.
  destruct (proj2 (merge_vertices_spec (mkEnv "n" 0) line_state ["a"; "b"] (mkPos 50 0)))
    as (Hnew & Hgone & _ & _ & Hshapes & _).
  - simpl. lia.
  - simpl. intros H. apply elem_of_cons in H as [H|H]; [discriminate|].
    apply list_elem_of_singleton in H. discriminate.
  - split; [exact Hnew|]. split; [apply Hgone; left|].
    destruct (Hshapes "L" line_ab eq_refl) as (s' & Hlook & _ & _ & _ & _ & _ & Hk & _).
    exists s'. split; [exact Hlook|]. cbn in Hk. exact Hk.
Defined.

(** C3 as stated fails.  This file passes the validation: a Bezier shape
    that lists the anchors a and b in [vertexRefs] and has no segments.
    After its import, merging a and b deletes both vertices and leaves the
    shape's vertex list as it was, so that the shape still refers to the
    two merged ids. *)
Lemma merge_keeps_stale_bezier_ids :
  validateImportData stale_bezier_document = Ret ([], true)
  ∧ ∃ imported,
      document_after_import (mkEnv "i" 0) initialState 20 false (Ret stale_bezier_document)
      = Some imported
      ∧ let merged :=
          appReducer (mkEnv "n" 0) imported (MERGE_VERTICES ["a"; "b"] (mkPos 5 0)) in
        vertices merged !! "a" = None
        ∧ vertices merged !! "b" = None
        ∧ is_Some (vertices merged !! "n")
        ∧ ∃ s, shapes merged !! "B" = Some s
               ∧ s_kind s = bezier [] false
               ∧ vertexIds s = ["a"; "b"].
Proof.
  split; [reflexivity|].
  eexists. split; [reflexivity|]. cbv zeta.
  split; [vm_compute; reflexivity|]. split; [vm_compute; reflexivity|].
  split; [vm_compute; eauto|].
  eexists. split; [vm_compute; reflexivity|]. split; reflexivity.
Qed.

(** ** Referential integrity *)

Lemma consistent_transfer vs sh vs' sh' :
  (∀ v, is_Some (vs !! v) → is_Some (vs' !! v)) →
  (∀ k s', sh' !! k = Some s' →
     ∃ k0 s, sh !! k0 = Some s ∧ vertexIds s' = vertexIds s
             ∧ (bezier_wf s → bezier_wf s')) →
  consistent vs sh → consistent vs' sh'.
Proof.
  intros Hvs Hsh [Hrefs Hwf]. split.
  - intros k s' v Hs' Hv. destruct (Hsh k s' Hs') as (k0 & s & Hs & Hids & _).
    apply Hvs. rewrite Hids in Hv. exact (Hrefs k0 s v Hs Hv).
  - intros k s' Hs'. destruct (Hsh k s' Hs') as (k0 & s & Hs & _ & Hb).
    apply Hb. exact (Hwf k0 s Hs).
Qed.

Lemma saveHistory_consistent s :
  integrity s →
  Forall (λ x, consistent (snap_vertices x) (snap_shapes x)) (past (saveHistory s))
  ∧ Forall (λ x, consistent (snap_vertices x) (snap_shapes x)) (future (saveHistory s)).
Proof.
  intros (Hlive & Hpast & _). split; [|constructor].
  simpl. unfold slice_last. apply Forall_drop, Forall_app. split; [exact Hpast|].
  constructor; [exact Hlive|constructor].
Qed.

Lemma shapesToDelete_spec sh id k :
  k ∈ shapesToDelete sh id ↔ ∃ s, sh !! k = Some s ∧ id ∈ vertexIds s.
Proof.
  unfold shapesToDelete. rewrite list_elem_of_fmap. split.
  - intros ([k' s] & -> & Hin). apply list_elem_of_filter in Hin as [Hp Hin].
    apply elem_of_map_to_list in Hin. simpl in *.
    exists s. split; [exact Hin|]. apply includes_true, Hp.
  - intros (s & Hs & Hid). exists (k, s). split; [reflexivity|].
    apply list_elem_of_filter. split.
    + simpl. apply includes_true, Hid.
    + apply elem_of_map_to_list, Hs.
Qed.

(** DELETE_VERTEX keeps exactly the shapes that do not list the vertex. *)
Lemma delete_vertex_shapes env state id k :
  shapes (appReducer env state (DELETE_VERTEX id)) !! k
  = match shapes state !! k with
    | Some s => if includes (vertexIds s) id then None else Some s
    | None => None
    end.
Proof.
  simpl. destruct (shapes state !! k) as [s|] eqn:Hs.
  - destruct (includes (vertexIds s) id) eqn:Hinc.
    + apply delete_all_lookup_in, shapesToDelete_spec.
      exists s. split; [exact Hs|]. apply includes_true, Hinc.
    + rewrite delete_all_lookup_notin; [exact Hs|].
      rewrite shapesToDelete_spec. intros (s' & Hs' & Hid).
      rewrite Hs in Hs'. injection Hs' as <-.
      apply includes_true in Hid. congruence.
  - rewrite delete_all_lookup_notin; [exact Hs|].
    rewrite shapesToDelete_spec. intros (s' & Hs' & _). congruence.
Qed.

Lemma delete_vertex_shapes_filter env state id :
  shapes (appReducer env state (DELETE_VERTEX id))
  = filter (λ p, id ∉ vertexIds p.2) (shapes state).
Proof.
  apply map_eq. intros k. rewrite delete_vertex_shapes.
  destruct (shapes state !! k) as [s|] eqn:Hs.
  - destruct (includes (vertexIds s) id) eqn:Hinc; symmetry.
    + apply map_lookup_filter_None. right. intros s' Hs' Hn.
      rewrite Hs in Hs'. injection Hs' as <-.
      apply Hn, includes_true, Hinc.
    + apply map_lookup_filter_Some. split; [exact Hs|].
      apply includes_false, Hinc.
  - symmetry. apply map_lookup_filter_None. left. exact Hs.
Qed.

(** As many shapes go as list the vertex. *)
Lemma delete_vertex_count env state id :
  size (shapes state)
  = size (shapes (appReducer env state (DELETE_VERTEX id)))
    + size (filter (λ p, id ∈ vertexIds p.2) (shapes state)).
Proof.
  rewrite delete_vertex_shapes_filter.
  rewrite <- (map_filter_union_complement (λ p, id ∈ vertexIds p.2) (shapes state)) at 1.
  rewrite map_size_disj_union by apply map_disjoint_filter_complement.
  apply Nat.add_comm.
Qed.

Lemma apply_shape_updates_refs s u :
  keeps_refs u →
  vertexIds (apply_shape_updates s u) = vertexIds s
  ∧ (bezier_wf s → bezier_wf (apply_shape_updates s u)).
Proof.
  intros [Hids Hsegs]. unfold apply_shape_updates, bezier_wf. simpl.
  rewrite Hids. simpl. split; [reflexivity|].
  destruct (s_kind s); simpl; try auto. rewrite Hsegs. auto.
Qed.

Lemma batch_vertices_dom us : ∀ vs v,
  is_Some (vs !! v) → is_Some (batch_vertices us vs !! v).
Proof.
  induction us as [|u us IH]; intros vs v Hv; [exact Hv|].
  unfold batch_vertices. simpl. fold (batch_vertices us). apply IH.
  destruct (vs !! u.1) eqn:Hu; [|exact Hv].
  destruct (decide (u.1 = v)) as [<-|Hne].
  - rewrite lookup_insert_eq. eauto.
  - rewrite lookup_insert_ne by exact Hne. exact Hv.
Qed.

Lemma batch_shapes_refs us : ∀ sh k s',
  Forall (λ u, keeps_refs u.2) us →
  batch_shapes us sh !! k = Some s' →
  ∃ s, sh !! k = Some s ∧ vertexIds s' = vertexIds s
       ∧ (bezier_wf s → bezier_wf s').
Proof.
  induction us as [|u us IH]; intros sh k s' Hall Hs'.
  - exists s'. auto.
  - apply Forall_cons in Hall as [Hu Hall].
    unfold batch_shapes in Hs'. simpl in Hs'. fold (batch_shapes us) in Hs'.
    apply IH in Hs' as (s1 & Hs1 & Hids & Hwf); [|exact Hall].
    destruct (sh !! u.1) as [s0|] eqn:Hs0; [|eauto].
    destruct (decide (u.1 = k)) as [<-|Hne].
    + rewrite lookup_insert_eq in Hs1. injection Hs1 as <-.
      destruct (apply_shape_updates_refs s0 u.2 Hu) as [Hids0 Hwf0].
      exists s0. split; [exact Hs0|]. split; [congruence|auto].
    + rewrite lookup_insert_ne in Hs1 by exact Hne. eauto.
Qed.

Lemma with_kind_circle_refs r s :
  vertexIds (with_kind (circle r) s) = vertexIds s
  ∧ (bezier_wf s → bezier_wf (with_kind (circle r) s)).
Proof. split; [reflexivity|]. intros _. exact I. Qed.

Lemma apply_frame_shape_refs f id s :
  vertexIds (apply_frame_shape f id s) = vertexIds s
  ∧ (bezier_wf s → bezier_wf (apply_frame_shape f id s)).
Proof.
  unfold apply_frame_shape.
  destruct (f_shapeProperties f !! id) as [[[r|]]|]; try auto.
  destruct (s_kind s); try auto. apply with_kind_circle_refs.
Qed.

Lemma interpolate_shape_refs f1 f2 t id s :
  vertexIds (interpolate_shape f1 f2 t id s) = vertexIds s
  ∧ (bezier_wf s → bezier_wf (interpolate_shape f1 f2 t id s)).
Proof.
  unfold interpolate_shape. destruct (s_kind s); try auto.
  destruct (f_shapeProperties f1 !! id ≫= sp_radius); try auto.
  destruct (f_shapeProperties f2 !! id ≫= sp_radius); try auto.
  apply with_kind_circle_refs.
Qed.

Lemma imap_is_Some {V} (f : string → V → V) (m : gmap string V) k :
  is_Some (m !! k) → is_Some (map_imap (λ i x, Some (f i x)) m !! k).
Proof. intros [x Hx]. rewrite map_lookup_imap, Hx. simpl. eauto. Qed.

Lemma imap_lookup_Some {V} (f : string → V → V) (m : gmap string V) k y :
  map_imap (λ i x, Some (f i x)) m !! k = Some y →
  ∃ x, m !! k = Some x ∧ y = f k x.
Proof.
  rewrite map_lookup_imap. destruct (m !! k) as [x|]; [|discriminate].
  simpl. intros [= <-]. eauto.
Qed.

(** Every action of the reducer keeps the invariant, provided its payload
    is admissible. *)
Lemma reducer_integrity env s a :
  integrity s → admissible env s a → integrity (appReducer env s a).
Proof.
  intros Hint Hadm.
  pose proof (saveHistory_consistent s Hint) as [Hsp Hsf].
  destruct Hint as (Hlive & Hpast & Hfut).
  unfold integrity; destruct a; reduce_state.
  - (* ADD_VERTEX *)
    split; [|split; assumption].
    apply (consistent_transfer (vertices s) (shapes s)); [| |exact Hlive].
    + intros v Hv. destruct (decide (v_id vertex = v)) as [<-|Hne].
      * rewrite lookup_insert_eq. eauto.
      * rewrite lookup_insert_ne by exact Hne. exact Hv.
    + intros k s' Hs'. exists k, s'. auto.
  - (* UPDATE_VERTEX *)
    destruct (vertices s !! id) as [vertex|] eqn:Hv; [|unchanged].
    split; [|split; assumption]. reduce_state.
    apply (consistent_transfer (vertices s) (shapes s)); [| |exact Hlive].
    + intros v Hv'. destruct (decide (id = v)) as [<-|Hne].
      * rewrite lookup_insert_eq. eauto.
      * rewrite lookup_insert_ne by exact Hne. exact Hv'.
    + intros k s' Hs'. exists k, s'. auto.
  - (* DELETE_VERTEX *)
    split; [|split; assumption].
    destruct Hlive as [Hrefs Hwf]. split.
    + intros k s' v Hs' Hv.
      pose proof (delete_vertex_shapes env s id k) as Hl. reduce_state.
      rewrite Hl in Hs'. destruct (shapes s !! k) as [s0|] eqn:Hs0; [|discriminate].
      destruct (includes (vertexIds s0) id) eqn:Hinc; [discriminate|].
      injection Hs' as <-. apply includes_false in Hinc.
      rewrite lookup_delete_ne by (intros ->; contradiction).
      exact (Hrefs k s0 v Hs0 Hv).
    + intros k s' Hs'.
      pose proof (delete_vertex_shapes env s id k) as Hl. reduce_state.
      rewrite Hl in Hs'. destruct (shapes s !! k) as [s0|] eqn:Hs0; [|discriminate].
      destruct (includes (vertexIds s0) id); [discriminate|].
      injection Hs' as <-. exact (Hwf k s0 Hs0).
  - (* ADD_SHAPE *)
    split; [|split; assumption].
    destruct Hlive as [Hrefs Hwf]. destruct Hadm as [Hnew Hnewwf]. split.
    + intros k s' v Hs' Hv. apply lookup_insert_Some in Hs' as [[_ <-]|[_ Hs']].
      * apply Hnew, Hv.
      * exact (Hrefs k s' v Hs' Hv).
    + intros k s' Hs'. apply lookup_insert_Some in Hs' as [[_ <-]|[_ Hs']].
      * exact Hnewwf.
      * exact (Hwf k s' Hs').
  - (* UPDATE_SHAPE *)
    destruct (shapes s !! id) as [shape|] eqn:Hs; [|unchanged].
    split; [|split; assumption]. reduce_state.
    apply (consistent_transfer (vertices s) (shapes s)); [auto| |exact Hlive].
    intros k s' Hs'. apply lookup_insert_Some in Hs' as [[_ <-]|[_ Hs']].
    + exists id, shape. split; [exact Hs|]. apply apply_shape_updates_refs, Hadm.
    + exists k, s'. auto.
  - (* DELETE_SHAPE *)
    destruct Hlive as [Hrefs Hwf].
    assert (Hwf' : shapes_wf (delete id (shapes s))).
    { intros k s' Hs'. apply lookup_delete_Some in Hs' as [_ Hs']. exact (Hwf k s' Hs'). }
    destruct (shapes s !! id) as [[sid [| |r|segs cl|cl] vids st vis lk md]|] eqn:Hs;
      reduce_state;
      (split; [|split; assumption]); (split; [|exact Hwf']);
      intros k s' v Hs' Hv; apply lookup_delete_Some in Hs' as [Hne Hs'];
      try exact (Hrefs k s' v Hs' Hv).
    rewrite delete_orphans_kept; [exact (Hrefs k s' v Hs' Hv)|].
    right. apply isUsedElsewhere_spec. exists k, s'. auto.
  - (* SELECT_VERTICES *) destruct additive; unchanged.
  - (* SELECT_SHAPES *) destruct additive; unchanged.
  - unchanged.
  - unchanged.
  - unchanged.
  - unchanged.
  - (* MERGE_VERTICES *)
    destruct (length vertexIds0 <? 2); [unchanged|].
    reduce_state. split; [|split; assumption].
    destruct Hlive as [Hrefs Hwf]. split.
    + intros k s' v Hs' Hv. rewrite lookup_fmap in Hs'.
      destruct (shapes s !! k) as [s0|] eqn:Hs0; [|discriminate].
      simpl in Hs'. injection Hs' as <-.
      rewrite (merge_shape_rewrite _ _ _ (Hwf k s0 Hs0)) in Hv. simpl in Hv.
      apply list_elem_of_In, in_map_iff in Hv as (v0 & <- & Hv0).
      apply list_elem_of_In in Hv0.
      rewrite delete_all_lookup_notin by (apply merge_id_not_merged, Hadm).
      unfold merge_id. destruct (includes vertexIds0 v0).
      * rewrite lookup_insert_eq. eauto.
      * destruct (decide (env_id env = v0)) as [<-|Hne].
        -- rewrite lookup_insert_eq. eauto.
        -- rewrite lookup_insert_ne by exact Hne. exact (Hrefs k s0 v0 Hs0 Hv0).
    + intros k s' Hs'. rewrite lookup_fmap in Hs'.
      destruct (shapes s !! k) as [s0|] eqn:Hs0; [|discriminate].
      simpl in Hs'. injection Hs' as <-.
      rewrite (merge_shape_rewrite _ _ _ (Hwf k s0 Hs0)).
      apply rewrite_refs_wf. exact (Hwf k s0 Hs0).
  - (* IMPORT_DATA *) split; [exact Hadm|split; assumption].
  - unchanged.
  - (* UPDATE_FRAME *)
    destruct (out_of_range (frames s) frameIndex); unchanged.
  - (* DELETE_FRAME *)
    destruct (out_of_range (frames s) frameIndex); unchanged.
  - (* SET_CURRENT_FRAME *)
    destruct (out_of_range (frames s) frameIndex); unchanged.
  - unchanged.
  - unchanged.
  - unchanged.
  - (* APPLY_FRAME *)
    destruct (out_of_range (frames s) frameIndex); [unchanged|].
    destruct (js_index (frames s) frameIndex) as [frame|]; [|unchanged].
    split; [|split; assumption]. reduce_state.
    apply (consistent_transfer (vertices s) (shapes s)); [| |exact Hlive].
    + intros v. apply imap_is_Some.
    + intros k s' Hs'. apply imap_lookup_Some in Hs' as (s0 & Hs0 & ->).
      exists k, s0. split; [exact Hs0|]. apply apply_frame_shape_refs.
  - (* INTERPOLATE_FRAMES *)
    destruct (js_index (frames s) fromIndex) as [fromFrame|]; [|unchanged].
    destruct (js_index (frames s) toIndex) as [toFrame|]; [|unchanged].
    split; [|split; assumption]. reduce_state.
    apply (consistent_transfer (vertices s) (shapes s)); [| |exact Hlive].
    + intros v. apply imap_is_Some.
    + intros k s' Hs'. apply imap_lookup_Some in Hs' as (s0 & Hs0 & ->).
      exists k, s0. split; [exact Hs0|]. apply interpolate_shape_refs.
  - (* UNDO *)
    destruct (last (past (history s))) as [previous|] eqn:Hl; [|unchanged].
    apply last_Some in Hl as [p Hp]. reduce_state. rewrite Hp in Hpast |- *.
    apply Forall_app in Hpast as [Hp' Hprev]. rewrite Forall_singleton in Hprev.
    rewrite removelast_last.
    split; [exact Hprev|]. split; [exact Hp'|]. constructor; assumption.
  - (* REDO *)
    destruct (future (history s)) as [|next newFuture] eqn:Hf;
      [reduce_state; rewrite Hf; unchanged|].
    apply Forall_cons in Hfut as [Hnext Hfut]. reduce_state.
    split; [exact Hnext|]. split; [|exact Hfut].
    apply Forall_app. split; [exact Hpast|]. constructor; [exact Hlive|constructor].
  - (* CLEAR_ALL *)
    split; [|split; constructor]. split.
    + intros k s' v Hs'. rewrite lookup_empty in Hs'. discriminate.
    + intros k s' Hs'. rewrite lookup_empty in Hs'. discriminate.
  - (* UPDATE_CURRENT_FRAME_DATA *)
    destruct (out_of_range (frames s) (currentFrameIndex s)); unchanged.
  - (* BATCH_UPDATE *)
    split; [|split; assumption].
    apply (consistent_transfer (vertices s) (shapes s)); [| |exact Hlive].
    + intros v. apply batch_vertices_dom.
    + intros k s' Hs'. apply batch_shapes_refs in Hs' as (s0 & Hs0 & Hids & Hwf0);
        [|exact Hadm].
      exists k, s0. auto.
Qed.

Lemma initial_integrity : integrity initialState.
Proof.
  unfold integrity. reduce_state.
  split; [|split; constructor]. split.
  - intros k s' v Hs'. rewrite lookup_empty in Hs'. discriminate.
  - intros k s' Hs'. rewrite lookup_empty in Hs'. discriminate.
Qed.

Lemma run_integrity acts : ∀ s,
  integrity s → admissible_run s acts → integrity (run s acts).
Proof.
  induction acts as [|[env a] acts IH]; intros s Hint Hadm; [exact Hint|].
  destruct Hadm as [Ha Hrest]. simpl in *.
  apply IH; [apply reducer_integrity; assumption|exact Hrest].
Qed.

(** C2, as the code has it.  In every session whose actions are admissible
    (shapes that are added or imported refer to vertices that are there,
    with Bezier vertex lists agreeing with their segments; shape updates
    leave references alone; a generated id is not among the ids it
    merges), every vertex id listed by a shape of the document is a key of
    the vertex map.  DELETE_VERTEX removes the vertex, removes exactly the
    shapes that list it (as many shapes go as list the vertex), keeps every
    other shape as it is, and drops the id from the vertex selection. *)
Theorem referential_integrity :
  (∀ acts,
     admissible_run initialState acts →
     refs_exist (vertices (run initialState acts)) (shapes (run initialState acts)))
  ∧ (∀ env state id,
       vertices (appReducer env state (DELETE_VERTEX id)) = delete id (vertices state)
       ∧ (∀ k s, shapes state !! k = Some s → id ∈ vertexIds s →
            shapes (appReducer env state (DELETE_VERTEX id)) !! k = None)
       ∧ (∀ k s, shapes state !! k = Some s → id ∉ vertexIds s →
            shapes (appReducer env state (DELETE_VERTEX id)) !! k = Some s)
       ∧ (∀ k, shapes state !! k = None →
            shapes (appReducer env state (DELETE_VERTEX id)) !! k = None)
       ∧ size (shapes state)
         = size (shapes (appReducer env state (DELETE_VERTEX id)))
           + size (filter (λ p, id ∈ vertexIds p.2) (shapes state))
       ∧ selectedVertexIds (appReducer env state (DELETE_VERTEX id))
         = selectedVertexIds state ∖ {[id]}).
Proof.
  split.
  - intros acts Hadm.
    apply (run_integrity acts initialState initial_integrity Hadm).
  - intros env state id. split; [reflexivity|].
    split; [|split; [|split; [|split; [apply delete_vertex_count|reflexivity]]]].
    + intros k s Hs Hid. rewrite delete_vertex_shapes, Hs.
      apply includes_true in Hid. rewrite Hid. reflexivity.
    + intros k s Hs Hid. rewrite delete_vertex_shapes, Hs.
      apply includes_false in Hid. rewrite Hid. reflexivity.
    + intros k Hs. rewrite delete_vertex_shapes, Hs. reflexivity.
Qed.

Lemma referential_integrity_witness :
  refs_exist (vertices (run initialState line_session))
             (shapes (run initialState line_session))
  ∧ shapes (run initialState line_session) !! "L" = None.
Proof.
  split.
  - apply (proj1 referential_integrity line_session).
    simpl. repeat split; try exact I.
    intros v Hv.
    apply elem_of_cons in Hv as [->|Hv]; [vm_compute; eauto|].
    apply list_elem_of_singleton in Hv. subst v. vm_compute. eauto.
  - change (run initialState line_session)
      with (appReducer (mkEnv "" 0) (run initialState (take 3 line_session))
                       (DELETE_VERTEX "a")).
    destruct (proj2 referential_integrity (mkEnv "" 0)
                (run initialState (take 3 line_session)) "a") as (_ & Hgone & _).
    apply (Hgone "L" line_ab); [reflexivity|left].
Defined.

(** C2 as stated fails: the reducer stores an added shape without looking
    at its references, so after this one action the line [L] refers to
    [a], which is not in the vertex map. *)
Lemma add_shape_dangling_reference :
  shapes (appReducer (mkEnv "" 0) initialState (ADD_SHAPE line_ab)) !! "L" = Some line_ab
  ∧ "a" ∈ vertexIds line_ab
  ∧ vertices (appReducer (mkEnv "" 0) initialState (ADD_SHAPE line_ab)) !! "a" = None
  ∧ ¬ refs_exist (vertices (appReducer (mkEnv "" 0) initialState (ADD_SHAPE line_ab)))
                 (shapes (appReducer (mkEnv "" 0) initialState (ADD_SHAPE line_ab))).
Proof.
  split; [reflexivity|]. split; [left|]. split; [reflexivity|].
  intros Hrefs. destruct (Hrefs "L" line_ab "a") as [v Hv]; [reflexivity|left|].
  discriminate Hv.
Qed.

(** ** The Bezier tool (handleMouseDown, bezier branch) *)

Lemma bezier_loop_step gen state i A B rest :
  bezier_loop gen state i (A :: B :: rest)
  = (((if bool_decide (is_Some (vertices state !! v_id A)) then [] else [ADD_VERTEX A])
      ++ [ADD_VERTEX (mkVertex (gen (2 * i)) (v_x A + (v_x B - v_x A) * 0.33)%Q (v_y A)
                               control (Some (v_id A)));
          ADD_VERTEX (mkVertex (gen (2 * i + 1)) (v_x A + (v_x B - v_x A) * 0.66)%Q (v_y B)
                               control (Some (v_id B)))]
      ++ match rest with
         | [] => if bool_decide (is_Some (vertices state !! v_id B))
                 then [] else [ADD_VERTEX B]
         | _ => []
         end)
     ++ (bezier_loop gen state (S i) (B :: rest)).1,
     mkSeg (v_id A) (gen (2 * i)) (gen (2 * i + 1)) (v_id B)
     :: (bezier_loop gen state (S i) (B :: rest)).2).
Proof. reflexivity. Qed.

Lemma bezier_loop_spec gen state : ∀ temp i0,
  Forall (λ a, ∃ v, a = ADD_VERTEX v) (bezier_loop gen state i0 temp).1
  ∧ length (bezier_loop gen state i0 temp).2 = length temp - 1
  ∧ ∀ i P0 P3,
      temp !! i = Some P0 → temp !! S i = Some P3 →
      (bezier_loop gen state i0 temp).2 !! i
      = Some (mkSeg (v_id P0) (gen (2 * (i0 + i))) (gen (2 * (i0 + i) + 1)) (v_id P3))
      ∧ ADD_VERTEX (mkVertex (gen (2 * (i0 + i)))
                             (v_x P0 + (v_x P3 - v_x P0) * 0.33)%Q (v_y P0)
                             control (Some (v_id P0)))
        ∈ (bezier_loop gen state i0 temp).1
      ∧ ADD_VERTEX (mkVertex (gen (2 * (i0 + i) + 1))
                             (v_x P0 + (v_x P3 - v_x P0) * 0.66)%Q (v_y P3)
                             control (Some (v_id P3)))
        ∈ (bezier_loop gen state i0 temp).1.
Proof.
  induction temp as [|A temp IH]; intros i0.
  - split; [constructor|]. split; [reflexivity|]. intros i P0 P3 H. discriminate H.
  - destruct temp as [|B rest].
    + split; [constructor|]. split; [reflexivity|].
      intros i P0 P3 _ H. discriminate H.
    + destruct (IH (S i0)) as (Hall & Hlen & Hseg).
      rewrite bezier_loop_step. cbn [fst snd].
      split; [|split].
      * repeat (apply Forall_app; split); try exact Hall.
        -- destruct (bool_decide _); repeat constructor. eauto.
        -- repeat constructor; eauto.
        -- destruct rest; [destruct (bool_decide _)|]; repeat constructor. eauto.
      * cbn [length]. rewrite Hlen. simpl. lia.
      * intros i P0 P3 H0 H3. destruct i as [|i].
        -- injection H0 as <-. injection H3 as <-.
           rewrite Nat.add_0_r. split; [reflexivity|].
           split; apply elem_of_app; left; apply elem_of_app; right.
           ++ apply elem_of_app. left. left.
           ++ apply elem_of_app. left. right. left.
        -- simpl in H0, H3.
           destruct (Hseg i P0 P3 H0 H3) as (Hs & H1 & H2).
           replace (i0 + S i) with (S i0 + i) by lia.
           split; [exact Hs|]. split; apply elem_of_app; right; assumption.
Qed.

(** C8, as the code has it.  A right-click with at least two pending
    anchors dispatches vertex additions followed by exactly one Bezier
    shape; the shape holds one segment per consecutive pair of anchors, in
    click order, from the first anchor of the pair to the second; the two
    control points of a segment are added as control vertices, the first at
    33% of the horizontal span with the height of the first anchor, the
    second at 66% of the horizontal span with the height of the second
    anchor; and the pending list is emptied. *)
Theorem bezier_right_click gen state currentStyle tempVertices newVertex :
  2 ≤ length tempVertices →
  ∃ vertexActions segs,
    handleMouseDown_bezier gen state currentStyle tempVertices 2 newVertex
    = (vertexActions
       ++ [ADD_SHAPE (mkShape (gen (2 * (length tempVertices - 1)))
                              (bezier segs false) (flat_map seg_refs segs)
                              currentStyle true false None)],
       [])
    ∧ Forall (λ a, ∃ v, a = ADD_VERTEX v) vertexActions
    ∧ length segs = length tempVertices - 1
    ∧ ∀ i P0 P3,
        tempVertices !! i = Some P0 → tempVertices !! S i = Some P3 →
        segs !! i = Some (mkSeg (v_id P0) (gen (2 * i)) (gen (2 * i + 1)) (v_id P3))
        ∧ ADD_VERTEX (mkVertex (gen (2 * i))
                               (v_x P0 + (v_x P3 - v_x P0) * 0.33)%Q (v_y P0)
                               control (Some (v_id P0)))
          ∈ vertexActions
        ∧ ADD_VERTEX (mkVertex (gen (2 * i + 1))
                               (v_x P0 + (v_x P3 - v_x P0) * 0.66)%Q (v_y P3)
                               control (Some (v_id P3)))
          ∈ vertexActions.
Proof.
  intros Hlen.
  exists (bezier_loop gen state 0 tempVertices).1, (bezier_loop gen state 0 tempVertices).2.
  destruct (bezier_loop_spec gen state tempVertices 0) as (Hall & Hl & Hseg).
  split; [|split; [exact Hall|split; [exact Hl|exact Hseg]]].
  unfold handleMouseDown_bezier.
  replace (2 <=? length tempVertices) with true by (symmetry; apply Nat.leb_le, Hlen).
  reflexivity.
Qed.

Lemma bezier_right_click_witness :
  ∃ vertexActions segs,
    handleMouseDown_bezier numbered_ids initialState curve_style
                           [anchor_a; anchor_b] 2 anchor_b
    = (vertexActions
       ++ [ADD_SHAPE (mkShape (numbered_ids 2) (bezier segs false) (flat_map seg_refs segs)
                              curve_style true false None)],
       [])
    ∧ segs !! 0 = Some (mkSeg "a" (numbered_ids 0) (numbered_ids 1) "b").
Proof.
  destruct (bezier_right_click numbered_ids initialState curve_style
              [anchor_a; anchor_b] anchor_b)
    as (acts & segs & Heq & _ & _ & Hseg); [simpl; lia|].
  exists acts, segs. split; [exact Heq|].
  apply (Hseg 0 anchor_a anchor_b eq_refl eq_refl).
Defined.

(** C8 as stated fails: for anchors at (0, 0) and (100, 100) the first
    control point is placed at (33, 0) and the second at (66, 100); neither
    lies on the straight line between the anchors. *)
Lemma bezier_control_points_off_the_chord :
  (handleMouseDown_bezier numbered_ids initialState curve_style
                          [anchor_a; anchor_b] 2 anchor_b).1
  = [ADD_VERTEX anchor_a;
     ADD_VERTEX (mkVertex "id0" (0 + (100 - 0) * 0.33)%Q 0 control (Some "a"));
     ADD_VERTEX (mkVertex "id1" (0 + (100 - 0) * 0.66)%Q 100 control (Some "b"));
     ADD_VERTEX anchor_b;
     ADD_SHAPE (mkShape "id2" (bezier [mkSeg "a" "id0" "id1" "b"] false)
                        ["a"; "id0"; "id1"; "b"] curve_style true false None)]
  ∧ ¬ (∃ t, (0 + (100 - 0) * 0.33 == lerp 0 100 t)%Q ∧ (0 == lerp 0 100 t)%Q)
  ∧ ¬ (∃ t, (0 + (100 - 0) * 0.66 == lerp 0 100 t)%Q ∧ (100 == lerp 0 100 t)%Q).
Proof.
  split; [reflexivity|].
  split; intros (t & Hx & Hy); unfold lerp in *; lra.
Qed.

(** ** Import validation (validateImportData, importFromJSON) *)

Lemma null_or_not (v : value) : v = VNull ∨ v ≠ VNull.
Proof. destruct v; auto; right; discriminate. Qed.

Lemma prop_field v k : v ≠ VNull → prop v k = Ret (field v k).
Proof. destruct v; try reflexivity. congruence. Qed.




Lemma all_ok_not_ok check xs x :
  x ∈ xs → check x ≠ Ret true → all_ok check xs ≠ Ret true.
Proof.
  intros Hin Hbad. induction xs as [|y xs IH]; [inversion Hin|].
  simpl. apply elem_of_cons in Hin as [<-|Hin].
  - destruct (check x) as [[|]|m]; [congruence|discriminate|discriminate].
  - destruct (check y) as [[|]|m]; [exact (IH Hin)|discriminate|discriminate].
Qed.



(** The validation throws nothing but the engine's TypeError. *)
Lemma prop_throws v k e : prop v k = Throw e → e = TypeError.
Proof. destruct v; cbn; congruence. Qed.

Lemma bind_throws {A B} (r : Result A) (k : A → Result B) e :
  r ≫= k = Throw e → r = Throw e ∨ ∃ a, r = Ret a ∧ k a = Throw e.
Proof. destruct r as [a|e']; cbn; [eauto|]. intros [= ->]. auto. Qed.

Lemma prop_bind_throws {B} v k (f : option value → Result B) e :
  prop v k ≫= f = Throw e → e = TypeError ∨ ∃ a, f a = Throw e.
Proof.
  intros H. apply bind_throws in H as [H|(a & _ & H)]; [left|right; eauto].
  exact (prop_throws _ _ _ H).
Qed.

Lemma vertex_ok_throws v e : vertex_ok v = Throw e → e = TypeError.
Proof.
  unfold vertex_ok. intros H.
  apply prop_bind_throws in H as [H|(id & H)]; [exact H|].
  destruct (negb _); [discriminate|].
  apply prop_bind_throws in H as [H|(position & H)]; [exact H|].
  destruct (_ || _); [discriminate|].
  apply prop_bind_throws in H as [H|(type & H)]; [exact H|].
  destruct type as [[]|]; discriminate.
Qed.

Lemma shape_ok_throws v e : shape_ok v = Throw e → e = TypeError.
Proof.
  unfold shape_ok. intros H.
  apply prop_bind_throws in H as [H|(id & H)]; [exact H|].
  destruct (negb _); [discriminate|].
  apply prop_bind_throws in H as [H|(type & H)]; [exact H|].
  destruct (negb _); [discriminate|].
  apply prop_bind_throws in H as [H|(vertexRefs & H)]; [exact H|].
  discriminate.
Qed.

Lemma frame_ok_throws v e : frame_ok v = Throw e → e = TypeError.
Proof.
  unfold frame_ok. intros H.
  apply prop_bind_throws in H as [H|(id & H)]; [exact H|].
  destruct (negb _); [discriminate|].
  apply prop_bind_throws in H as [H|(name & H)]; [exact H|].
  destruct (negb _); [discriminate|].
  apply prop_bind_throws in H as [H|(vertexPositions & H)]; [exact H|].
  discriminate.
Qed.

Lemma all_ok_throws check xs e :
  (∀ x e, check x = Throw e → e = TypeError) →
  all_ok check xs = Throw e → e = TypeError.
Proof.
  intros Hcheck. induction xs as [|x xs IH]; [discriminate|].
  cbn [all_ok]. intros H. apply bind_throws in H as [H|(ok & _ & H)].
  - exact (Hcheck _ _ H).
  - destruct ok; [exact (IH H)|discriminate].
Qed.

Lemma validate_body_throws data e : validate_body data = Throw e → e = TypeError.
Proof.
  unfold validate_body. intros H.
  apply prop_bind_throws in H as [H|(vertices & H)]; [exact H|].
  destruct (negb _); [discriminate|].
  apply prop_bind_throws in H as [H|(shapes & H)]; [exact H|].
  destruct (negb _); [discriminate|].
  apply prop_bind_throws in H as [H|(groups & H)]; [exact H|].
  destruct (negb _); [discriminate|].
  apply bind_throws in H as [H|(vs_ok & _ & H)];
    [exact (all_ok_throws _ _ _ vertex_ok_throws H)|].
  destruct (negb vs_ok); [discriminate|].
  apply bind_throws in H as [H|(ss_ok & _ & H)];
    [exact (all_ok_throws _ _ _ shape_ok_throws H)|].
  destruct (negb ss_ok); [discriminate|].
  apply prop_bind_throws in H as [H|(frames & H)]; [exact H|].
  destruct (truthy _); [|discriminate].
  destruct (negb _); [discriminate|].
  exact (all_ok_throws _ _ _ frame_ok_throws H).
Qed.

Lemma version_check_throws data e : version_check data = Throw e → e = TypeError.
Proof.
  unfold version_check. intros H.
  apply prop_bind_throws in H as [H|(version & H)]; [exact H|].
  destruct version as [[| | |s| |]|]; try discriminate; try congruence.
  destruct (String.prefix _ _); discriminate.
Qed.

Lemma validate_throws data e : validateImportData data = Throw e → e = TypeError.
Proof.
  unfold validateImportData. intros H.
  destruct data; try discriminate.
  apply bind_throws in H as [H|(ws & _ & H)]; [exact (version_check_throws _ _ H)|].
  apply bind_throws in H as [H|(ok & _ & H)]; [exact (validate_body_throws _ _ H)|].
  discriminate.
Qed.

Lemma import_rejected state gridSize confirmMerge data :
  (∀ ws, validateImportData data ≠ Ret (ws, true)) →
  ∃ e, (e = Error "Invalid import data format" ∨ e = TypeError)
       ∧ import_try state gridSize confirmMerge data = Some (Throw e).
Proof.
  intros Hno. unfold import_try.
  destruct (validateImportData data) as [[ws [|]]|e] eqn:Hval; cbn [snd negb].
  - exfalso. exact (Hno ws eq_refl).
  - eauto.
  - exists e. split; [right; exact (validate_throws _ _ Hval)|reflexivity].
Qed.








(** A [null] in the optional [frames] and [metadata] is read as an absent
    property: the document is imported, without frames and with its
    positions as they are.  The text shown for a rejected format is the
    message of the thrown error after "Import failed: ". *)
Lemma null_frames_are_skipped :
  validateImportData null_frames_document = Ret ([], true)
  ∧ importFromJSON initialState 20 false (Ret null_frames_document)
    = Some (Some (IMPORT_DATA ∅ ∅ ∅ (Some [])),
            success "Imported: 0 vertices, 0 shapes, 0 frames")
  ∧ (∃ importData, as_MeshExport null_frames_document = Some importData
       ∧ me_frames importData = None ∧ usesGridUnits importData = false)
  ∧ importFromJSON initialState 20 false (Ret short_position_document)
    = Some (None, error (Error "Invalid import data format"))
  ∧ status_message (error (Error "Invalid import data format"))
    = Some "Import failed: Invalid import data format".
Proof.
  split; [reflexivity|]. split; [vm_compute; reflexivity|].
  split; [eexists; split; [reflexivity|split; reflexivity]|].
  split; reflexivity.
Qed.

(** ** Export followed by import (exportToJSON, parseImportData) *)

Lemma Math_round_near u :
  (Math_round u - u <= 1 # 2 ∧ u - Math_round u <= 1 # 2)%Q.
Proof.
  unfold Math_round.
  pose proof (Qfloor_le (u + (1 # 2))) as Hle.
  pose proof (Qlt_floor (u + (1 # 2))) as Hlt.
  rewrite inject_Z_plus in Hlt. change (inject_Z 1) with 1%Q in Hlt.
  split; lra.
Qed.

Lemma Math_max_lower a b : (a <= Math_max a b ∧ b <= Math_max a b)%Q.
Proof. destruct (Math_max_spec a b) as [[H ->]|[H ->]]; split; lra. Qed.

Lemma Math_min_upper a b : (Math_min a b <= a ∧ Math_min a b <= b)%Q.
Proof. destruct (Math_min_spec a b) as [[H ->]|[H ->]]; split; lra. Qed.

Lemma Math_round_mono a b : (a <= b)%Q → (Math_round a <= Math_round b)%Q.
Proof.
  intros H. unfold Math_round. rewrite <- Zle_Qle. apply Qfloor_resp_le. lra.
Qed.

Section GridUnits.
Local Open Scope Q_scope.

Lemma round2_mono a b : a <= b → round2 a <= round2 b.
Proof.
  intros H. unfold round2. apply fl64_mono.
  unfold Qdiv. apply Qmult_le_compat_r; [|discriminate].
  apply Math_round_mono, fl64_mono. lra.
Qed.

Lemma round2_nonneg a : 0 <= a → 0 <= round2 a.
Proof.
  intros H. apply (Qle_trans _ (round2 0)); [vm_compute; discriminate|].
  apply round2_mono, H.
Qed.

(** Up to [2^38] a number and its nearest double differ by less than
    [2^-14]. *)
Lemma fl64_coarse q :
  0 <= q → q <= pow2 38 →
  0 <= fl64 q ∧ q - (1 # 16384) <= fl64 q ∧ fl64 q <= q + (1 # 16384).
Proof.
  intros H0 H1. destruct (fl64_near q) as [Hl Hu].
  rewrite (Qabs_pos q) in Hl, Hu by exact H0.
  assert (Hq : unit_roundoff * q <= unit_roundoff * pow2 38)
    by (apply Qmult_le_l; [apply pow2_pos|exact H1]).
  assert (E : unit_roundoff * pow2 38 + eta_min <= 1 # 16384)
    by (vm_compute; discriminate).
  split; [apply fl64_nonneg, H0|]. split; lra.
Qed.

(** The exported grid coordinate: the quotient [d0], made a double,
    multiplied by 100, rounded to an integer and divided by 100, is within
    half a hundredth, and the rounding errors of the four operations, of
    the exact quotient [R]. *)
Lemma grid_value_error R d0 :
  0 <= R → R <= pow2 30 → 0 <= d0 →
  d0 - R <= 1 # 16384 → R - d0 <= 1 # 16384 →
  0 <= round2 (fl64 d0)
  ∧ round2 (fl64 d0) - R <= (1 # 200) + (1 # 4000)
  ∧ R - round2 (fl64 d0) <= (1 # 200) + (1 # 4000).
Proof.
  intros HR0 HR1 Hd0 Hup Hdown.
  assert (P30 : pow2 30 == 1073741824) by reflexivity.
  assert (P38 : pow2 38 == 274877906944) by reflexivity.
  destruct (fl64_coarse d0 Hd0 ltac:(lra)) as (Hd & Hd1 & Hd2).
  set (d := fl64 d0) in *.
  destruct (fl64_coarse (d * 100) ltac:(lra) ltac:(lra)) as (Hc & Hc1 & Hc2).
  unfold round2. set (c := fl64 (d * 100)) in *.
  destruct (Math_round_near c) as [Hm1 Hm2].
  pose proof (Math_round_mono 0 c Hc) as Hm0.
  change (Math_round 0) with 0 in Hm0.
  set (m := Math_round c) in *.
  assert (Em : m / 100 == m * (1 # 100)) by reflexivity.
  destruct (fl64_coarse (m / 100) ltac:(lra) ltac:(lra)) as (He & He1 & He2).
  set (e := fl64 (m / 100)) in *.
  split; [exact He|]. split; lra.
Qed.

(** Back in pixels: a grid coordinate within that error of the exact
    quotient, multiplied by the grid size, is within a hundredth of the
    grid size, and so is the nearest double of the product. *)
Lemma back_to_pixels g R e :
  0 < g → eta_min <= unit_roundoff * g →
  0 <= R → R <= pow2 30 → 0 <= e →
  e - R <= (1 # 200) + (1 # 4000) → R - e <= (1 # 200) + (1 # 4000) →
  Qabs (e * g - R * g) <= (1 # 100) * g
  ∧ Qabs (fl64 (e * g) - R * g) <= (1 # 100) * g.
Proof.
  intros Hg Heta HR0 HR1 He Hup Hdown.
  assert (P30 : pow2 30 == 1073741824) by reflexivity.
  assert (Eu : unit_roundoff == 1 # 9007199254740992) by reflexivity.
  assert (Heg : 0 <= e * g) by (apply Qmult_le_0_compat; lra).
  destruct (fl64_near (e * g)) as [Hl Hu].
  rewrite (Qabs_pos (e * g)) in Hl, Hu by exact Heg.
  rewrite Eu in Hl, Hu, Heta.
  assert (H1 : (e - R) * g <= ((1 # 200) + (1 # 4000)) * g)
    by (apply Qmult_le_compat_r; lra).
  assert (H2 : (R - e) * g <= ((1 # 200) + (1 # 4000)) * g)
    by (apply Qmult_le_compat_r; lra).
  assert (H3 : e * g <= (1073741824 + 1) * g)
    by (apply Qmult_le_compat_r; lra).
  assert (E1 : (e - R) * g == e * g - R * g) by ring.
  assert (E2 : (R - e) * g == R * g - e * g) by ring.
  rewrite E1 in H1. rewrite E2 in H2.
  set (P := e * g) in *. set (S := R * g) in *. set (F := fl64 P) in *.
  split; apply Qabs_Qle_condition; split; lra.
Qed.

Lemma normal_grid_size g :
  pow2 (-1022) <= g → 0 < g ∧ eta_min <= unit_roundoff * g.
Proof.
  intros Hg. pose proof (pow2_pos (-1022)) as Hp. split; [lra|].
  assert (E : eta_min == unit_roundoff * pow2 (-1022)).
  { unfold eta_min, unit_roundoff. rewrite <- pow2_add. reflexivity. }
  rewrite E. apply Qmult_le_l; [apply pow2_pos|exact Hg].
Qed.

(** A length of at most [2^30] grid units, converted to grid units as a
    circle radius is, and converted back. *)
Lemma reimport_length g r :
  pow2 (-1022) <= g → 0 <= r → r <= pow2 30 * g →
  Qabs (round2 (fl64 (r / g)) * g - r) <= (1 # 100) * g
  ∧ Qabs (fl64 (round2 (fl64 (r / g)) * g) - r) <= (1 # 100) * g.
Proof.
  intros Hg0 Hr0 Hr1. destruct (normal_grid_size g Hg0) as [Hg Heta].
  assert (Er : r == r / g * g) by (field; lra).
  set (R := r / g) in *.
  assert (HR0 : 0 <= R).
  { apply (Qmult_lt_0_le_reg_r _ _ g Hg). lra. }
  assert (HR1 : R <= pow2 30).
  { apply (Qmult_lt_0_le_reg_r _ _ g Hg). lra. }
  destruct (grid_value_error R R HR0 HR1 HR0 ltac:(lra) ltac:(lra)) as (He & Hup & Hdown).
  destruct (back_to_pixels g R _ Hg Heta HR0 HR1 He Hup Hdown) as [H1 H2].
  rewrite <- Er in H1, H2. split; assumption.
Qed.

(** A coordinate at most [2^30] grid units from the origin: the difference
    is itself rounded to a double before it is converted. *)
Lemma reimport_coordinate g r :
  pow2 (-1022) <= g → 0 <= r → r <= pow2 30 * g →
  Qabs (round2 (fl64 (fl64 r / g)) * g - r) <= (1 # 100) * g
  ∧ Qabs (fl64 (round2 (fl64 (fl64 r / g)) * g) - r) <= (1 # 100) * g.
Proof.
  intros Hg0 Hr0 Hr1. destruct (normal_grid_size g Hg0) as [Hg Heta].
  assert (P30 : pow2 30 == 1073741824) by reflexivity.
  assert (Eu : unit_roundoff == 1 # 9007199254740992) by reflexivity.
  destruct (fl64_near r) as [Hl Hu].
  rewrite (Qabs_pos r) in Hl, Hu by exact Hr0.
  pose proof (fl64_nonneg r Hr0) as HF.
  assert (Er : r == r / g * g) by (field; lra).
  assert (EF : fl64 r == fl64 r / g * g) by (field; lra).
  set (F := fl64 r) in *. set (R := r / g) in *. set (d0 := F / g) in *.
  assert (HR0 : 0 <= R).
  { apply (Qmult_lt_0_le_reg_r _ _ g Hg). lra. }
  assert (HR1 : R <= pow2 30).
  { apply (Qmult_lt_0_le_reg_r _ _ g Hg). lra. }
  assert (Hd0 : 0 <= d0).
  { apply (Qmult_lt_0_le_reg_r _ _ g Hg). lra. }
  rewrite Eu in Hl, Hu, Heta. rewrite P30 in Hr1.
  assert (Hup : d0 - R <= 1 # 16384).
  { apply (Qmult_lt_0_le_reg_r _ _ g Hg).
    assert (E : (d0 - R) * g == d0 * g - R * g) by ring.
    rewrite E, <- EF, <- Er. lra. }
  assert (Hdown : R - d0 <= 1 # 16384).
  { apply (Qmult_lt_0_le_reg_r _ _ g Hg).
    assert (E : (R - d0) * g == R * g - d0 * g) by ring.
    rewrite E, <- EF, <- Er. lra. }
  destruct (grid_value_error R d0 HR0 HR1 Hd0 Hup Hdown) as (He & Hup' & Hdown').
  destruct (back_to_pixels g R _ Hg ltac:(rewrite Eu; exact Heta) HR0 HR1 He Hup' Hdown')
    as [H1 H2].
  rewrite <- Er in H1, H2. split; assumption.
Qed.

(** A radius of at least half a hundredth of the grid size is not exported
    as zero. *)
Lemma round2_positive g r :
  0 < g → g / 200 <= r → Qeq_bool (round2 (fl64 (r / g))) 0 = false.
Proof.
  intros Hg Hr. destruct (Qeq_bool (round2 (fl64 (r / g))) 0) eqn:E; [|reflexivity].
  exfalso. apply Qeq_bool_iff in E.
  assert (Hq : 1 # 200 <= r / g).
  { apply Qle_shift_div_l; [exact Hg|].
    assert (Eg : g / 200 == (1 # 200) * g) by (field; lra). lra. }
  pose proof (round2_mono _ _ (fl64_mono _ _ Hq)) as Hm.
  assert (Hpos : 0 < round2 (fl64 (1 # 200))) by (vm_compute; reflexivity).
  lra.
Qed.

End GridUnits.

Lemma fold_min_le_acc l : ∀ a0, ∃ m, foldl min_step (Some a0) l = Some m ∧ (m <= a0)%Q.
Proof.
  induction l as [|y l IH]; intros a0; [exists a0; split; [reflexivity|lra]|].
  cbn [foldl min_step]. destruct (IH (Math_min a0 y)) as (m & Hm & Hle).
  exists m. split; [exact Hm|].
  destruct (Math_min_upper a0 y). lra.
Qed.

Lemma fold_max_ge_acc l : ∀ a0, ∃ m, foldl max_step (Some a0) l = Some m ∧ (a0 <= m)%Q.
Proof.
  induction l as [|y l IH]; intros a0; [exists a0; split; [reflexivity|lra]|].
  cbn [foldl max_step]. destruct (IH (Math_max a0 y)) as (m & Hm & Hle).
  exists m. split; [exact Hm|].
  destruct (Math_max_lower a0 y). lra.
Qed.

Lemma fold_min_bound l : ∀ acc x, x ∈ l →
  ∃ m, foldl min_step acc l = Some m ∧ (m <= x)%Q.
Proof.
  induction l as [|y l IH]; intros acc x Hx; [inversion Hx|].
  cbn [foldl]. apply elem_of_cons in Hx as [->|Hx]; [|apply IH, Hx].
  destruct acc as [a0|]; cbn [min_step].
  - destruct (fold_min_le_acc l (Math_min a0 y)) as (m & Hm & Hle).
    exists m. split; [exact Hm|]. destruct (Math_min_upper a0 y). lra.
  - apply fold_min_le_acc.
Qed.

Lemma fold_max_bound l : ∀ acc x, x ∈ l →
  ∃ m, foldl max_step acc l = Some m ∧ (x <= m)%Q.
Proof.
  induction l as [|y l IH]; intros acc x Hx; [inversion Hx|].
  cbn [foldl]. apply elem_of_cons in Hx as [->|Hx]; [|apply IH, Hx].
  destruct acc as [a0|]; cbn [max_step].
  - destruct (fold_max_ge_acc l (Math_max a0 y)) as (m & Hm & Hle).
    exists m. split; [exact Hm|]. destruct (Math_max_lower a0 y). lra.
  - apply fold_max_ge_acc.
Qed.

(** Every position that the bounding box was computed from lies between
    its origin and the maximum that its width and height were taken from. *)
Lemma bounding_box_contains state p :
  p ∈ visited_positions state →
  let bb := calculateGlobalBoundingBox state in
  ∃ x1 y1, width bb = fl64 (x1 - originX bb) ∧ height bb = fl64 (y1 - originY bb)
    ∧ (originX bb <= px p ∧ px p <= x1)%Q
    ∧ (originY bb <= py p ∧ py p <= y1)%Q.
Proof.
  intros Hp bb. subst bb. unfold calculateGlobalBoundingBox.
  assert (Hx : px p ∈ px <$> visited_positions state)
    by (apply list_elem_of_fmap; eauto).
  assert (Hy : py p ∈ py <$> visited_positions state)
    by (apply list_elem_of_fmap; eauto).
  destruct (fold_min_bound _ None _ Hx) as (x0 & -> & Hx0).
  destruct (fold_min_bound _ None _ Hy) as (y0 & -> & Hy0).
  destruct (fold_max_bound _ None _ Hx) as (x1 & -> & Hx1).
  destruct (fold_max_bound _ None _ Hy) as (y1 & -> & Hy1).
  cbn [originX originY width height]. exists x1, y1.
  split; [reflexivity|]. split; [reflexivity|]. split; split; assumption.
Qed.

Lemma export_usesGridUnits state g ts : usesGridUnits (exportToJSON state g ts) = true.
Proof. reflexivity. Qed.
Lemma export_importGridSize state g ts g' :
  (0 < g)%Q → importGridSize (exportToJSON state g ts) g' = g.
Proof.
  intros Hg. unfold importGridSize, exportToJSON, coordinateSystem, num_or. simpl.
  destruct (Qeq_bool g 0) eqn:E; [|reflexivity].
  apply Qeq_bool_iff in E. lra.
Qed.

Lemma reimport_vertex state g ts g' bb v :
  (0 < g)%Q →
  import_vertex (exportToJSON state g ts) g' (export_vertex bb g v)
  = mkVertex (v_id v)
             ((toGridUnits bb g (v_x v) (v_y v)).1 * g)
             ((toGridUnits bb g (v_x v) (v_y v)).2 * g)
             (v_type v) (v_parentId v).
Proof.
  intros Hg. unfold import_vertex, fromGridUnits.
  rewrite export_usesGridUnits, (export_importGridSize _ _ _ _ Hg). reflexivity.
Qed.

Lemma copy_segments segs :
  map (λ seg, mkSeg (p0 seg) (p1 seg) (p2 seg) (p3 seg)) segs = segs.
Proof. induction segs as [|[] segs IH]; [reflexivity|]. simpl. rewrite IH. reflexivity. Qed.

Lemma reimport_shape state g ts g' s :
  (0 < g)%Q →
  import_shape (exportToJSON state g ts) g' (export_shape g s)
  = Some (reimported_shape g s).
Proof.
  intros Hg. unfold import_shape.
  rewrite export_usesGridUnits, (export_importGridSize _ _ _ _ Hg).
  unfold reimported_shape, export_shape, import_style.
  destruct s as [sid k ids st vis lk md].
  cbn [esh_type esh_id esh_vertexRefs esh_properties esh_style
       es_color es_strokeWidth es_fill es_opacity es_visible es_locked
       s_id s_kind vertexIds style visible locked metadata default].
  assert (Hfill : str_or (default "" (fill st)) "" = default "" (fill st)).
  { unfold str_or.
    destruct (bool_decide_reflect (default "" (fill st) = "")) as [->|]; reflexivity. }
  rewrite Hfill.
  destruct k as [| |r|segs cl|cl]; cbn; try reflexivity.
  rewrite copy_segments. reflexivity.
Qed.

Section Rebuild.
Context {A X V : Type} (m : gmap string A) (e : A → X)
        (key : X → string) (val : X → V).
Hypothesis keyed : ∀ k a, m !! k = Some a → key (e a) = k.

Lemma keys_of_values : key <$> (e <$> (map_to_list m).*2) = (map_to_list m).*1.
Proof.
  apply list_eq. intros i. rewrite !list_lookup_fmap.
  destruct (map_to_list m !! i) as [[k a]|] eqn:E; [|reflexivity]. simpl.
  f_equal. apply keyed, elem_of_map_to_list.
  apply list_elem_of_lookup. eauto.
Qed.

(** A map written out as the list of its values and read back entry by
    entry has the same keys, each bound to the converted value. *)
Lemma rebuild_lookup k :
  foldl (λ acc x, <[key x := val x]> acc) (∅ : gmap string V)
        (e <$> (map_to_list m).*2) !! k
  = (λ a, val (e a)) <$> m !! k.
Proof.
  destruct (m !! k) as [a|] eqn:Hk; simpl.
  - rewrite <- (keyed k a Hk). apply build_lookup_NoDup.
    + rewrite keys_of_values. apply NoDup_fst_map_to_list.
    + apply list_elem_of_fmap. exists a. split; [reflexivity|].
      apply list_elem_of_fmap. exists (k, a). split; [reflexivity|].
      apply elem_of_map_to_list, Hk.
  - destruct (foldl _ _ _ !! k) as [v|] eqn:Hv; [|reflexivity]. exfalso.
    apply build_lookup_Some in Hv as [(x & Hx & Hkey & _)|Hempty].
    + apply list_elem_of_fmap in Hx as (a & -> & Ha).
      apply list_elem_of_fmap in Ha as ([k0 a0] & -> & Hin).
      apply elem_of_map_to_list in Hin. simpl in Hkey.
      rewrite (keyed k0 a0 Hin) in Hkey. congruence.
    + rewrite lookup_empty in Hempty. discriminate.
Qed.
End Rebuild.

Lemma fold_optional {X V} (f : X → option V) (key : V → string) l :
  ∀ m : gmap string V,
  foldl (λ acc x, match f x with
                  | Some v => <[key v := v]> acc
                  | None => acc
                  end) m l
  = foldl (λ acc v, <[key v := v]> acc) m (omap f l).
Proof.
  induction l as [|x l IH]; intros m; [reflexivity|].
  simpl. rewrite IH. destruct (f x); reflexivity.
Qed.

Lemma omap_total {A X V} (e : A → X) (f : X → option V) (h : A → V) (l : list A) :
  (∀ a, f (e a) = Some (h a)) → omap f (e <$> l) = h <$> l.
Proof.
  intros Hf. induction l as [|x l IH]; [reflexivity|].
  rewrite !fmap_cons, <- IH. simpl. rewrite Hf. reflexivity.
Qed.

(** The vertices and shapes that come back from an export. *)
Lemma reimport_vertices_lookup state g ts k :
  (0 < g)%Q → well_keyed state →
  pd_vertices (parseImportData (exportToJSON state g ts) g) !! k
  = (λ v, mkVertex (v_id v)
                   ((toGridUnits (calculateGlobalBoundingBox state) g (v_x v) (v_y v)).1 * g)
                   ((toGridUnits (calculateGlobalBoundingBox state) g (v_x v) (v_y v)).2 * g)
                   (v_type v) (v_parentId v))
    <$> vertices state !! k.
Proof.
  intros Hg (Hkv & _ & _).
  change (pd_vertices (parseImportData (exportToJSON state g ts) g))
    with (foldl (λ acc ev, <[ev_id ev := import_vertex (exportToJSON state g ts) g ev]> acc)
                (∅ : gmap string Vertex)
                (export_vertex (calculateGlobalBoundingBox state) g
                     <$> (map_to_list (vertices state)).*2)).
  rewrite (rebuild_lookup (vertices state)
             (export_vertex (calculateGlobalBoundingBox state) g) ev_id
             (import_vertex (exportToJSON state g ts) g) Hkv).
  destruct (vertices state !! k) as [v|]; [|reflexivity]. simpl.
  f_equal. apply reimport_vertex, Hg.
Qed.

Lemma reimport_shapes_lookup state g ts k :
  (0 < g)%Q → well_keyed state →
  pd_shapes (parseImportData (exportToJSON state g ts) g) !! k
  = reimported_shape g <$> shapes state !! k.
Proof.
  intros Hg (_ & Hks & _).
  change (pd_shapes (parseImportData (exportToJSON state g ts) g))
    with (foldl (λ acc s, match import_shape (exportToJSON state g ts) g s with
                          | Some shape => <[s_id shape := shape]> acc
                          | None => acc
                          end)
                (∅ : gmap string Shape)
                (export_shape g <$> (map_to_list (shapes state)).*2)).
  rewrite fold_optional.
  rewrite (omap_total (export_shape g) _ (reimported_shape g));
    [|intros s; apply reimport_shape, Hg].
  rewrite (rebuild_lookup (shapes state) (reimported_shape g) s_id (λ x, x) Hks).
  destruct (shapes state !! k); reflexivity.
Qed.

(** C1, as the code has it.  For a grid size that is a normal double (at
    least 2^-1022) and a document whose vertices and shapes are stored under
    their own ids, importing the export gives back the same vertex ids with
    their type and parent.  The position that comes back is the one relative
    to the bounding-box origin of the export (a translation by minus the
    origin): for a vertex at most 2^30 grid units from the origin, each
    coordinate is within a hundredth of the grid size of the relative one,
    and so is the nearest double of the coordinate, which is the number the
    code stores.  The same shape ids come back with their kind, vertex list,
    segments, closed flag, visibility and lock; a circle radius between half
    a hundredth of the grid size and 2^30 grid units is kept within a
    hundredth of the grid size.  The style comes back with its defaults
    filled in, and unchanged when it was complete. *)
Theorem export_import_round_trip state g ts :
  (pow2 (-1022) <= g)%Q →
  well_keyed state →
  (∀ k v, vertices state !! k = Some v →
     ∃ v', pd_vertices (parseImportData (exportToJSON state g ts) g) !! k = Some v'
           ∧ v_id v' = v_id v ∧ v_type v' = v_type v ∧ v_parentId v' = v_parentId v
           ∧ ((v_x v - originX (calculateGlobalBoundingBox state) <= pow2 30 * g)%Q →
              (Qabs (v_x v' - (v_x v - originX (calculateGlobalBoundingBox state)))
               <= (1 # 100) * g)%Q
              ∧ (Qabs (fl64 (v_x v') - (v_x v - originX (calculateGlobalBoundingBox state)))
                 <= (1 # 100) * g)%Q)
           ∧ ((v_y v - originY (calculateGlobalBoundingBox state) <= pow2 30 * g)%Q →
              (Qabs (v_y v' - (v_y v - originY (calculateGlobalBoundingBox state)))
               <= (1 # 100) * g)%Q
              ∧ (Qabs (fl64 (v_y v') - (v_y v - originY (calculateGlobalBoundingBox state)))
                 <= (1 # 100) * g)%Q))
  ∧ (∀ k, vertices state !! k = None →
       pd_vertices (parseImportData (exportToJSON state g ts) g) !! k = None)
  ∧ (∀ k s, shapes state !! k = Some s →
       ∃ s', pd_shapes (parseImportData (exportToJSON state g ts) g) !! k = Some s'
             ∧ s_id s' = s_id s ∧ vertexIds s' = vertexIds s
             ∧ visible s' = visible s ∧ locked s' = locked s
             ∧ match s_kind s with
               | circle r =>
                   ∃ r', s_kind s' = circle r'
                         ∧ ((g / 200 <= r)%Q → (r <= pow2 30 * g)%Q →
                            (Qabs (r' - r) <= (1 # 100) * g)%Q
                            ∧ (Qabs (fl64 r' - r) <= (1 # 100) * g)%Q)
               | other => s_kind s' = other
               end
             ∧ style s'
               = mkStyle (str_or (color (style s)) "#000000")
                         (num_or (strokeWidth (style s)) 2)
                         (Some (default "" (fill (style s))))
                         (Some (default 1%Q (opacity (style s))))
             ∧ (style_complete (style s) → style s' = style s))
  ∧ (∀ k, shapes state !! k = None →
       pd_shapes (parseImportData (exportToJSON state g ts) g) !! k = None).
Proof.
  intros Hg0 Hwk. destruct (normal_grid_size g Hg0) as [Hg _].
  split; [|split; [|split]].
  - intros k v Hv. rewrite (reimport_vertices_lookup _ _ _ _ Hg Hwk), Hv.
    eexists. split; [reflexivity|]. cbn [v_id v_x v_y v_type v_parentId].
    assert (Hp : mkPos (v_x v) (v_y v) ∈ visited_positions state).
    { unfold visited_positions. apply elem_of_app. left.
      apply list_elem_of_fmap. exists v. split; [reflexivity|].
      apply list_elem_of_fmap. exists (k, v). split; [reflexivity|].
      apply elem_of_map_to_list, Hv. }
    destruct (bounding_box_contains state _ Hp) as (x1 & y1 & _ & _ & [Hx _] & [Hy _]).
    cbn [px py] in Hx, Hy. unfold toGridUnits. cbn [fst snd].
    split; [reflexivity|]. split; [reflexivity|]. split; [reflexivity|].
    split; intros Hr; apply reimport_coordinate; try assumption; lra.
  - intros k Hv. rewrite (reimport_vertices_lookup _ _ _ _ Hg Hwk), Hv. reflexivity.
  - intros k s Hs. rewrite (reimport_shapes_lookup _ _ _ _ Hg Hwk), Hs.
    exists (reimported_shape g s). split; [reflexivity|].
    destruct Hwk as (_ & _ & Hcircle).
    split; [reflexivity|]. split; [|split; [reflexivity|split; [reflexivity|split; [|split]]]].
    + unfold reimported_shape. cbn [vertexIds].
      destruct (s_kind s) as [| |r|segs cl|cl] eqn:Hk; try reflexivity.
      pose proof (Hcircle k s r Hs Hk) as Hlen.
      destruct (vertexIds s) as [|c [|c' ids]]; try discriminate. reflexivity.
    + unfold reimported_shape. cbn [s_kind].
      destruct (s_kind s) as [| |r|segs cl|cl]; try reflexivity.
      eexists. split; [reflexivity|]. intros Hr Hr'.
      unfold num_or. rewrite (round2_positive g r Hg Hr).
      apply reimport_length; [exact Hg0| |exact Hr'].
      assert (Eg : (g / 200 == (1 # 200) * g)%Q) by (field; lra). lra.
    + reflexivity.
    + intros (Hcolor & Hwidth & [f Hfill] & [o Hop]).
      unfold reimported_shape. cbn [style]. destruct (style s) as [c w fl op].
      cbn [color strokeWidth fill opacity] in *.
      subst fl op. cbn [default]. unfold str_or, num_or.
      rewrite bool_decide_eq_false_2 by exact Hcolor.
      destruct (Qeq_bool w 0) eqn:E; [|reflexivity].
      apply Qeq_bool_iff in E. contradiction.
  - intros k Hs. rewrite (reimport_shapes_lookup _ _ _ _ Hg Hwk), Hs. reflexivity.
Qed.

Lemma line_state_well_keyed : well_keyed line_state.
Proof.
  split; [|split].
  - intros k v H. unfold line_state, vertices in H.
    apply lookup_insert_Some in H as [[<- <-]|[_ H]]; [reflexivity|].
    apply lookup_singleton_Some in H as [<- <-]. reflexivity.
  - intros k s H. unfold line_state, shapes in H.
    apply lookup_singleton_Some in H as [<- <-]. reflexivity.
  - intros k s r H Hk. unfold line_state, shapes in H.
    apply lookup_singleton_Some in H as [_ <-]. discriminate Hk.
Qed.

Lemma export_import_round_trip_witness :
  ∃ v', pd_vertices (parseImportData (exportToJSON line_state 20 "") 20) !! "b" = Some v'
        ∧ (Qabs (v_x v' - (100 - originX (calculateGlobalBoundingBox line_state)))
           <= (1 # 100) * 20)%Q
        ∧ (Qabs (fl64 (v_x v') - (100 - originX (calculateGlobalBoundingBox line_state)))
           <= (1 # 100) * 20)%Q.
Proof.
  destruct (export_import_round_trip line_state 20 "") as (Hv & _);
    [vm_compute; discriminate|exact line_state_well_keyed|].
  destruct (Hv "b" (mkVertex "b" 100 0 anchor None) eq_refl)
    as (v' & Hlook & _ & _ & _ & Hx & _).
  exists v'. split; [exact Hlook|]. apply Hx. vm_compute. discriminate.
Defined.

(** A decimal tie.  With grid size 20 a coordinate 11.5 away from the
    origin is 0.575 grid units; in doubles (11.5 / 20) * 100 is just below
    57.5, so that the export holds the double of 0.57.  The import turns it
    into 11.399999999999999, which is more than half a hundredth of the grid
    size, and less than a hundredth, away from 11.5. *)
Lemma export_of_decimal_tie :
  fl64 (fl64 ((23 # 2) / 20) * 100) = (8092405580431359 # 140737488355328)%Q
  ∧ (fl64 (fl64 ((23 # 2) / 20) * 100) < 57 + (1 # 2))%Q
  ∧ (toGridUnits (mkBB 0 0 0 0) 20 (23 # 2) 0).1 = fl64 (57 # 100)
  ∧ fl64 ((toGridUnits (mkBB 0 0 0 0) 20 (23 # 2) 0).1 * 20)
    = (1604407367250739 # 140737488355328)%Q
  ∧ ((1 # 200) * 20
     < Qabs (fl64 ((toGridUnits (mkBB 0 0 0 0) 20 (23 # 2) 0).1 * 20) - (23 # 2)))%Q
  ∧ (Qabs (fl64 ((toGridUnits (mkBB 0 0 0 0) 20 (23 # 2) 0).1 * 20) - (23 # 2))
     <= (1 # 100) * 20)%Q.
Proof.
  split; [vm_compute; reflexivity|]. split; [vm_compute; reflexivity|].
  split; [vm_compute; reflexivity|]. split; [vm_compute; reflexivity|].
  split; [vm_compute; reflexivity|]. vm_compute. discriminate.
Qed.

(** C1 as stated fails: the only vertex of this document is at (100, 100);
    exported and imported again with grid size 20 it is at (0, 0), which is
    100 away and not within a hundredth of the grid size. *)
Lemma round_trip_moves_to_origin :
  vertices offset_state !! "a" = Some (mkVertex "a" 100 100 anchor None)
  ∧ ∃ v', pd_vertices (parseImportData (exportToJSON offset_state 20 "") 20) !! "a"
          = Some v'
          ∧ (v_x v' == 0)%Q ∧ (v_y v' == 0)%Q
          ∧ ¬ (Qabs (v_x v' - 100) <= (1 # 100) * 20)%Q.
Proof.
  split; [reflexivity|].
  eexists. split; [vm_compute; reflexivity|].
  split; [reflexivity|]. split; [reflexivity|].
  intros H. vm_compute in H. apply H. reflexivity.
Qed.

(** ** Scenarios of the specification *)

(** Vertices A(0, 0) and B(100, 0) joined by a line, exported with grid
    size 20: the positions are (0, 0) and (5, 0). *)
Example scenario_export_line :
  (λ ev, (ev_id ev, Qred (ev_position ev).1, Qred (ev_position ev).2))
    <$> me_vertices (exportToJSON line_state 20 "")
  = [("a", 0%Q, 0%Q); ("b", 5%Q, 0%Q)].
Proof. vm_compute. reflexivity. Qed.

(** A circle recorded at (0, 0) with radius 10 and at (50, 50) with radius
    20, interpolated at one half: centre (25, 25), radius 15. *)
Example scenario_interpolate_half :
  (λ v, (Qred (v_x v), Qred (v_y v)))
    <$> vertices (appReducer (mkEnv "" 0) two_frame_state (INTERPOLATE_FRAMES 0 1 0.5)) !! "c"
  = Some (25%Q, 25%Q)
  ∧ ∃ r, s_kind <$> shapes (appReducer (mkEnv "" 0) two_frame_state
                                       (INTERPOLATE_FRAMES 0 1 0.5)) !! "C"
         = Some (circle r)
         ∧ (r == 15)%Q.
Proof.
  split; [vm_compute; reflexivity|].
  eexists. split; [vm_compute; reflexivity|]. reflexivity.
Qed.

(** UNDO with an empty [past] leaves the state as it is. *)
Example scenario_undo_empty_past env : appReducer env initialState UNDO = initialState.
Proof. reflexivity. Qed.

(** * Further properties of the reducer *)

(** ** Undo and redo *)

Lemma slice_last_S_snoc {A} (n : nat) (l : list A) x :
  slice_last (S n) (l ++ [x]) = slice_last n l ++ [x].
Proof.
  unfold slice_last. rewrite length_app. simpl.
  replace (length l + 1 - S n)%nat with (length l - n)%nat by lia.
  rewrite drop_app_le by lia. reflexivity.
Qed.

Lemma state_eta s :
  mkState (vertices s) (shapes s) (groups s) (frames s) (currentFrameIndex s)
          (isRecording s) (selectedVertexIds s) (selectedShapeIds s)
          (hoveredVertexId s) (hoveredShapeId s) (history s) = s.
Proof. destruct s; reflexivity. Qed.

Lemma undo_then_redo e1 e2 s :
  past (history s) ≠ [] →
  appReducer e2 (appReducer e1 s UNDO) REDO = s.
Proof.
  intros Hp. destruct s as [vs sh gs fs cfi rec sv ss hv hs [p f]].
  cbn in Hp. destruct p as [|[xv xs] p _] using rev_ind; [done|].
  cbn. rewrite last_snoc. cbn. rewrite removelast_last. reflexivity.
Qed.

(** X1.  A structural edit followed by UNDO brings back the vertices and the
    shapes of before the edit and leaves everything else (groups, frames,
    selection, hovering) as the edit left it; a REDO after that gives the
    state after the edit again. *)
Theorem edit_then_undo_redo env e1 e2 s a :
  structural a = true →
  let s1 := appReducer env s a in
  let s2 := appReducer e1 s1 UNDO in
  vertices s2 = vertices s ∧ shapes s2 = shapes s
  ∧ groups s2 = groups s1 ∧ frames s2 = frames s1
  ∧ currentFrameIndex s2 = currentFrameIndex s1
  ∧ selectedVertexIds s2 = selectedVertexIds s1
  ∧ selectedShapeIds s2 = selectedShapeIds s1
  ∧ appReducer e2 s2 REDO = s1.
Proof.
  intros Ha s1 s2.
  assert (Hh : history s1 = saveHistory s) by (apply structural_history; exact Ha).
  assert (Hp : past (history s1)
               = slice_last 49 (past (history s)) ++ [mkSnap (vertices s) (shapes s)]).
  { rewrite Hh. unfold saveHistory. cbn [past]. apply slice_last_S_snoc. }
  destruct (undo_step e1 s1 _ _ Hp) as (Hv & Hs & _).
  fold s2 in Hv, Hs. cbn in Hv, Hs.
  repeat split; try assumption.
  - subst s2. cbn. rewrite Hp, last_snoc. reflexivity.
  - subst s2. cbn. rewrite Hp, last_snoc. reflexivity.
  - subst s2. cbn. rewrite Hp, last_snoc. reflexivity.
  - subst s2. cbn. rewrite Hp, last_snoc. reflexivity.
  - subst s2. cbn. rewrite Hp, last_snoc. reflexivity.
  - apply undo_then_redo. rewrite Hp. intros E. apply app_eq_nil in E as [_ E]. discriminate.
Qed.

Lemma edit_then_undo_redo_witness :
  let s1 := appReducer (mkEnv "" 0) line_state (DELETE_VERTEX "a") in
  let s2 := appReducer (mkEnv "" 0) s1 UNDO in
  vertices s2 = vertices line_state ∧ shapes s2 = shapes line_state
  ∧ groups s2 = groups s1 ∧ frames s2 = frames s1
  ∧ currentFrameIndex s2 = currentFrameIndex s1
  ∧ selectedVertexIds s2 = selectedVertexIds s1
  ∧ selectedShapeIds s2 = selectedShapeIds s1
  ∧ appReducer (mkEnv "" 0) s2 REDO = s1.
Proof.
  exact (edit_then_undo_redo (mkEnv "" 0) (mkEnv "" 0) (mkEnv "" 0) line_state
           (DELETE_VERTEX "a") eq_refl).
Defined.

(** X2.  UNDO and REDO are inverse to each other on the whole state: with a
    snapshot to go back to, UNDO followed by REDO changes nothing, and with a
    snapshot to go forward to, REDO followed by UNDO changes nothing. *)
Theorem undo_redo_inverse e1 e2 s :
  (past (history s) ≠ [] → appReducer e2 (appReducer e1 s UNDO) REDO = s)
  ∧ (future (history s) ≠ [] → appReducer e2 (appReducer e1 s REDO) UNDO = s).
Proof.
  destruct s as [vs sh gs fs cfi rec sv ss hv hs [p f]]. split.
  - intros Hp. cbn in Hp. destruct p as [|[xv xs] p _] using rev_ind; [done|].
    cbn. rewrite last_snoc. cbn. rewrite removelast_last. reflexivity.
  - intros Hf. cbn in Hf. destruct f as [|[xv xs] f]; [done|].
    cbn. rewrite last_snoc. cbn. rewrite removelast_last. reflexivity.
Qed.

Lemma undo_redo_inverse_witness :
  let s := appReducer (mkEnv "" 0) line_state (DELETE_VERTEX "a") in
  let s0 := appReducer (mkEnv "" 0) s UNDO in
  appReducer (mkEnv "" 0) (appReducer (mkEnv "" 0) s UNDO) REDO = s
  ∧ appReducer (mkEnv "" 0) (appReducer (mkEnv "" 0) s0 REDO) UNDO = s0.
Proof.
  split.
  - apply (proj1 (undo_redo_inverse (mkEnv "" 0) (mkEnv "" 0)
                    (appReducer (mkEnv "" 0) line_state (DELETE_VERTEX "a")))).
    discriminate.
  - apply (proj2 (undo_redo_inverse (mkEnv "" 0) (mkEnv "" 0)
                    (appReducer (mkEnv "" 0)
                       (appReducer (mkEnv "" 0) line_state (DELETE_VERTEX "a")) UNDO))).
    discriminate.
Defined.

(** X3.  Only the structural edits, UNDO, REDO and CLEAR_ALL touch the
    history: moving a vertex, updating a shape, a batch update, selecting,
    grouping and every frame action leave [past] and [future] as they
    are. *)
Theorem only_edits_touch_history env s a :
  structural a = false → history_action a = false →
  history (appReducer env s a) = history s.
Proof.
  intros Hs Hh.
  destruct a; try discriminate Hs; try discriminate Hh;
    cbn -[Nat.leb Nat.ltb out_of_range] in *; try reflexivity.
  - destruct (vertices s !! id); reflexivity.
  - destruct (shapes s !! id); reflexivity.
  - destruct additive; reflexivity.
  - destruct additive; reflexivity.
  - destruct (Nat.ltb_spec (length vertexIds0) 2) as [Hlt|Hge]; [reflexivity|].
    apply Nat.leb_gt in Hs. lia.
  - destruct (out_of_range _ _); reflexivity.
  - destruct (out_of_range _ _); reflexivity.
  - destruct (out_of_range _ _); reflexivity.
  - destruct (out_of_range _ _); [reflexivity|].
    destruct (js_index _ _); reflexivity.
  - destruct (js_index _ _); [|reflexivity].
    destruct (js_index _ _); reflexivity.
  - destruct (out_of_range _ _); reflexivity.
Qed.

Lemma only_edits_touch_history_witness :
  history (run initialState placed_and_dragged)
  = history (run initialState (take 1 placed_and_dragged)).
Proof.
  exact (only_edits_touch_history (mkEnv "" 0)
           (run initialState (take 1 placed_and_dragged))
           (UPDATE_VERTEX "a" (mkVU None (Some 10%Q) (Some 20%Q) None None))
           eq_refl eq_refl).
Defined.

(** X4.  A new structural edit discards what could be redone: REDO right
    after it changes nothing. *)
Theorem edit_discards_redo env e1 s a :
  structural a = true →
  appReducer e1 (appReducer env s a) REDO = appReducer env s a.
Proof.
  intros Ha. cbn [appReducer].
  rewrite (structural_history env s a Ha). reflexivity.
Qed.

Lemma edit_discards_redo_witness :
  appReducer (mkEnv "" 0)
    (appReducer (mkEnv "" 0) line_state (DELETE_VERTEX "a")) REDO
  = appReducer (mkEnv "" 0) line_state (DELETE_VERTEX "a").
Proof.
  exact (edit_discards_redo (mkEnv "" 0) (mkEnv "" 0) line_state (DELETE_VERTEX "a")
           eq_refl).
Defined.

(** ** Frames: the current index, APPLY_FRAME and INTERPOLATE_FRAMES *)

Lemma in_range {A} (l : list A) (i : Z) :
  out_of_range l i = false → (0 ≤ i < Z.of_nat (length l))%Z.
Proof. unfold out_of_range. intros H. apply orb_false_iff in H as [H1 H2]. lia. Qed.

Lemma reducer_frame_index env s a :
  frame_index_valid s → frame_index_valid (appReducer env s a).
Proof.
  unfold frame_index_valid. intros [Hpos Hzero].
  destruct a; cbn -[Nat.leb Nat.ltb out_of_range Z.of_nat] in *;
    try (split; assumption).
  - destruct (vertices s !! id); split; assumption.
  - destruct (shapes s !! id); split; assumption.
  - destruct (shapes s !! id) as [[? [] ? ? ? ? ?]|]; split; assumption.
  - destruct additive; split; assumption.
  - destruct additive; split; assumption.
  - destruct (length vertexIds0 <? 2)%nat; split; assumption.
  - split; intros; lia.
  - destruct (out_of_range _ _); [split; assumption|].
    cbn -[Z.of_nat]. rewrite length_alter. split; assumption.
  - destruct (out_of_range (frames s) frameIndex) eqn:Hr; [split; assumption|].
    apply in_range in Hr.
    cbn -[Z.of_nat]. rewrite length_delete by (apply lookup_lt_is_Some; lia).
    split; intros; lia.
  - destruct (out_of_range (frames s) frameIndex) eqn:Hr; [split; assumption|].
    apply in_range in Hr. cbn -[Z.of_nat]. split; intros; lia.
  - rewrite length_app. cbn [length]. split; intros; lia.
  - destruct (out_of_range (frames s) frameIndex) eqn:Hr; [split; assumption|].
    apply in_range in Hr.
    destruct (js_index _ _); [|split; assumption].
    cbn -[Z.of_nat]. split; intros; lia.
  - destruct (js_index _ _); [|split; assumption].
    destruct (js_index _ _); split; assumption.
  - destruct (last _); split; assumption.
  - destruct (future _); split; assumption.
  - split; intros; lia.
  - destruct (out_of_range _ _); [split; assumption|].
    cbn -[Z.of_nat]. rewrite length_alter. split; assumption.
Qed.

(** X5.  In every state a session reaches, the current frame index points
    at an existing frame whenever the document has frames; with no frame it
    is 0 or -1. *)
Theorem current_frame_index_valid acts : frame_index_valid (run initialState acts).
Proof.
  induction acts as [|ea acts IH] using rev_ind.
  - split; cbn; intros; lia.
  - rewrite run_snoc. apply reducer_frame_index, IH.
Qed.

Lemma apply_frame_vertex_twice f id v :
  apply_frame_vertex f id (apply_frame_vertex f id v) = apply_frame_vertex f id v.
Proof. unfold apply_frame_vertex. destruct (f_vertices f !! id); reflexivity. Qed.

Lemma apply_frame_shape_twice f id s :
  apply_frame_shape f id (apply_frame_shape f id s) = apply_frame_shape f id s.
Proof.
  unfold apply_frame_shape.
  destruct (f_shapeProperties f !! id) as [[[r|]]|]; try reflexivity;
    destruct (s_kind s) eqn:Hk; cbn; rewrite ?Hk; reflexivity.
Qed.

Lemma imap_twice {V} (g : string → V → V) (m : gmap string V) :
  (∀ k x, g k (g k x) = g k x) →
  map_imap (λ i x, Some (g i x)) (map_imap (λ i x, Some (g i x)) m)
  = map_imap (λ i x, Some (g i x)) m.
Proof.
  intros Hg. apply map_eq. intros k. rewrite !map_lookup_imap.
  destruct (m !! k); cbn; [rewrite Hg|]; reflexivity.
Qed.

(** X6.  APPLY_FRAME is idempotent: applying the same frame a second time
    changes nothing, whatever the index. *)
Theorem apply_frame_idempotent e1 e2 s i :
  appReducer e2 (appReducer e1 s (APPLY_FRAME i)) (APPLY_FRAME i)
  = appReducer e1 s (APPLY_FRAME i).
Proof.
  cbn [appReducer].
  destruct (out_of_range (frames s) i) eqn:Hr; [rewrite Hr; reflexivity|].
  destruct (js_index (frames s) i) as [f|] eqn:Hf; [|rewrite Hr, Hf; reflexivity].
  reduce_state. rewrite Hr, Hf.
  unfold set_currentFrameIndex, set_shapes, set_vertices. cbn.
  rewrite (imap_twice (apply_frame_vertex f)) by apply apply_frame_vertex_twice.
  rewrite (imap_twice (apply_frame_shape f)) by apply apply_frame_shape_twice.
  reflexivity.
Qed.

(** *** Recording a frame and coming back to it *)

Lemma pointwise_refl {V} (R : V → V → Prop) (m : gmap string V) :
  (∀ x, R x x) → pointwise R m m.
Proof. intros HR k. destruct (m !! k); auto. Qed.

Lemma pointwise_insert {V} (R : V → V → Prop) (m m' : gmap string V) k x' y :
  pointwise R m m' → m' !! k = Some x' → (∀ x, R x x' → R x y) →
  pointwise R m (<[k := y]> m').
Proof.
  intros Hp Hk HR j. specialize (Hp j).
  destruct (decide (k = j)) as [<-|Hne].
  - rewrite lookup_insert_eq. rewrite Hk in Hp.
    destruct (m !! k); [apply HR, Hp|exact Hp].
  - rewrite lookup_insert_ne by exact Hne. exact Hp.
Qed.

Lemma pointwise_imap {V} (R : V → V → Prop) (g : string → V → V)
    (m m' : gmap string V) :
  pointwise R m m' → (∀ k x x', R x x' → R x (g k x')) →
  pointwise R m (map_imap (λ i x, Some (g i x)) m').
Proof.
  intros Hp HR k. specialize (Hp k). rewrite map_lookup_imap.
  destruct (m !! k), (m' !! k); cbn; auto.
Qed.

Lemma moved_vertex_refl v : moved_vertex v v.
Proof. exists (v_x v), (v_y v). destruct v; reflexivity. Qed.

Lemma moved_vertex_again v v' x y : moved_vertex v v' → moved_vertex v (with_pos x y v').
Proof. intros (x0 & y0 & ->). exists x, y. reflexivity. Qed.

Lemma moved_vertex_update v v' u :
  position_only u = true → moved_vertex v v' → moved_vertex v (apply_vertex_updates v' u).
Proof.
  unfold position_only. intros Hu (x0 & y0 & ->).
  destruct u as [[?|] ux uy [?|] [?|]]; try discriminate Hu.
  exists (default x0 ux), (default y0 uy). reflexivity.
Qed.

Lemma moved_shape_radius s s' r0 r :
  s_kind s' = circle r0 → moved_shape s s' → moved_shape s (with_kind (circle r) s').
Proof.
  intros Hk [->|(r1 & r2 & Hs & ->)].
  - right. eauto.
  - right. exists r1, r. split; [exact Hs|reflexivity].
Qed.

Lemma moved_shape_update s s' u :
  radius_only u = true → moved_shape s s' → moved_shape s (apply_shape_updates s' u).
Proof.
  unfold radius_only. intros Hu Hm.
  destruct u as [[?|] [?|] [?|] [?|] [?|] [?|] ur [?|] [?|]]; try discriminate Hu.
  destruct (s_kind s') as [| |r0|segs cl|cl] eqn:Hk.
  1,2,4,5: replace (apply_shape_updates s' _) with s'
    by (destruct s'; cbn in *; rewrite Hk; reflexivity); exact Hm.
  destruct ur as [r|].
  - replace (apply_shape_updates s' _) with (with_kind (circle r) s')
      by (destruct s'; cbn in *; rewrite Hk; reflexivity).
    apply (moved_shape_radius _ _ r0); assumption.
  - replace (apply_shape_updates s' _) with s'
      by (destruct s'; cbn in *; rewrite Hk; reflexivity).
    exact Hm.
Qed.

Lemma moved_batch_vertices us : ∀ m m',
  forallb (λ u, position_only u.2) us = true →
  pointwise moved_vertex m m' → pointwise moved_vertex m (batch_vertices us m').
Proof.
  induction us as [|u us IH]; intros m m' Hall Hp; [exact Hp|].
  cbn [forallb] in Hall. apply andb_true_iff in Hall as [Hu Hall].
  unfold batch_vertices. cbn [foldl]. fold (batch_vertices us).
  apply IH; [exact Hall|].
  destruct (m' !! u.1) eqn:Hl; [|exact Hp].
  apply (pointwise_insert _ _ _ _ _ _ Hp Hl).
  intros x Hx. apply moved_vertex_update; assumption.
Qed.

Lemma moved_batch_shapes us : ∀ m m',
  forallb (λ u, radius_only u.2) us = true →
  pointwise moved_shape m m' → pointwise moved_shape m (batch_shapes us m').
Proof.
  induction us as [|u us IH]; intros m m' Hall Hp; [exact Hp|].
  cbn [forallb] in Hall. apply andb_true_iff in Hall as [Hu Hall].
  unfold batch_shapes. cbn [foldl]. fold (batch_shapes us).
  apply IH; [exact Hall|].
  destruct (m' !! u.1) eqn:Hl; [|exact Hp].
  apply (pointwise_insert _ _ _ _ _ _ Hp Hl).
  intros x Hx. apply moved_shape_update; assumption.
Qed.

Lemma moved_apply_frame_shape f k s s' :
  moved_shape s s' → moved_shape s (apply_frame_shape f k s').
Proof.
  intros Hm. unfold apply_frame_shape.
  destruct (f_shapeProperties f !! k) as [[[r|]]|]; try exact Hm.
  destruct (s_kind s') eqn:Hk; try exact Hm.
  apply (moved_shape_radius _ _ _ _ Hk Hm).
Qed.

Lemma moved_interpolate_shape f g t k s s' :
  moved_shape s s' → moved_shape s (interpolate_shape f g t k s').
Proof.
  intros Hm. unfold interpolate_shape.
  destruct (s_kind s') eqn:Hk; try exact Hm.
  destruct (f_shapeProperties f !! k ≫= sp_radius); [|exact Hm].
  destruct (f_shapeProperties g !! k ≫= sp_radius); [|exact Hm].
  apply (moved_shape_radius _ _ _ _ Hk Hm).
Qed.

(** What the motions keep: the recorded frame stays at its index, and the
    live vertices and shapes are those of the recorded state, moved. *)
Lemma motion_keeps env s0 f idx s a :
  motion a = true →
  frames s !! idx = Some f
  ∧ pointwise moved_vertex (vertices s0) (vertices s)
  ∧ pointwise moved_shape (shapes s0) (shapes s) →
  let s' := appReducer env s a in
  frames s' !! idx = Some f
  ∧ pointwise moved_vertex (vertices s0) (vertices s')
  ∧ pointwise moved_shape (shapes s0) (shapes s').
Proof.
  intros Ha (Hf & Hv & Hs).
  destruct a; try discriminate Ha; cbn -[out_of_range] in *; auto.
  - destruct (vertices s !! id) eqn:Hl; [|auto].
    cbn. repeat split; try assumption.
    apply (pointwise_insert _ _ _ _ _ _ Hv Hl).
    intros x Hx. apply moved_vertex_update; assumption.
  - destruct (shapes s !! id) eqn:Hl; [|auto].
    cbn. repeat split; try assumption.
    apply (pointwise_insert _ _ _ _ _ _ Hs Hl).
    intros x Hx. apply moved_shape_update; assumption.
  - destruct additive; auto.
  - destruct additive; auto.
  - destruct (out_of_range _ _); auto.
  - repeat split; try assumption.
    apply lookup_app_l_Some, Hf.
  - destruct (out_of_range _ _); [auto|].
    destruct (js_index _ _) as [g|]; [|auto].
    cbn. repeat split; try assumption.
    + apply pointwise_imap; [exact Hv|].
      intros k x x' Hx. unfold apply_frame_vertex.
      destruct (f_vertices g !! k); [apply moved_vertex_again|]; exact Hx.
    + apply pointwise_imap; [exact Hs|].
      intros k x x' Hx. apply moved_apply_frame_shape, Hx.
  - destruct (js_index _ _) as [g|]; [|auto].
    destruct (js_index _ _) as [h|]; [|auto].
    cbn. repeat split; try assumption.
    + apply pointwise_imap; [exact Hv|].
      intros k x x' Hx. unfold interpolate_vertex.
      destruct (f_vertices g !! k); [|exact Hx].
      destruct (f_vertices h !! k); [apply moved_vertex_again|]; exact Hx.
    + apply pointwise_imap; [exact Hs|].
      intros k x x' Hx. apply moved_interpolate_shape, Hx.
  - apply andb_true_iff in Ha as [Hvu Hsu].
    repeat split; try assumption.
    + apply moved_batch_vertices; assumption.
    + apply moved_batch_shapes; assumption.
Qed.

Lemma motions_keep s0 f idx acts : ∀ s,
  Forall (λ ea, motion ea.2 = true) acts →
  frames s !! idx = Some f
  ∧ pointwise moved_vertex (vertices s0) (vertices s)
  ∧ pointwise moved_shape (shapes s0) (shapes s) →
  frames (run s acts) !! idx = Some f
  ∧ pointwise moved_vertex (vertices s0) (vertices (run s acts))
  ∧ pointwise moved_shape (shapes s0) (shapes (run s acts)).
Proof.
  induction acts as [|ea acts IH] using rev_ind; intros s Hall Hs; [exact Hs|].
  apply Forall_app in Hall as [Hacts Hea]. rewrite Forall_singleton in Hea.
  rewrite run_snoc. apply motion_keeps; [exact Hea|]. apply IH; assumption.
Qed.

(** X7.  A recorded frame can always be come back to: after RECORD_FRAME,
    whatever drags, radius changes, selections, playback steps and further
    recordings follow, APPLY_FRAME at the index of the recorded frame gives
    back exactly the vertices and shapes that were recorded. *)
Theorem record_then_apply_restores env e s name acts :
  Forall (λ ea, motion ea.2 = true) acts →
  let s1 := appReducer env s (RECORD_FRAME name) in
  let s2 := run s1 acts in
  let s3 := appReducer e s2 (APPLY_FRAME (Z.of_nat (length (frames s)))) in
  vertices s3 = vertices s ∧ shapes s3 = shapes s
  ∧ currentFrameIndex s3 = Z.of_nat (length (frames s)).
Proof.
  intros Hall s1 s2 s3.
  set (f := mkFrame (env_id env)
              (str_or (default "" name)
                 ("Frame " +:+ pretty (length (frames s) + 1)%nat))
              (capture_positions (vertices s)) (capture_properties (shapes s))
              (env_now env)).
  destruct (motions_keep s f (length (frames s)) acts s1 Hall) as (Hf & Hv & Hs).
  { subst s1. cbn. repeat split.
    - rewrite lookup_app_r by lia. rewrite Nat.sub_diag. reflexivity.
    - apply pointwise_refl, moved_vertex_refl.
    - apply pointwise_refl. intros x. left. reflexivity. }
  fold s2 in Hf, Hv, Hs.
  assert (Hr : out_of_range (frames s2) (Z.of_nat (length (frames s))) = false).
  { apply out_of_range_false. apply lookup_lt_Some in Hf. lia. }
  assert (Hj : js_index (frames s2) (Z.of_nat (length (frames s))) = Some f).
  { unfold js_index. destruct (Z.ltb_spec (Z.of_nat (length (frames s))) 0); [lia|].
    rewrite Nat2Z.id. exact Hf. }
  subst s3. cbn [appReducer]. rewrite Hr, Hj. cbn. repeat split.
  - apply map_eq. intros k. rewrite map_lookup_imap. specialize (Hv k).
    destruct (vertices s !! k) as [v|] eqn:Hk, (vertices s2 !! k) as [v'|];
      try contradiction; [|reflexivity].
    cbn. unfold apply_frame_vertex, f. cbn [f_vertices].
    unfold capture_positions. rewrite lookup_fmap, Hk. cbn.
    destruct Hv as (x & y & ->). destruct v; reflexivity.
  - apply map_eq. intros k. rewrite map_lookup_imap. specialize (Hs k).
    destruct (shapes s !! k) as [x|] eqn:Hk, (shapes s2 !! k) as [x'|];
      try contradiction; [|reflexivity].
    cbn. unfold apply_frame_shape, f. cbn [f_shapeProperties].
    unfold capture_properties. rewrite lookup_omap, Hk. cbn.
    destruct Hs as [->|(r & r' & Hkind & ->)].
    + destruct (s_kind x) eqn:Hkx; try reflexivity.
      destruct x; cbn in *. rewrite Hkx. reflexivity.
    + rewrite Hkind. cbn. destruct x; cbn in *. rewrite Hkind. reflexivity.
Qed.

Lemma record_then_apply_restores_witness :
  let s1 := appReducer (mkEnv "f1" 0) line_state (RECORD_FRAME None) in
  let s2 := run s1 moves_after_recording in
  let s3 := appReducer (mkEnv "" 0) s2 (APPLY_FRAME 0) in
  vertices s3 = vertices line_state ∧ shapes s3 = shapes line_state
  ∧ currentFrameIndex s3 = 0%Z.
Proof.
  apply (record_then_apply_restores (mkEnv "f1" 0) (mkEnv "" 0) line_state None
           moves_after_recording).
  repeat constructor.
Defined.

(** *** Interpolated positions stay between the recorded ones *)




(** ** Placing and deleting *)

(** X9.  In a document whose shapes refer to existing vertices, placing a
    vertex under an unused id and deleting it again gives back the vertices
    and the shapes of before: the deletion cascades to no shape. *)
Theorem add_then_delete_vertex e1 e2 s v :
  vertices s !! v_id v = None →
  refs_exist (vertices s) (shapes s) →
  let s' := appReducer e2 (appReducer e1 s (ADD_VERTEX v)) (DELETE_VERTEX (v_id v)) in
  vertices s' = vertices s ∧ shapes s' = shapes s
  ∧ selectedVertexIds s' = selectedVertexIds s ∖ {[v_id v]}.
Proof.
  intros Hfresh Hrefs s'. subst s'. repeat split.
  - cbn. rewrite delete_insert_eq. apply delete_id, Hfresh.
  - apply map_eq. intros k. rewrite delete_vertex_shapes. cbn.
    destruct (shapes s !! k) as [x|] eqn:Hk; [|reflexivity].
    destruct (includes (vertexIds x) (v_id v)) eqn:Hinc; [|reflexivity].
    apply includes_true in Hinc.
    destruct (Hrefs k x (v_id v) Hk Hinc) as [? Hsome]. congruence.
Qed.

Lemma add_then_delete_vertex_witness :
  let v := mkVertex "c" 5 5 anchor None in
  let s' := appReducer (mkEnv "" 0) (appReducer (mkEnv "" 0) line_state (ADD_VERTEX v))
              (DELETE_VERTEX "c") in
  vertices s' = vertices line_state ∧ shapes s' = shapes line_state
  ∧ selectedVertexIds s' = selectedVertexIds line_state ∖ {["c"]}.
Proof.
  apply (add_then_delete_vertex (mkEnv "" 0) (mkEnv "" 0) line_state
           (mkVertex "c" 5 5 anchor None)).
  - reflexivity.
  - intros k x w Hk Hw. unfold line_state in Hk. cbn [shapes] in Hk.
    apply lookup_singleton_Some in Hk as [<- <-]. cbn [vertexIds line_ab] in Hw.
    apply elem_of_cons in Hw as [->|Hw]; [vm_compute; eauto|].
    apply elem_of_cons in Hw as [->|Hw]; [vm_compute; eauto|].
    inversion Hw.
Defined.

(** * Geometry, snapping and the viewport *)

(** ** The cubic Bezier curve (utils.ts) *)





(** ** Snapping to the grid (snapPoint) *)

Lemma Math_round_integer (k : Z) (q : Q) :
  (q == inject_Z k)%Q → Math_round q = inject_Z k.
Proof.
  intros Hq. unfold Math_round. f_equal.
  assert (E : (q + (1 # 2) == inject_Z k + (1 # 2))%Q) by (rewrite Hq; reflexivity).
  rewrite (Qfloor_comp _ _ E).
  pose proof (Qfloor_le (inject_Z k + (1 # 2))) as Hle.
  pose proof (Qlt_floor (inject_Z k + (1 # 2))) as Hlt.
  rewrite inject_Z_plus in Hlt. change (inject_Z 1) with 1%Q in Hlt.
  assert (H1 : (inject_Z (Qfloor (inject_Z k + (1 # 2))) < inject_Z (k + 1))%Q).
  { rewrite inject_Z_plus. change (inject_Z 1) with 1%Q. lra. }
  assert (H2 : (inject_Z k < inject_Z (Qfloor (inject_Z k + (1 # 2)) + 1))%Q).
  { rewrite inject_Z_plus. change (inject_Z 1) with 1%Q. lra. }
  rewrite <- Zlt_Qlt in H1, H2. lia.
Qed.

Lemma snap_coordinate g x :
  (0 < g)%Q →
  let x' := (Math_round (x / g) * g)%Q in
  (∃ k : Z, x' = (inject_Z k * g)%Q)
  ∧ (Qabs (x' - x) <= g / 2)%Q
  ∧ (Math_round (x' / g) * g)%Q = x'.
Proof.
  intros Hg x'. split; [|split].
  - exists (Qfloor (x / g + (1 # 2))). reflexivity.
  - destruct (Math_round_near (x / g)) as [Hup Hdown].
    assert (E : (x' - x == (Math_round (x / g) - x / g) * g)%Q)
      by (subst x'; field; lra).
    assert (E' : (g / 2 == (1 # 2) * g)%Q) by field.
    rewrite E, E'. clear E E'. generalize dependent (x / g)%Q. intros u x' Hup Hdown.
    clear x'. apply Qabs_Qle_condition. split.
    + assert (0 <= (u - Math_round u + (1 # 2)) * g)%Q
        by (apply Qmult_le_0_compat; lra).
      nra.
    + assert (0 <= ((1 # 2) - (Math_round u - u)) * g)%Q
        by (apply Qmult_le_0_compat; lra).
      nra.
  - subst x'. f_equal. unfold Math_round at 2 3.
    apply Math_round_integer. unfold Math_round. field. lra.
Qed.

(** X12.  With snapping on and a positive grid size, [snapPoint] returns a
    grid point (each coordinate an integer multiple of the grid size) that is
    at most half a cell away from the given point in each coordinate, and
    snapping the result again changes nothing; with snapping off the point
    is returned as it is. *)
Theorem snapPoint_nearest_grid_point gridSize x y :
  (0 < gridSize)%Q →
  let p := snapPoint true gridSize x y in
  (∃ kx ky : Z, p = mkPos (inject_Z kx * gridSize) (inject_Z ky * gridSize))
  ∧ (Qabs (px p - x) <= gridSize / 2 ∧ Qabs (py p - y) <= gridSize / 2)%Q
  ∧ snapPoint true gridSize (px p) (py p) = p
  ∧ snapPoint false gridSize x y = mkPos x y.
Proof.
  intros Hg p.
  destruct (snap_coordinate gridSize x Hg) as ([kx Ex] & Hx & Ix).
  destruct (snap_coordinate gridSize y Hg) as ([ky Ey] & Hy & Iy).
  subst p. unfold snapPoint. cbn [negb px py].
  split; [|split; [|split]].
  - exists kx, ky. rewrite Ex, Ey. reflexivity.
  - split; assumption.
  - rewrite Ix, Iy. reflexivity.
  - reflexivity.
Qed.

Lemma snapPoint_nearest_grid_point_witness :
  let p := snapPoint true 20 27 (-4) in
  (∃ kx ky : Z, p = mkPos (inject_Z kx * 20) (inject_Z ky * 20))
  ∧ (Qabs (px p - 27) <= 20 / 2 ∧ Qabs (py p - (-4)) <= 20 / 2)%Q
  ∧ snapPoint true 20 (px p) (py p) = p
  ∧ snapPoint false 20 27 (-4) = mkPos 27 (-4).
Proof.
  apply (snapPoint_nearest_grid_point 20 27 (-4)). reflexivity.
Defined.

(** ** The viewport (Canvas.tsx) *)



Lemma viewport_step_zoom prev e :
  (0.1 <= zoom prev ∧ zoom prev <= 5)%Q →
  (0.1 <= zoom (viewport_step prev e) ∧ zoom (viewport_step prev e) <= 5)%Q.
Proof.
  intros [Hlo Hhi]. destruct e; cbn [viewport_step zoomIn zoomOut resetViewport
                                      handleWheel pan zoom].
  - destruct (Math_min_spec 5 (zoom prev * 1.2)) as [[H ->]|[H ->]]; split; lra.
  - assert (E : (zoom prev / 1.2 == zoom prev * (5 # 6))%Q) by (field; lra).
    destruct (Math_max_spec 0.1 (zoom prev / 1.2)) as [[H ->]|[H ->]]; split; lra.
  - split; lra.
  - set (z := (zoom prev * _)%Q).
    destruct (Math_min_spec 5 z) as [[H ->]|[H ->]];
      [destruct (Math_max_spec 0.1 5) as [[H' ->]|[H' ->]]
      |destruct (Math_max_spec 0.1 z) as [[H' ->]|[H' ->]]]; split; lra.
  - split; assumption.
Qed.

(** X14.  Whatever sequence of zooming in and out, wheel turns, pans and
    resets the viewport goes through from its initial value, its zoom stays
    between 0.1 and 5. *)
Theorem zoom_stays_in_range events :
  let viewport := foldl viewport_step resetViewport events in
  (0.1 <= zoom viewport ∧ zoom viewport <= 5)%Q.
Proof.
  induction events as [|e events IH] using rev_ind; cbn zeta.
  - cbn. split; lra.
  - rewrite foldl_app. cbn [foldl]. apply viewport_step_zoom, IH.
Qed.



(** * The drawing tools, the selection box, dragging and the Delete key *)

(** ** The shape tools keep the references of shapes intact *)

(** An id is covered when the document has a vertex under it or the
    actions add one. *)
Lemma adds_run state : ∀ tagged,
  Forall (λ a, ∃ v, a = ADD_VERTEX v) tagged.*2 →
  integrity state →
  integrity (run state tagged)
  ∧ shapes (run state tagged) = shapes state
  ∧ ∀ id, is_Some (vertices state !! id)
          ∨ (∃ v, ADD_VERTEX v ∈ tagged.*2 ∧ v_id v = id) →
          is_Some (vertices (run state tagged) !! id).
Proof.
  induction tagged as [|[env a] tagged IH] using rev_ind; intros Hall Hint.
  - split; [exact Hint|]. split; [reflexivity|].
    intros id [H|(v & Hv & _)]; [exact H|inversion Hv].
  - rewrite fmap_app in Hall. apply Forall_app in Hall as [Hall Ha].
    change ([(env, a)].*2) with [a] in Ha.
    rewrite Forall_singleton in Ha. destruct Ha as [w Hw]. subst a.
    destruct (IH Hall Hint) as (Hint' & Hsh & Hcov).
    rewrite run_snoc. cbn [fst snd]. split; [|split].
    + apply reducer_integrity; [exact Hint'|exact I].
    + cbn. exact Hsh.
    + intros id Hid. cbn.
      destruct (decide (v_id w = id)) as [<-|Hne];
        [rewrite lookup_insert_eq; eauto|].
      rewrite lookup_insert_ne by exact Hne. apply Hcov.
      destruct Hid as [H|(v & Hv & Hvid)]; [left; exact H|].
      rewrite fmap_app in Hv. apply elem_of_app in Hv as [Hv|Hv]; [right; eauto|].
      apply list_elem_of_singleton in Hv. cbn in Hv. injection Hv as ->. contradiction.
Qed.

Lemma adds_then_shape state adds shape tagged :
  integrity state →
  Forall (λ a, ∃ v, a = ADD_VERTEX v) adds →
  (∀ id, id ∈ vertexIds shape →
     is_Some (vertices state !! id) ∨ ∃ v, ADD_VERTEX v ∈ adds ∧ v_id v = id) →
  bezier_wf shape →
  dispatches (adds ++ [ADD_SHAPE shape]) tagged →
  integrity (run state tagged).
Proof.
  intros Hint Hadds Hcov Hwf Hd. unfold dispatches in Hd.
  destruct tagged as [|[env a] tagged _] using rev_ind.
  { symmetry in Hd. apply app_eq_nil in Hd as [_ Hd]. discriminate Hd. }
  rewrite fmap_app in Hd. cbn in Hd. apply app_inj_tail in Hd as [Hd ->].
  subst adds. destruct (adds_run state tagged Hadds Hint) as (Hint' & Hsh & Hin).
  rewrite run_snoc. cbn [fst snd].
  apply reducer_integrity; [exact Hint'|]. cbn [admissible].
  split; [|exact Hwf]. intros v Hv. apply Hin, Hcov, Hv.
Qed.

Lemma add_if_new_adds state v : Forall (λ a, ∃ v, a = ADD_VERTEX v) (add_if_new state v).
Proof. unfold add_if_new. destruct (bool_decide _); repeat constructor. eauto. Qed.

Lemma add_if_new_covers state v :
  is_Some (vertices state !! v_id v) ∨ ADD_VERTEX v ∈ add_if_new state v.
Proof.
  unfold add_if_new. destruct (bool_decide_reflect (is_Some (vertices state !! v_id v))).
  - left. assumption.
  - right. apply list_elem_of_singleton. reflexivity.
Qed.

Lemma flat_add_if_new_adds state vs :
  Forall (λ a, ∃ v, a = ADD_VERTEX v) (flat_map (add_if_new state) vs).
Proof.
  induction vs as [|v vs IH]; [constructor|].
  cbn [flat_map]. apply Forall_app. split; [apply add_if_new_adds|exact IH].
Qed.

Lemma flat_add_if_new_covers state vs v :
  v ∈ vs →
  is_Some (vertices state !! v_id v)
  ∨ ∃ w, ADD_VERTEX w ∈ flat_map (add_if_new state) vs ∧ v_id w = v_id v.
Proof.
  intros Hv. destruct (add_if_new_covers state v) as [H|H]; [left; exact H|].
  right. exists v. split; [|reflexivity].
  apply list_elem_of_In, in_flat_map. exists v.
  split; apply list_elem_of_In; assumption.
Qed.

Lemma bezier_loop_covers gen state : ∀ temp i,
  let r := bezier_loop gen state i temp in
  let covered id :=
    is_Some (vertices state !! id) ∨ ∃ v, ADD_VERTEX v ∈ r.1 ∧ v_id v = id in
  (2 ≤ length temp → ∀ P, P ∈ temp → covered (v_id P))
  ∧ (∀ seg id, seg ∈ r.2 → id ∈ seg_refs seg → covered id).
Proof.
  induction temp as [|A temp IH]; intros i r covered.
  - split; [cbn; lia|]. intros seg id Hseg. inversion Hseg.
  - destruct temp as [|B rest].
    { split; [cbn; lia|]. intros seg id Hseg. inversion Hseg. }
    destruct (IH (S i)) as [IHa IHb]. subst r covered. cbv beta.
    rewrite bezier_loop_step. cbn [fst snd].
    set (later := bezier_loop gen state (S i) (B :: rest)) in *.
    set (c1 := mkVertex (gen (2 * i)) _ _ _ _).
    set (c2 := mkVertex (gen (2 * i + 1)) _ _ _ _).
    set (hA := if bool_decide (is_Some (vertices state !! v_id A))
               then [] else [ADD_VERTEX A]).
    set (hB := match rest with
               | [] => if bool_decide (is_Some (vertices state !! v_id B))
                       then [] else [ADD_VERTEX B]
               | _ => []
               end).
    assert (HA : is_Some (vertices state !! v_id A) ∨ ADD_VERTEX A ∈ hA).
    { subst hA. destruct (bool_decide_reflect (is_Some (vertices state !! v_id A)));
        [left; assumption|right; apply list_elem_of_singleton; reflexivity]. }
    assert (HB : is_Some (vertices state !! v_id B)
                 ∨ (∃ v, ADD_VERTEX v ∈ hB ++ later.1 ∧ v_id v = v_id B)).
    { destruct rest as [|C rest].
      - subst hB.
        destruct (bool_decide_reflect (is_Some (vertices state !! v_id B)));
          [left; assumption|right].
        exists B. split; [|reflexivity]. apply elem_of_app. left.
        apply list_elem_of_singleton. reflexivity.
      - destruct (IHa ltac:(cbn; lia) B ltac:(left)) as [H|(v & Hv & Hid)];
          [left; exact H|right].
        exists v. split; [|exact Hid]. apply elem_of_app. right. exact Hv. }
    assert (Hlater : ∀ id, (is_Some (vertices state !! id)
                            ∨ ∃ v, ADD_VERTEX v ∈ later.1 ∧ v_id v = id) →
              is_Some (vertices state !! id)
              ∨ ∃ v, ADD_VERTEX v ∈ (hA ++ [ADD_VERTEX c1; ADD_VERTEX c2] ++ hB)
                                     ++ later.1 ∧ v_id v = id).
    { intros id [H|(v & Hv & Hid)]; [left; exact H|right].
      exists v. split; [|exact Hid]. apply elem_of_app. right. exact Hv. }
    assert (HB' : is_Some (vertices state !! v_id B)
              ∨ ∃ v, ADD_VERTEX v ∈ (hA ++ [ADD_VERTEX c1; ADD_VERTEX c2] ++ hB)
                                     ++ later.1 ∧ v_id v = v_id B).
    { destruct HB as [H|(v & Hv & Hid)]; [left; exact H|right].
      exists v. split; [|exact Hid].
      rewrite !elem_of_app in *. tauto. }
    assert (HA' : is_Some (vertices state !! v_id A)
              ∨ ∃ v, ADD_VERTEX v ∈ (hA ++ [ADD_VERTEX c1; ADD_VERTEX c2] ++ hB)
                                     ++ later.1 ∧ v_id v = v_id A).
    { destruct HA as [H|H]; [left; exact H|right].
      exists A. split; [|reflexivity]. rewrite !elem_of_app. tauto. }
    split.
    + intros _ P HP. apply elem_of_cons in HP as [->|HP]; [exact HA'|].
      destruct rest as [|C rest].
      * apply list_elem_of_singleton in HP. subst P. exact HB'.
      * apply Hlater, IHa; [cbn; lia|exact HP].
    + intros seg id Hseg Hid. apply elem_of_cons in Hseg as [->|Hseg].
      * unfold seg_refs in Hid. cbn [p0 p1 p2 p3] in Hid.
        rewrite !elem_of_cons in Hid.
        destruct Hid as [->|[->|[->|[->|Hid]]]]; [exact HA'| | |exact HB'|inversion Hid].
        -- right. exists c1. split; [|reflexivity].
           rewrite !elem_of_app, !elem_of_cons. tauto.
        -- right. exists c2. split; [|reflexivity].
           rewrite !elem_of_app, !elem_of_cons. tauto.
      * apply Hlater, (IHb seg id Hseg Hid).
Qed.

(** X16.  Every shape tool (line, rectangle, circle, polygon, Bezier) hands
    the reducer shapes whose vertices are there: in a document with intact
    references, the actions a tool dispatches when it completes a shape
    leave every reference of every shape, live or kept for undo, pointing at
    an existing vertex. *)
Theorem shape_tools_keep_integrity state acts tagged :
  integrity state → tool_dispatch state acts → dispatches acts tagged →
  integrity (run state tagged).
Proof.
  intros Hint Htool Hd.
  assert (Hnil : ∀ t, dispatches [] t → integrity (run state t)).
  { intros t Ht. unfold dispatches in Ht. apply fmap_nil_inv in Ht. subst t. exact Hint. }
  destruct Htool as [newId st temp newVertex
                    |newId st temp tr br bl
                    |newId st temp radius
                    |newId tool st temp
                    |gen st temp button newVertex].
  - destruct temp as [|first [|? ?]]; try (apply Hnil; exact Hd).
    cbn [handleMouseDown_line fst] in Hd. rewrite app_assoc in Hd.
    apply (adds_then_shape _ _ _ _ Hint) in Hd; try exact Hd.
    + apply Forall_app. split; apply add_if_new_adds.
    + cbn [vertexIds]. intros id Hid.
      change (add_if_new state first ++ add_if_new state newVertex)
        with (add_if_new state first ++ add_if_new state newVertex).
      replace (add_if_new state first ++ add_if_new state newVertex)
        with (flat_map (add_if_new state) [first; newVertex])
        by (cbn; rewrite app_nil_r; reflexivity).
      apply elem_of_cons in Hid as [->|Hid];
        [apply flat_add_if_new_covers; apply elem_of_cons; left; reflexivity|].
      apply list_elem_of_singleton in Hid. subst id.
      apply flat_add_if_new_covers. apply elem_of_cons. right.
      apply elem_of_cons. left. reflexivity.
    + exact I.
  - destruct temp as [|topLeft [|? ?]]; try (apply Hnil; exact Hd).
    cbn [handleMouseUp_rect fst] in Hd.
    apply (adds_then_shape _ _ _ _ Hint) in Hd; try exact Hd.
    + apply flat_add_if_new_adds.
    + cbn [vertexIds]. intros id Hid.
      change [v_id topLeft; v_id tr; v_id br; v_id bl]
        with (v_id <$> [topLeft; tr; br; bl]) in Hid.
      apply list_elem_of_fmap in Hid as (P & -> & HP).
      apply flat_add_if_new_covers, HP.
    + exact I.
  - destruct temp as [|centre [|? ?]]; try (apply Hnil; exact Hd).
    cbn [handleMouseUp_circle fst] in Hd.
    apply (adds_then_shape _ _ _ _ Hint) in Hd; try exact Hd.
    + apply add_if_new_adds.
    + cbn [vertexIds]. intros id Hid.
      apply list_elem_of_singleton in Hid. subst id.
      destruct (add_if_new_covers state centre) as [H|H]; [left; exact H|right; eauto].
    + exact I.
  - unfold handleContextMenu in Hd.
    destruct tool; try (apply Hnil; exact Hd).
    destruct (3 <=? length temp)%nat; [|apply Hnil; exact Hd].
    cbn [fst] in Hd.
    apply (adds_then_shape _ _ _ _ Hint) in Hd; try exact Hd.
    + apply flat_add_if_new_adds.
    + cbn [vertexIds]. intros id Hid.
      apply list_elem_of_fmap in Hid as (P & -> & HP).
      apply flat_add_if_new_covers, HP.
    + exact I.
  - unfold handleMouseDown_bezier in Hd.
    destruct ((button =? 2)%Z && (2 <=? length temp)%nat); [|apply Hnil; exact Hd].
    cbn [fst] in Hd.
    apply (adds_then_shape _ _ _ _ Hint) in Hd; try exact Hd.
    + apply (bezier_loop_spec gen state temp 0).
    + cbn [vertexIds]. intros id Hid.
      apply list_elem_of_In, in_flat_map in Hid as (seg & Hseg & Hid).
      apply list_elem_of_In in Hseg, Hid.
      apply (proj2 (bezier_loop_covers gen state temp 0) seg id Hseg Hid).
    + reflexivity.
Qed.

Lemma shape_tools_keep_integrity_witness :
  integrity
    (run initialState
       ((λ a, (mkEnv "" 0, a))
          <$> (handleContextMenu "P" initialState tool_polygon curve_style triangle).1)).
Proof.
  apply (shape_tools_keep_integrity initialState
           (handleContextMenu "P" initialState tool_polygon curve_style triangle).1).
  - exact initial_integrity.
  - constructor.
  - reflexivity.
Defined.

(** ** The selection box (handleMouseUp) *)

(** [x] lies between [a] and [b], in either order. *)
Lemma between_min_max a b x :
  Qle_bool (Math_min a b) x && Qle_bool x (Math_max a b) = true
  ↔ (a <= x ∧ x <= b)%Q ∨ (b <= x ∧ x <= a)%Q.
Proof.
  rewrite andb_true_iff, !Qle_bool_iff.
  destruct (Math_min_spec a b) as [[H1 ->]|[H1 ->]];
    destruct (Math_max_spec a b) as [[H2 ->]|[H2 ->]]; split; intros H; lra.
Qed.

(** X17.  Releasing the selection box selects exactly the vertices whose
    position lies in the box, borders included, whichever corner the drag
    started from; with Shift held they are added to the selection, without
    it they replace it. *)
Theorem selection_box_selects_inside env state box shiftKey id :
  let s' := appReducer env state (handleMouseUp_selectionBox state box shiftKey) in
  id ∈ selectedVertexIds s'
  ↔ (shiftKey = true ∧ id ∈ selectedVertexIds state)
    ∨ ∃ v, vertices state !! id = Some v
        ∧ ((startX box <= v_x v ∧ v_x v <= endX box)
           ∨ (endX box <= v_x v ∧ v_x v <= startX box))%Q
        ∧ ((startY box <= v_y v ∧ v_y v <= endY box)
           ∨ (endY box <= v_y v ∧ v_y v <= startY box))%Q.
Proof.
  intros s'.
  assert (Hin : id ∈ ((filter (λ p, inside_box box p.2 = true)
                         (map_to_list (vertices state))).*1 : list string)
          ↔ ∃ v, vertices state !! id = Some v
              ∧ ((startX box <= v_x v ∧ v_x v <= endX box)
                 ∨ (endX box <= v_x v ∧ v_x v <= startX box))%Q
              ∧ ((startY box <= v_y v ∧ v_y v <= endY box)
                 ∨ (endY box <= v_y v ∧ v_y v <= startY box))%Q).
  { rewrite list_elem_of_fmap. split.
    - intros ([k v] & -> & Hf). apply list_elem_of_filter in Hf as [Hb Hk].
      apply elem_of_map_to_list in Hk. exists v. split; [exact Hk|].
      cbn [snd] in Hb. unfold inside_box in Hb.
      apply andb_true_iff in Hb as [Hb Hy1].
      apply andb_true_iff in Hb as [Hb Hy0].
      apply andb_true_iff in Hb as [Hx0 Hx1].
      split; apply between_min_max; apply andb_true_iff; split; assumption.
    - intros (v & Hk & Hx & Hy). exists (id, v). split; [reflexivity|].
      apply list_elem_of_filter. split; [|apply elem_of_map_to_list, Hk].
      cbn [snd]. unfold inside_box.
      apply between_min_max in Hx, Hy.
      apply andb_true_iff in Hx as [Hx0 Hx1]. apply andb_true_iff in Hy as [Hy0 Hy1].
      rewrite Hx0, Hx1, Hy0, Hy1. reflexivity. }
  subst s'. unfold handleMouseUp_selectionBox. cbn [appReducer].
  destruct shiftKey; cbn [selectedVertexIds set_selectedVertexIds].
  - rewrite elem_of_union, elem_of_list_to_set, Hin. split.
    + intros [H|H]; [left; split; [reflexivity|exact H]|right; exact H].
    + intros [[_ H]|H]; [left; exact H|right; exact H].
  - rewrite elem_of_list_to_set, Hin. split.
    + intros H. right. exact H.
    + intros [[H _]|H]; [discriminate H|exact H].
Qed.

(** ** Dragging and snapping the selection (handleMouseMove, handleMouseUp) *)

Lemma batch_vertices_cons u us (vs : gmap string Vertex) :
  batch_vertices (u :: us) vs
  = batch_vertices us (match vs !! u.1 with
                       | Some v => <[u.1 := apply_vertex_updates v u.2]> vs
                       | None => vs
                       end).
Proof. reflexivity. Qed.

(** The updates of a loop over distinct ids, each computed from the vertex
    map the loop reads, are independent of each other. *)
Lemma batch_distinct (vs : gmap string Vertex) (f : Vertex → VertexUpdates) l :
  ∀ acc : gmap string Vertex,
  NoDup l → (∀ id, id ∈ l → acc !! id = vs !! id) →
  ∀ k, batch_vertices (omap (λ id, (λ v, (id, f v)) <$> vs !! id) l) acc !! k
       = if bool_decide (k ∈ l)
         then (λ v, apply_vertex_updates v (f v)) <$> vs !! k
         else acc !! k.
Proof.
  induction l as [|a l IH]; intros acc Hnd Hacc k.
  - rewrite bool_decide_eq_false_2 by (intros H; inversion H). reflexivity.
  - apply NoDup_cons in Hnd as [Ha Hnd]. cbn [omap list_omap].
    destruct (vs !! a) as [v|] eqn:Hv; cbn [fmap option_fmap option_map].
    + rewrite batch_vertices_cons. cbn [fst snd].
      rewrite (Hacc a) by (left). rewrite Hv.
      rewrite IH; [|exact Hnd|].
      * destruct (decide (k = a)) as [->|Hne].
        -- rewrite (bool_decide_eq_true_2 (a ∈ a :: l)) by (left).
           rewrite (bool_decide_eq_false_2 (a ∈ l)) by exact Ha.
           rewrite lookup_insert_eq, Hv. reflexivity.
        -- rewrite lookup_insert_ne by congruence.
           destruct (bool_decide_reflect (k ∈ l)) as [Hk|Hk].
           ++ rewrite bool_decide_eq_true_2 by (right; exact Hk). reflexivity.
           ++ rewrite bool_decide_eq_false_2; [reflexivity|].
              intros H. apply elem_of_cons in H as [?|?]; contradiction.
      * intros id Hid. rewrite lookup_insert_ne by (intros ->; contradiction).
        apply Hacc. right. exact Hid.
    + rewrite IH; [|exact Hnd|intros id Hid; apply Hacc; right; exact Hid].
      destruct (decide (k = a)) as [->|Hne].
      * rewrite (bool_decide_eq_true_2 (a ∈ a :: l)) by (left).
        rewrite (bool_decide_eq_false_2 (a ∈ l)) by exact Ha.
        rewrite (Hacc a) by (left). rewrite Hv. reflexivity.
      * destruct (bool_decide_reflect (k ∈ l)) as [Hk|Hk].
        -- rewrite bool_decide_eq_true_2 by (right; exact Hk). reflexivity.
        -- rewrite bool_decide_eq_false_2; [reflexivity|].
           intros H. apply elem_of_cons in H as [?|?]; contradiction.
Qed.

Lemma selected_updates_lookup state f k :
  batch_vertices (selected_updates state f) (vertices state) !! k
  = if bool_decide (k ∈ selectedVertexIds state)
    then (λ v, apply_vertex_updates v (f v)) <$> vertices state !! k
    else vertices state !! k.
Proof.
  unfold selected_updates.
  rewrite (batch_distinct (vertices state) f);
    [|apply NoDup_elements|intros; reflexivity].
  destruct (bool_decide_reflect (k ∈ elements (selectedVertexIds state))) as [H|H];
    rewrite elem_of_elements in H.
  - rewrite bool_decide_eq_true_2 by exact H. reflexivity.
  - rewrite bool_decide_eq_false_2 by exact H. reflexivity.
Qed.

(** Dispatching an update list, or nothing when it is empty, changes the
    vertices as the batch update of the list does and nothing else. *)
Lemma dispatch_updates_run state updates tagged :
  dispatches (dispatch_updates updates) tagged →
  run state tagged = set_vertices (batch_vertices updates (vertices state)) state.
Proof.
  unfold dispatches, dispatch_updates. intros Hd.
  destruct updates as [|u updates].
  - apply fmap_nil_inv in Hd. subst tagged. destruct state; reflexivity.
  - destruct tagged as [|[env a] [|? ?]]; try discriminate Hd.
    cbn in Hd. injection Hd as ->. destruct state; reflexivity.
Qed.



(** X19.  Releasing a dragged selection with snap-to-grid on and a positive
    grid size puts every selected vertex on a grid point, at most half a
    cell from where it was dropped in each coordinate, and leaves the other
    vertices where they are. *)
Theorem release_snaps_selection_to_grid state gridSize draggedVertexId tagged :
  (0 < gridSize)%Q →
  draggedVertexId ∈ selectedVertexIds state →
  dispatches (handleMouseUp_snap state (snapPoint true gridSize) draggedVertexId) tagged →
  let s' := run state tagged in
  ∀ id v, vertices state !! id = Some v →
    if bool_decide (id ∈ selectedVertexIds state)
    then ∃ kx ky : Z,
           vertices s' !! id
           = Some (with_pos (inject_Z kx * gridSize) (inject_Z ky * gridSize) v)
           ∧ (Qabs (inject_Z kx * gridSize - v_x v) <= gridSize / 2)%Q
           ∧ (Qabs (inject_Z ky * gridSize - v_y v) <= gridSize / 2)%Q
    else vertices s' !! id = Some v.
Proof.
  intros Hg Hsel Hdisp s' id v Hv.
  unfold handleMouseUp_snap in Hdisp.
  rewrite bool_decide_eq_true_2 in Hdisp by exact Hsel.
  apply (dispatch_updates_run state) in Hdisp. fold s' in Hdisp.
  rewrite Hdisp. cbn [vertices set_vertices]. rewrite selected_updates_lookup, Hv.
  destruct (bool_decide (id ∈ selectedVertexIds state)); [|reflexivity].
  destruct (snap_coordinate gridSize (v_x v) Hg) as ([kx Ex] & Hx & _).
  destruct (snap_coordinate gridSize (v_y v) Hg) as ([ky Ey] & Hy & _).
  cbv zeta in Ex, Ey, Hx, Hy.
  exists kx, ky. cbn [fmap option_fmap option_map].
  rewrite Ex in Hx. rewrite Ey in Hy.
  split; [|split; assumption].
  unfold snapPoint. cbn [negb px py]. rewrite Ex, Ey. destruct v; reflexivity.
Qed.

Lemma release_snaps_selection_to_grid_witness :
  let s' := run both_selected
              ((λ a, (mkEnv "" 0, a))
                 <$> handleMouseUp_snap both_selected (snapPoint true 30) "a") in
  if bool_decide ("b" ∈ selectedVertexIds both_selected)
  then ∃ kx ky : Z,
         vertices s' !! "b"
         = Some (with_pos (inject_Z kx * 30) (inject_Z ky * 30)
                          (mkVertex "b" 100 0 anchor None))
         ∧ (Qabs (inject_Z kx * 30 - 100) <= 30 / 2)%Q
         ∧ (Qabs (inject_Z ky * 30 - 0) <= 30 / 2)%Q
  else vertices s' !! "b" = Some (mkVertex "b" 100 0 anchor None).
Proof.
  apply (release_snaps_selection_to_grid both_selected 30 "a"
           ((λ a, (mkEnv "" 0, a))
              <$> handleMouseUp_snap both_selected (snapPoint true 30) "a")
           eq_refl).
  - vm_compute. reflexivity.
  - unfold dispatches. rewrite <- list_fmap_compose. apply list_fmap_id.
  - reflexivity.
Defined.

(** ** The Delete key (useKeyboardShortcuts) *)

Lemma delete_orphans_subseteq sh self l : ∀ m, delete_orphans sh self l m ⊆ m.
Proof.
  induction l as [|c l IH]; intros m; [reflexivity|].
  rewrite delete_orphans_cons.
  destruct (isUsedElsewhere sh self c); [apply IH|].
  etrans; [apply IH|apply delete_subseteq].
Qed.

Lemma delete_action_shrinks env s a :
  (∃ id, a = DELETE_VERTEX id) ∨ (∃ id, a = DELETE_SHAPE id) →
  vertices (appReducer env s a) ⊆ vertices s
  ∧ shapes (appReducer env s a) ⊆ shapes s.
Proof.
  intros [[id ->]|[id ->]].
  - split.
    + cbn. apply delete_subseteq.
    + rewrite delete_vertex_shapes_filter. apply map_filter_subseteq.
  - cbn [appReducer].
    destruct (shapes s !! id) as [[? [| | |segs ?|] ? ? ? ? ?]|] eqn:Hs; cbn;
      try (split; [reflexivity|apply delete_subseteq]).
    split; [apply delete_orphans_subseteq|apply delete_subseteq].
Qed.

Lemma deletes_run : ∀ tagged s,
  Forall (λ a, (∃ id, a = DELETE_VERTEX id) ∨ (∃ id, a = DELETE_SHAPE id)) tagged.*2 →
  let s' := run s tagged in
  vertices s' ⊆ vertices s ∧ shapes s' ⊆ shapes s
  ∧ (∀ id, DELETE_VERTEX id ∈ tagged.*2 → vertices s' !! id = None)
  ∧ (∀ id, DELETE_SHAPE id ∈ tagged.*2 → shapes s' !! id = None)
  ∧ (∀ id, id ∈ selectedVertexIds s' ↔
           id ∈ selectedVertexIds s ∧ DELETE_VERTEX id ∉ tagged.*2)
  ∧ (∀ id, id ∈ selectedShapeIds s' ↔
           id ∈ selectedShapeIds s ∧ DELETE_SHAPE id ∉ tagged.*2).
Proof.
  induction tagged as [|[env a] tagged IH] using rev_ind; intros s Hall s'.
  - subst s'. change (run s []) with s. change ([].*2) with (@nil AppAction).
    split; [reflexivity|]. split; [reflexivity|].
    split; [intros id H; inversion H|]. split; [intros id H; inversion H|].
    split; intros id;
      (split; [intros H; split; [exact H|intros H'; inversion H']|intros [H _]; exact H]).
  - rewrite fmap_app in Hall. apply Forall_app in Hall as [Hall Ha].
    change ([(env, a)].*2) with [a] in Ha. rewrite Forall_singleton in Ha.
    destruct (IH s Hall) as (Hv & Hs & Hdv & Hds & Hsv & Hss).
    destruct (delete_action_shrinks env (run s tagged) a Ha) as [Hv1 Hs1].
    subst s'. rewrite run_snoc. cbn [fst snd].
    rewrite fmap_app. change ([(env, a)].*2) with [a].
    set (s1 := run s tagged) in *.
    split; [etrans; eassumption|]. split; [etrans; eassumption|].
    split; [|split; [|split]].
    + intros id Hid. apply elem_of_app in Hid as [Hid|Hid].
      * apply (lookup_weaken_None _ _ _ (Hdv id Hid) Hv1).
      * apply list_elem_of_singleton in Hid. subst a. cbn. apply lookup_delete_eq.
    + intros id Hid. apply elem_of_app in Hid as [Hid|Hid].
      * apply (lookup_weaken_None _ _ _ (Hds id Hid) Hs1).
      * apply list_elem_of_singleton in Hid. subst a. cbn [appReducer].
        destruct (shapes s1 !! id) as [[? [] ? ? ? ? ?]|]; cbn; apply lookup_delete_eq.
    + intros id. rewrite not_elem_of_app, list_elem_of_singleton.
      destruct Ha as [[d ->]|[d ->]].
      * cbn. rewrite elem_of_difference, Hsv, elem_of_singleton.
        split; [intros [[? ?] ?]; repeat split; try assumption; congruence|].
        intros [? [? Hne]]. repeat split; try assumption. congruence.
      * replace (selectedVertexIds (appReducer env s1 (DELETE_SHAPE d)))
          with (selectedVertexIds s1)
          by (cbn [appReducer];
              destruct (shapes s1 !! d) as [[? [] ? ? ? ? ?]|]; reflexivity).
        rewrite Hsv. split; [intros [? ?]; repeat split; try assumption; discriminate|].
        intros [? [? _]]. split; assumption.
    + intros id. rewrite not_elem_of_app, list_elem_of_singleton.
      destruct Ha as [[d ->]|[d ->]].
      * cbn. rewrite Hss.
        split; [intros [? ?]; repeat split; try assumption; discriminate|].
        intros [? [? _]]. split; assumption.
      * replace (selectedShapeIds (appReducer env s1 (DELETE_SHAPE d)))
          with (selectedShapeIds s1 ∖ {[d]})
          by (cbn [appReducer];
              destruct (shapes s1 !! d) as [[? [] ? ? ? ? ?]|]; reflexivity).
        rewrite elem_of_difference, Hss, elem_of_singleton.
        split; [intros [[? ?] ?]; repeat split; try assumption; congruence|].
        intros [? [? Hne]]. repeat split; try assumption. congruence.
Qed.

(** X20.  The Delete key removes the whole selection: after its dispatches
    no selected vertex and no selected shape is left in the document, both
    selections are empty, nothing was added to the vertices or the shapes,
    and intact references stay intact. *)
Theorem delete_key_removes_selection state tagged :
  dispatches (handleKeyDown_delete state) tagged →
  let s' := run state tagged in
  (∀ id, id ∈ selectedVertexIds state → vertices s' !! id = None)
  ∧ (∀ id, id ∈ selectedShapeIds state → shapes s' !! id = None)
  ∧ selectedVertexIds s' = ∅ ∧ selectedShapeIds s' = ∅
  ∧ vertices s' ⊆ vertices state ∧ shapes s' ⊆ shapes state
  ∧ (integrity state → integrity s').
Proof.
  intros Hd s'. unfold dispatches, handleKeyDown_delete in Hd.
  assert (Hall : Forall (λ a, (∃ id, a = DELETE_VERTEX id) ∨ (∃ id, a = DELETE_SHAPE id))
                        tagged.*2).
  { rewrite Hd. apply Forall_app. split; apply Forall_fmap, Forall_forall;
      intros id _; cbn; eauto. }
  destruct (deletes_run tagged state Hall) as (Hv & Hs & Hdv & Hds & Hsv & Hss).
  fold s' in Hv, Hs, Hdv, Hds, Hsv, Hss.
  assert (HinV : ∀ id, id ∈ selectedVertexIds state → DELETE_VERTEX id ∈ tagged.*2).
  { intros id Hid. rewrite Hd. apply elem_of_app. left.
    apply list_elem_of_fmap. exists id. split; [reflexivity|].
    apply elem_of_elements, Hid. }
  assert (HinS : ∀ id, id ∈ selectedShapeIds state → DELETE_SHAPE id ∈ tagged.*2).
  { intros id Hid. rewrite Hd. apply elem_of_app. right.
    apply list_elem_of_fmap. exists id. split; [reflexivity|].
    apply elem_of_elements, Hid. }
  split; [|split; [|split; [|split; [|split; [exact Hv|split; [exact Hs|]]]]]].
  - intros id Hid. apply Hdv, HinV, Hid.
  - intros id Hid. apply Hds, HinS, Hid.
  - apply set_eq. intros id. rewrite Hsv. split; [|intros H; inversion H].
    intros [Hid Hn]. exfalso. apply Hn, HinV, Hid.
  - apply set_eq. intros id. rewrite Hss. split; [|intros H; inversion H].
    intros [Hid Hn]. exfalso. apply Hn, HinS, Hid.
  - intros Hint. subst s'. apply run_integrity; [exact Hint|].
    clear -Hall. revert state. induction tagged as [|[env a] tagged IH]; intros state.
    + exact I.
    + apply Forall_cons in Hall as [Ha Hall]. cbn [admissible_run]. split.
      * cbn in Ha. destruct Ha as [[id ->]|[id ->]]; exact I.
      * apply IH, Hall.
Qed.

Lemma delete_key_removes_selection_witness :
  let s' := run both_selected
              ((λ a, (mkEnv "" 0, a)) <$> handleKeyDown_delete both_selected) in
  (∀ id, id ∈ selectedVertexIds both_selected → vertices s' !! id = None)
  ∧ (∀ id, id ∈ selectedShapeIds both_selected → shapes s' !! id = None)
  ∧ selectedVertexIds s' = ∅ ∧ selectedShapeIds s' = ∅
  ∧ vertices s' ⊆ vertices both_selected ∧ shapes s' ⊆ shapes both_selected
  ∧ (integrity both_selected → integrity s').
Proof.
  apply (delete_key_removes_selection both_selected).
  unfold dispatches. rewrite <- list_fmap_compose. apply list_fmap_id.
Defined.

(** ** Merging the selection (mergeSelectedVertices) *)





(** * Playback (useAnimationPlayback) *)

Lemma animate_step playbackSpeed state refs timestamp :
  let n := Z.of_nat (length (frames state)) in
  2 ≤ length (frames state) →
  (0 <= playbackSpeed)%Q →
  (lastTime refs <= timestamp)%Q →
  (0 ≤ pair_from refs < n)%Z → (0 ≤ pair_to refs < n)%Z →
  (0 <= playbackProgress refs ∧ playbackProgress refs < 1)%Q →
  let tick := animate true playbackSpeed state refs timestamp in
  Forall (names_frames n) (tick_dispatched tick)
  ∧ (tick_requested tick = true →
     tick_isPlaying tick = true
     ∧ lastTime (tick_refs tick) = timestamp
     ∧ (0 ≤ pair_from (tick_refs tick) < n)%Z ∧ (0 ≤ pair_to (tick_refs tick) < n)%Z
     ∧ (0 <= playbackProgress (tick_refs tick) ∧ playbackProgress (tick_refs tick) < 1)%Q).
Proof.
  intros n Hn Hspeed Hlast Hfrom Hto [Hp0 Hp1] tick. subst tick. unfold animate.
  fold n. destruct (Nat.ltb_spec (length (frames state)) 2) as [Hlt|_]; [lia|].
  cbn [negb orb].
  set (last := if Qeq_bool (lastTime refs) 0 then timestamp else lastTime refs).
  assert (Hdelta : (0 <= timestamp - last)%Q).
  { subst last. destruct (Qeq_bool (lastTime refs) 0); lra. }
  assert (Hinc : (0 <= (timestamp - last) / 2000 * playbackSpeed)%Q).
  { apply Qmult_le_0_compat; [|exact Hspeed].
    apply Qle_shift_div_l; [reflexivity|]. lra. }
  set (progress := (playbackProgress refs + (timestamp - last) / 2000 * playbackSpeed)%Q)
    in *.
  assert (Hrem : (0 ≤ Z.rem (pair_to refs) n < n)%Z) by (apply Z.rem_bound_pos; lia).
  assert (Hrem' : (0 ≤ Z.rem (Z.rem (pair_to refs) n + 1) n < n)%Z)
    by (apply Z.rem_bound_pos; lia).
  destruct (Qle_bool 1 progress) eqn:Hwrap.
  - destruct (Z.eqb_spec (Z.rem (pair_to refs) n) 0) as [Hz|Hz]; cbn.
    + split; [|discriminate]. repeat constructor; lia.
    + split.
      * repeat constructor; try lia; try lra.
      * intros _. repeat split; try lia; lra.
  - cbn. assert (Hlt1 : (progress < 1)%Q).
    { apply Qnot_le_lt. intros H. apply Qle_bool_iff in H. congruence. }
    split.
    + repeat constructor; try lia; try assumption. subst progress. lra.
    + intros _. repeat split; try lia; try assumption. subst progress. lra.
Qed.

(** The two actions of the playback leave the frame list alone. *)
Lemma playback_action_frames env state n a :
  names_frames n a → frames (appReducer env state a) = frames state.
Proof.
  destruct a; try contradiction; intros _; cbn -[out_of_range].
  - destruct (out_of_range _ _); reflexivity.
  - destruct (js_index (frames state) fromIndex), (js_index (frames state) toIndex);
      reflexivity.
Qed.

Lemma playback_actions_keep env n acts : ∀ state,
  Forall (names_frames n) acts →
  frame_index_valid state →
  frames (foldl (appReducer env) state acts) = frames state
  ∧ frame_index_valid (foldl (appReducer env) state acts).
Proof.
  induction acts as [|a acts IH]; intros state Hall Hvalid; [split; [reflexivity|exact Hvalid]|].
  apply Forall_cons in Hall as [Ha Hall]. cbn [foldl].
  destruct (IH (appReducer env state a) Hall (reducer_frame_index env state a Hvalid))
    as [Hframes Hvalid'].
  split; [|exact Hvalid'].
  rewrite Hframes. exact (playback_action_frames env state n a Ha).
Qed.

Lemma start_effect_ok n t0 isPlaying state refs :
  2 ≤ n → (0 <= t0)%Q →
  length (frames state) = n → frame_index_valid state →
  player_ok n t0 (start_effect isPlaying state refs).
Proof.
  intros Hn Ht0 Hlen Hvalid. unfold start_effect.
  destruct (isPlaying && (2 <=? length (frames state))) eqn:E.
  - apply andb_true_iff in E as [-> _].
    split; [exact Hlen|]. split; [exact Hvalid|]. intros _.
    cbn [pl_isPlaying pl_refs start_playback lastTime pair_from pair_to playbackProgress].
    destruct Hvalid as [Hpos _]. rewrite Hlen in *.
    assert (Hcfi : (0 ≤ currentFrameIndex state < Z.of_nat n)%Z) by (apply Hpos; lia).
    split; [reflexivity|]. split; [exact Ht0|]. split; [exact Hcfi|].
    split; [apply Z.rem_bound_pos; lia|]. split; lra.
  - split; [exact Hlen|]. split; [exact Hvalid|]. discriminate.
Qed.

Lemma animation_frame_ok env playbackSpeed n t0 p timestamp :
  2 ≤ n → (0 <= playbackSpeed)%Q → (0 <= t0)%Q → (t0 <= timestamp)%Q →
  player_ok n t0 p →
  Forall (names_frames (Z.of_nat n)) (animation_frame env playbackSpeed p timestamp).2
  ∧ player_ok n timestamp (animation_frame env playbackSpeed p timestamp).1.
Proof.
  intros Hn Hspeed Ht0 Hle (Hlen & Hvalid & Hreq). unfold animation_frame.
  destruct (pl_requested p) eqn:Hr.
  - destruct (Hreq eq_refl) as (Hplay & Hlast & Hfrom & Hto & Hp). rewrite Hplay.
    rewrite <- Hlen in Hfrom, Hto.
    destruct (animate_step playbackSpeed (pl_state p) (pl_refs p) timestamp
                ltac:(lia) Hspeed ltac:(lra) Hfrom Hto Hp) as [Hd Hnext].
    rewrite Hlen in Hd, Hnext.
    set (tick := animate true playbackSpeed (pl_state p) (pl_refs p) timestamp) in *.
    destruct (playback_actions_keep env _ _ (pl_state p) Hd Hvalid) as [Hframes Hvalid'].
    cbn [fst snd]. split; [exact Hd|].
    assert (Hlen' : length (frames (foldl (appReducer env) (pl_state p)
                                          (tick_dispatched tick))) = n)
      by (rewrite Hframes; exact Hlen).
    destruct (_ || _).
    + apply start_effect_ok; [exact Hn|lra|exact Hlen'|exact Hvalid'].
    + split; [exact Hlen'|]. split; [exact Hvalid'|].
      cbn [pl_requested pl_isPlaying pl_refs]. intros Hreq'.
      destruct (Hnext Hreq') as (Hplay' & Hl & Hf' & Ht' & Hp').
      split; [exact Hplay'|]. split; [rewrite Hl; lra|]. auto.
  - cbn [fst snd]. split; [constructor|].
    split; [exact Hlen|]. split; [exact Hvalid|]. rewrite Hr. discriminate.
Qed.

Lemma play_names_frames env playbackSpeed n : ∀ timestamps t0 p,
  2 ≤ n → (0 <= playbackSpeed)%Q → (0 <= t0)%Q →
  ascending t0 timestamps →
  player_ok n t0 p →
  Forall (names_frames (Z.of_nat n)) (play env playbackSpeed p timestamps).
Proof.
  induction timestamps as [|timestamp rest IH]; intros t0 p Hn Hspeed Ht0 Hasc Hok.
  - constructor.
  - destruct Hasc as [Hle Hasc]. cbn [play].
    destruct (animation_frame_ok env playbackSpeed n t0 p timestamp Hn Hspeed Ht0 Hle Hok)
      as [Hd Hok'].
    apply Forall_app. split; [exact Hd|].
    apply (IH timestamp); [exact Hn|exact Hspeed|lra|exact Hasc|exact Hok'].
Qed.

(** X22.  Playback only ever asks for frames that exist: started in a
    reachable state with at least two frames, with a speed that is not
    negative and timestamps that do not go back, every action the animation
    loop dispatches is a SET_CURRENT_FRAME or an INTERPOLATE_FRAMES whose
    indices are within the frame list, with an interpolation parameter in
    [0, 1).  The loop is the one of the hook: after an animation frame that
    changes the current frame, the effect cancels the requested frame,
    resets the refs and starts again at the new current frame. *)
Theorem playback_names_existing_frames env acts playbackSpeed timestamps :
  let state := run initialState acts in
  2 ≤ length (frames state) →
  (0 <= playbackSpeed)%Q →
  ascending 0 timestamps →
  Forall (names_frames (Z.of_nat (length (frames state))))
         (play env playbackSpeed (press_play state) timestamps).
Proof.
  intros state Hn Hspeed Hasc.
  assert (Hreach : frame_index_valid state).
  { clear Hn Hspeed Hasc. subst state. induction acts as [|ea acts IH] using rev_ind.
    - split; cbn; intros; lia.
    - rewrite run_snoc. apply reducer_frame_index, IH. }
  apply (play_names_frames env playbackSpeed (length (frames state)) timestamps 0%Q);
    [exact Hn|exact Hspeed|lra|exact Hasc|].
  apply start_effect_ok; [exact Hn|lra|reflexivity|exact Hreach].
Qed.

Lemma playback_names_existing_frames_witness :
  let state := run initialState
                 [(mkEnv "f1" 0, RECORD_FRAME None); (mkEnv "f2" 0, RECORD_FRAME None)] in
  Forall (names_frames (Z.of_nat (length (frames state))))
         (play (mkEnv "" 0) 1 (press_play state) [16; 1000; 2100; 4200]%Q).
Proof.
  apply (playback_names_existing_frames (mkEnv "" 0)
           [(mkEnv "f1" 0, RECORD_FRAME None); (mkEnv "f2" 0, RECORD_FRAME None)]
           1 [16; 1000; 2100; 4200]%Q).
  - cbn. lia.
  - discriminate.
  - cbn. repeat split; discriminate.
Defined.

(** The restart.  Three frames, the first one current, speed 1.  The frame
    at 2100 ms ends the first pair and sets the current frame to 1, so the
    effect runs again and resets the refs: the frame at 3100 ms starts
    from progress 0 and the one at 4100 ms is at one half.  The frame at
    6200 ms moves to the last pair, and the one at 9300 ms wraps around to
    frame 0, which stops the playback: the frame at 10000 ms dispatches
    nothing. *)
Lemma playback_restarts_on_frame_change :
  let state :=
    run initialState
        [(mkEnv "f1" 0, RECORD_FRAME None); (mkEnv "f2" 0, RECORD_FRAME None);
         (mkEnv "f3" 0, RECORD_FRAME None); (mkEnv "" 0, SET_CURRENT_FRAME 0)] in
  currentFrameIndex state = 0%Z
  ∧ play (mkEnv "" 0) 1 (press_play state)
         [16; 2100; 3100; 4100; 6200; 7200; 9300; 10000]%Q
    = [INTERPOLATE_FRAMES 0 1 (0 + (16 - 16) / 2000 * 1);
       SET_CURRENT_FRAME 1; INTERPOLATE_FRAMES 1 2 0;
       INTERPOLATE_FRAMES 1 2 (0 + (3100 - 3100) / 2000 * 1);
       INTERPOLATE_FRAMES 1 2 (0 + (3100 - 3100) / 2000 * 1 + (4100 - 3100) / 2000 * 1);
       SET_CURRENT_FRAME 2; INTERPOLATE_FRAMES 2 0 0;
       INTERPOLATE_FRAMES 2 0 (0 + (7200 - 7200) / 2000 * 1);
       SET_CURRENT_FRAME 0]%Q.
Proof. split; vm_compute; reflexivity. Qed.

(** * The exported file: encoding, validation and decoding *)

Lemma mapM_encode {A} (dec : value → option A) (enc : A → value) (l : list A) :
  (∀ a, dec (enc a) = Some a) → mapM dec (enc <$> l) = Some l.
Proof.
  intros H. induction l as [|a l IH]; [reflexivity|].
  cbn [fmap list_fmap mapM]. rewrite H. cbn. fold (mapM dec).
  change (list_fmap A value enc l) with (enc <$> l). rewrite IH. reflexivity.
Qed.

Lemma assoc_here {A} k (v : A) l : assoc k ((k, v) :: l) = Some v.
Proof. cbn [assoc]. rewrite bool_decide_eq_true_2 by reflexivity. reflexivity. Qed.

Lemma assoc_skip {A} k k' (v : A) l : k' ≠ k → assoc k ((k', v) :: l) = assoc k l.
Proof. intros H. cbn [assoc]. rewrite bool_decide_eq_false_2 by exact H. reflexivity. Qed.

Lemma decode_str l : mapM as_str (VStr <$> l) = Some l.
Proof. apply mapM_encode. reflexivity. Qed.

Lemma decode_vertex v : as_vertex (json_vertex v) = Some v.
Proof. destruct v as [id [x y] [] [p|]]; reflexivity. Qed.

Lemma decode_segment seg : as_segment (json_segment seg) = Some seg.
Proof. destruct seg; reflexivity. Qed.

Lemma decode_properties p : as_properties (Some (json_properties p)) = Some p.
Proof.
  destruct p as [[r|] [segs|] [cl|] [md|]]; unfold as_properties, json_properties;
    cbn [json_opt ep_radius ep_segments ep_closed ep_metadata app];
    unfold opt_num, opt_str, or_num, or_str, nullish_num, nullish_bool;
    repeat (rewrite assoc_here || rewrite assoc_skip by congruence);
    cbn [assoc opt_list mbind option_bind fmap option_fmap option_map];
    rewrite ?(mapM_encode as_segment json_segment segs decode_segment); reflexivity.
Qed.

Lemma decode_style st : as_style (Some (json_style st)) = Some st.
Proof.
  destruct st as [[?|] [?|] [?|] [?|] [?|] [?|]]; unfold as_style, json_style;
    cbn [json_opt es_color es_strokeWidth es_fill es_opacity es_visible es_locked app];
    unfold opt_num, opt_str, or_num, or_str, nullish_num, nullish_bool;
    repeat (rewrite assoc_here || rewrite assoc_skip by congruence);
    cbn [assoc mbind option_bind]; reflexivity.
Qed.

Lemma decode_shape s : as_shape (json_shape s) = Some s.
Proof.
  destruct s as [id ty refs props st]. unfold as_shape, json_shape.
  cbn [esh_id esh_type esh_vertexRefs esh_properties esh_style].
  unfold get_str.
  repeat (rewrite assoc_here || rewrite assoc_skip by congruence).
  cbn [as_list mbind option_bind]. rewrite decode_str, decode_properties, decode_style.
  reflexivity.
Qed.

Lemma decode_group g : as_group (json_group g) = Some g.
Proof.
  destruct g as [id name refs]. unfold as_group, json_group. cbn [eg_id eg_name eg_shapeRefs].
  unfold get_str.
  repeat (rewrite assoc_here || rewrite assoc_skip by congruence).
  cbn [as_list mbind option_bind]. rewrite decode_str. reflexivity.
Qed.

Lemma decode_vertexPosition vp : as_vertexPosition (json_vertexPosition vp) = Some vp.
Proof. destruct vp as [id [x y]]. reflexivity. Qed.

Lemma decode_shapeProperty sp : as_shapeProperty (json_shapeProperty sp) = Some sp.
Proof. destruct sp as [id [[r|]]]; reflexivity. Qed.

Lemma decode_frame f : as_frame (json_frame f) = Some f.
Proof.
  destruct f as [id name ts vps sps]. unfold as_frame, json_frame.
  cbn [ef_id ef_name ef_timestamp ef_vertexPositions ef_shapeProperties].
  destruct sps as [sps|]; cbn [json_opt app]; unfold get_str, get_num;
    repeat (rewrite assoc_here || rewrite assoc_skip by congruence);
    cbn [assoc as_list opt_list mbind option_bind fmap option_fmap option_map];
    rewrite (mapM_encode _ _ vps decode_vertexPosition);
    rewrite ?(mapM_encode _ _ sps decode_shapeProperty); reflexivity.
Qed.

Lemma decode_coordinateSystem cs :
  as_coordinateSystem (Some (json_coordinateSystem cs)) = Some (Some cs).
Proof. destruct cs as [[u|] [g|]]; reflexivity. Qed.

Lemma decode_metadata md :
  as_metadata (Some (json_metadata md)) = Some (Some (mkEM None (em_coordinateSystem md))).
Proof.
  destruct md as [[bb|] [cs|]]; unfold as_metadata, json_metadata;
    cbn [json_opt em_coordinateSystem em_boundingBox app];
    repeat (rewrite assoc_here || rewrite assoc_skip by congruence);
    cbn [assoc]; rewrite ?decode_coordinateSystem; reflexivity.
Qed.

Lemma decode_encode e : as_MeshExport (to_json e) = Some (without_boundingBox e).
Proof.
  destruct e as [version timestamp vs ss gs fs md]. unfold as_MeshExport, to_json.
  cbn [me_version me_timestamp me_vertices me_shapes me_groups me_frames me_metadata].
  destruct fs as [fs|], md as [md|]; cbn [json_opt app]; unfold get_str;
    repeat (rewrite assoc_here || rewrite assoc_skip by congruence);
    cbn [assoc as_list opt_list mbind option_bind fmap option_fmap option_map default];
    rewrite (mapM_encode _ _ vs decode_vertex);
    rewrite (mapM_encode _ _ ss decode_shape);
    rewrite (mapM_encode _ _ gs decode_group);
    rewrite ?(mapM_encode _ _ fs decode_frame);
    rewrite ?decode_metadata; reflexivity.
Qed.

Lemma all_ok_encode {A} (check : value → Result bool) (enc : A → value)
    (p : A → bool) (l : list A) :
  (∀ a, check (enc a) = Ret (p a)) → all_ok check (enc <$> l) = Ret (forallb p l).
Proof.
  intros H. induction l as [|a l IH]; [reflexivity|].
  cbn [fmap list_fmap all_ok forallb]. rewrite H. cbn [mbind Result_bind].
  destruct (p a); [exact IH|reflexivity].
Qed.

Lemma vertex_ok_encode v :
  vertex_ok (json_vertex v) = Ret (negb (bool_decide (ev_id v = ""))).
Proof.
  destruct v as [id [x y] ty parent]. unfold vertex_ok, json_vertex, prop.
  cbn [ev_id ev_position ev_type ev_parentId app].
  repeat (rewrite assoc_here || rewrite assoc_skip by congruence).
  cbn [mbind Result_bind truthy].
  destruct (bool_decide (id = "")); cbn [negb]; [reflexivity|].
  cbn [mbind Result_bind]. destruct ty; reflexivity.
Qed.

Lemma shape_ok_encode s :
  shape_ok (json_shape s)
  = Ret (negb (bool_decide (esh_id s = "")) && negb (bool_decide (esh_type s = ""))).
Proof.
  destruct s as [id ty refs props st]. unfold shape_ok, json_shape, prop.
  cbn [esh_id esh_type].
  repeat (rewrite assoc_here || rewrite assoc_skip by congruence).
  cbn [mbind Result_bind truthy].
  destruct (bool_decide (id = "")); cbn [negb andb]; [reflexivity|].
  cbn [mbind Result_bind truthy].
  destruct (bool_decide (ty = "")); cbn [negb]; reflexivity.
Qed.

Lemma frame_ok_encode f :
  frame_ok (json_frame f)
  = Ret (negb (bool_decide (ef_id f = "")) && negb (bool_decide (ef_name f = ""))).
Proof.
  destruct f as [id name ts vps sps]. unfold frame_ok, json_frame, prop.
  cbn [ef_id ef_name app].
  repeat (rewrite assoc_here || rewrite assoc_skip by congruence).
  cbn [mbind Result_bind truthy].
  destruct (bool_decide (id = "")); cbn [negb andb]; [reflexivity|].
  cbn [mbind Result_bind truthy].
  destruct (bool_decide (name = "")); cbn [negb]; reflexivity.
Qed.

Lemma validate_encode e :
  validateImportData (to_json e)
  = Ret (if String.prefix "2." (me_version e) then []
         else [VersionMismatch (Some (VStr (me_version e)))],
         named e).
Proof.
  destruct e as [version timestamp vs ss gs fs md].
  unfold validateImportData, to_json, version_check, validate_body, named, prop.
  cbn [me_version me_timestamp me_vertices me_shapes me_groups me_frames me_metadata].
  assert (Hframes : assoc "frames"
            ([("version", VStr version); ("timestamp", VStr timestamp);
              ("vertices", VArr (json_vertex <$> vs));
              ("shapes", VArr (json_shape <$> ss));
              ("groups", VArr (json_group <$> gs))]
             ++ json_opt "frames" (λ l, VArr (json_frame <$> l)) fs
             ++ json_opt "metadata" json_metadata md)
          = (λ l, VArr (json_frame <$> l)) <$> fs).
  { destruct fs as [fs|], md as [md|]; cbn [json_opt app];
      repeat (rewrite assoc_here || rewrite assoc_skip by congruence); reflexivity. }
  cbn [mbind Result_bind]. rewrite Hframes.
  cbn [app]. repeat (rewrite assoc_here || rewrite assoc_skip by congruence).
  cbn [mbind Result_bind].
  assert (Hw : (if String.prefix "2." version then Ret []
                else Ret [VersionMismatch (Some (VStr version))])
               = (Ret (if String.prefix "2." version then []
                       else [VersionMismatch (Some (VStr version))])
                  : Result (list Warning)))
    by (destruct (String.prefix "2." version); reflexivity).
  rewrite Hw. cbn [mbind Result_bind isArray negb items_of].
  rewrite (all_ok_encode vertex_ok json_vertex _ vs vertex_ok_encode). cbn [mbind Result_bind].
  destruct (forallb _ vs); cbn [negb andb]; [|reflexivity].
  rewrite (all_ok_encode shape_ok json_shape _ ss shape_ok_encode). cbn [mbind Result_bind].
  destruct (forallb _ ss); cbn [negb andb]; [|reflexivity].
  destruct fs as [fs|]; cbn [fmap option_fmap option_map truthy isArray negb items_of default].
  - rewrite (all_ok_encode frame_ok json_frame _ fs frame_ok_encode).
    cbn [mbind Result_bind]. reflexivity.
  - reflexivity.
Qed.

(** X23.  Writing a document of the declared export type to JSON and
    reading it back gives the document again, up to the bounding-box block
    that the import never reads; and the validation accepts the written
    document exactly when no vertex id, shape id, shape type, frame id or
    frame name in it is empty, warning about the version exactly when it
    does not start with 2. *)
Theorem json_round_trip e :
  as_MeshExport (to_json e) = Some (without_boundingBox e)
  ∧ (∀ gridSize,
       parseImportData (without_boundingBox e) gridSize = parseImportData e gridSize)
  ∧ validateImportData (to_json e)
    = Ret (if String.prefix "2." (me_version e) then []
           else [VersionMismatch (Some (VStr (me_version e)))],
           named e).
Proof.
  split; [apply decode_encode|]. split; [|apply validate_encode].
  intros gridSize. destruct e as [version timestamp vs ss gs fs [[bb cs]|]]; reflexivity.
Qed.

(** ** Importing an accepted file (importFromJSON) *)

Lemma import_try_accepted target gridSize confirmMerge data ws importData :
  validateImportData data = Ret (ws, true) →
  as_MeshExport data = Some importData →
  import_try target gridSize confirmMerge data
  = Some (Ret (import_parsed target gridSize confirmMerge importData)).
Proof.
  intros Hval Hdec. unfold import_try. rewrite Hval. cbn [snd negb].
  rewrite Hdec. reflexivity.
Qed.





(** ** Exporting and importing again through the file *)

Lemma type_name_not_empty k : type_name k ≠ "".
Proof. destruct k; discriminate. Qed.

Lemma export_named state gridSize timestamp :
  ids_not_empty state → named (exportToJSON state gridSize timestamp) = true.
Proof.
  intros (Hv & Hs & Hf). unfold named, exportToJSON.
  cbn [me_vertices me_shapes me_frames default].
  rewrite !andb_true_iff. repeat split.
  - apply forallb_forall. intros ev Hev. apply in_map_iff in Hev as (v & <- & Hin).
    apply list_elem_of_In, list_elem_of_fmap in Hin as ([k v'] & -> & Hin).
    apply elem_of_map_to_list in Hin. cbn [snd export_vertex ev_id].
    rewrite bool_decide_eq_false_2; [reflexivity|]. exact (Hv k v' Hin).
  - apply forallb_forall. intros es Hes. apply in_map_iff in Hes as (s & <- & Hin).
    apply list_elem_of_In, list_elem_of_fmap in Hin as ([k s'] & -> & Hin).
    apply elem_of_map_to_list in Hin. cbn [snd export_shape esh_id esh_type].
    rewrite bool_decide_eq_false_2 by exact (Hs k s' Hin).
    rewrite bool_decide_eq_false_2 by apply type_name_not_empty. reflexivity.
  - apply forallb_forall. intros ef Hef. apply in_map_iff in Hef as (f & <- & Hin).
    apply list_elem_of_In in Hin. rewrite Forall_forall in Hf.
    destruct (Hf f Hin) as [Hid Hname]. cbn [export_frame ef_id ef_name].
    rewrite !bool_decide_eq_false_2 by assumption. reflexivity.
Qed.

(** X25.  A file that the editor exports from a document whose stored ids
    and frame names are not empty is accepted by the editor's own import
    without a version warning, and importing it into an empty document gives
    exactly what [parseImportData] makes of the exported document. *)
Theorem export_is_importable state gridSize timestamp :
  ids_not_empty state →
  let e := exportToJSON state gridSize timestamp in
  validateImportData (to_json e) = Ret ([], true)
  ∧ ∀ env target g confirmMerge,
      vertices target = ∅ → shapes target = ∅ →
      ∃ s',
      document_after_import env target g confirmMerge (Ret (to_json e)) = Some s' ∧
      let p := parseImportData e g in
      vertices s' = pd_vertices p ∧ shapes s' = pd_shapes p
      ∧ groups s' = pd_groups p ∧ frames s' = pd_frames p.
Proof.
  intros Hids e.
  assert (Hval : validateImportData (to_json e) = Ret ([], true)).
  { rewrite validate_encode. subst e. rewrite export_named by exact Hids. reflexivity. }
  split; [exact Hval|].
  intros env target g confirmMerge Hv Hs.
  unfold document_after_import, importFromJSON.
  rewrite (import_try_accepted target g confirmMerge (to_json e) [] (without_boundingBox e)
             Hval (decode_encode e)).
  unfold import_parsed.
  rewrite Hv, Hs, !map_size_empty. cbn [Nat.eqb negb orb andb].
  eexists. split; [reflexivity|]. cbv zeta.
  cbn [appReducer vertices shapes groups frames default].
  assert (Hp : parseImportData (without_boundingBox e) g = parseImportData e g).
  { subst e. reflexivity. }
  rewrite Hp. repeat split.
Qed.

Lemma export_is_importable_witness :
  let e := exportToJSON line_state 20 "" in
  validateImportData (to_json e) = Ret ([], true)
  ∧ ∀ env target g confirmMerge,
      vertices target = ∅ → shapes target = ∅ →
      ∃ s',
      document_after_import env target g confirmMerge (Ret (to_json e)) = Some s' ∧
      let p := parseImportData e g in
      vertices s' = pd_vertices p ∧ shapes s' = pd_shapes p
      ∧ groups s' = pd_groups p ∧ frames s' = pd_frames p.
Proof.
  apply (export_is_importable line_state 20 "").
  split; [|split; [|constructor]].
  - intros k v Hk. unfold line_state in Hk. cbn [vertices] in Hk.
    apply lookup_insert_Some in Hk as [[_ <-]|[_ Hk]]; [discriminate|].
    apply lookup_singleton_Some in Hk as [_ <-]. discriminate.
  - intros k s Hk. unfold line_state in Hk. cbn [shapes] in Hk.
    apply lookup_singleton_Some in Hk as [_ <-]. discriminate.
Defined.

(** ** Parsing: repeated ids and unknown shape types (parseImportData) *)

Lemma build_last {A V} (key : A → string) (f : A → option V) (l : list A) :
  ∀ (m : gmap string V) k,
  foldl (λ m a, match f a with
                | Some b => <[key a := b]> m
                | None => m
                end) m l !! k
  = match last (omap f (filter (λ a, key a = k) l)) with
    | Some b => Some b
    | None => m !! k
    end.
Proof.
  induction l as [|a l IH] using rev_ind; intros m k; [reflexivity|].
  rewrite foldl_app, filter_app, omap_app, last_app. cbn [foldl].
  rewrite filter_cons, filter_nil.
  destruct (decide (key a = k)) as [Hk|Hk].
  - cbn [omap list_omap]. destruct (f a) as [b|] eqn:Hf.
    + cbn [last]. rewrite Hk. apply lookup_insert_eq.
    + cbn [last]. apply IH.
  - cbn [omap list_omap last]. destruct (f a) as [b|] eqn:Hf.
    + rewrite lookup_insert_ne by exact Hk. apply IH.
    + apply IH.
Qed.

Lemma omap_Some_fmap {A B} (g : A → B) (l : list A) : omap (λ a, Some (g a)) l = g <$> l.
Proof. induction l as [|a l IH]; [reflexivity|]. cbn. f_equal; try exact IH. Qed.

(** X26.  When the imported arrays repeat an id, the last entry with that
    id is the one imported; a shape entry whose type is none of line, rect,
    circle, bezier and polygon is skipped, so that the last entry of a known
    type wins; an id that no entry has is absent. *)
Theorem parse_last_entry_wins importData gridSize k :
  let p := parseImportData importData gridSize in
  pd_vertices p !! k
  = import_vertex importData gridSize
    <$> last (filter (λ v, ev_id v = k) (me_vertices importData))
  ∧ pd_shapes p !! k
    = last (omap (import_shape importData gridSize)
                 (filter (λ s, esh_id s = k) (me_shapes importData)))
  ∧ pd_groups p !! k
    = (λ g, mkGroup (eg_id g) (eg_name g) (eg_shapeRefs g) false)
      <$> last (filter (λ g, eg_id g = k) (me_groups importData)).
Proof.
  intros p. subst p. unfold parseImportData.
  cbn [pd_vertices pd_shapes pd_groups]. split; [|split].
  - rewrite (build_last ev_id (λ v, Some (import_vertex importData gridSize v))).
    rewrite omap_Some_fmap, fmap_last, lookup_empty.
    destruct (last _); reflexivity.
  - assert (E : ∀ m l,
        foldl (λ (m : gmap string Shape) s,
                 match import_shape importData gridSize s with
                 | Some shape => <[s_id shape := shape]> m
                 | None => m
                 end) m l
        = foldl (λ (m : gmap string Shape) s,
                   match import_shape importData gridSize s with
                   | Some shape => <[esh_id s := shape]> m
                   | None => m
                   end) m l).
    { intros m l. revert m. induction l as [|s l IH]; intros m; [reflexivity|].
      cbn [foldl]. rewrite IH. f_equal.
      unfold import_shape.
      repeat (destruct (bool_decide _); [reflexivity|]). reflexivity. }
    rewrite E, (build_last esh_id (import_shape importData gridSize)), lookup_empty.
    destruct (last _); reflexivity.
  - rewrite (build_last eg_id
               (λ g, Some (mkGroup (eg_id g) (eg_name g) (eg_shapeRefs g) false))).
    rewrite omap_Some_fmap, fmap_last, lookup_empty.
    destruct (last _); reflexivity.
Qed.

(** ** Export: positions relative to the bounding box (exportToJSON) *)

Lemma toGridUnits_in_box bb gridSize x y x1 y1 :
  (0 < gridSize)%Q →
  width bb = fl64 (x1 - originX bb) → height bb = fl64 (y1 - originY bb) →
  (originX bb <= x ∧ x <= x1)%Q →
  (originY bb <= y ∧ y <= y1)%Q →
  let q := toGridUnits bb gridSize x y in
  (0 <= q.1 ∧ q.1 <= round2 (fl64 (width bb / gridSize)))%Q
  ∧ (0 <= q.2 ∧ q.2 <= round2 (fl64 (height bb / gridSize)))%Q.
Proof.
  intros Hg -> -> [Hx0 Hx1] [Hy0 Hy1] q. subst q. unfold toGridUnits. cbn [fst snd].
  assert (Hinv : (0 <= / gridSize)%Q) by (apply Qinv_le_0_compat; lra).
  unfold Qdiv. repeat split.
  - apply round2_nonneg, fl64_nonneg.
    apply Qmult_le_0_compat; [apply fl64_nonneg; lra|exact Hinv].
  - apply round2_mono, fl64_mono.
    apply Qmult_le_compat_r; [apply fl64_mono; lra|exact Hinv].
  - apply round2_nonneg, fl64_nonneg.
    apply Qmult_le_0_compat; [apply fl64_nonneg; lra|exact Hinv].
  - apply round2_mono, fl64_mono.
    apply Qmult_le_compat_r; [apply fl64_mono; lra|exact Hinv].
Qed.

(** X27.  With a positive grid size, every vertex position and every frame
    position of an export lies between 0 and the width (height) that the
    export's metadata states for its bounding box: positions are relative to
    the box's origin and none is negative. *)
Theorem export_positions_in_bounding_box state gridSize timestamp :
  (0 < gridSize)%Q →
  let e := exportToJSON state gridSize timestamp in
  ∃ box, me_metadata e ≫= em_boundingBox = Some box
    ∧ (∀ ev, ev ∈ me_vertices e →
         (0 <= (ev_position ev).1 ∧ (ev_position ev).1 <= bb_width box)%Q
         ∧ (0 <= (ev_position ev).2 ∧ (ev_position ev).2 <= bb_height box)%Q)
    ∧ (∀ ef vp, ef ∈ default [] (me_frames e) → vp ∈ ef_vertexPositions ef →
         (0 <= vp.2.1 ∧ vp.2.1 <= bb_width box)%Q
         ∧ (0 <= vp.2.2 ∧ vp.2.2 <= bb_height box)%Q).
Proof.
  intros Hg e. subst e. unfold exportToJSON.
  cbn [me_metadata me_vertices me_frames mbind option_bind em_boundingBox default].
  eexists. split; [reflexivity|]. cbn [bb_width bb_height]. split.
  - intros ev Hev. apply list_elem_of_fmap in Hev as (v & -> & Hv).
    cbn [export_vertex ev_position].
    assert (Hp : mkPos (v_x v) (v_y v) ∈ visited_positions state).
    { unfold visited_positions. apply elem_of_app. left.
      apply list_elem_of_fmap. exists v. split; [reflexivity|exact Hv]. }
    destruct (bounding_box_contains state _ Hp) as (x1 & y1 & Hw & Hh & Hx & Hy).
    cbn [px py] in Hx, Hy.
    apply (toGridUnits_in_box _ _ _ _ x1 y1); assumption.
  - intros ef vp Hef Hvp. apply list_elem_of_fmap in Hef as (f & -> & Hf).
    cbn [export_frame ef_vertexPositions] in Hvp.
    apply list_elem_of_fmap in Hvp as ([k pos] & -> & Hpos).
    cbn [fst snd].
    assert (Hp : pos ∈ visited_positions state).
    { unfold visited_positions. apply elem_of_app. right.
      apply list_elem_of_In, in_flat_map. exists f.
      split; [apply list_elem_of_In, Hf|].
      apply list_elem_of_In, list_elem_of_fmap. exists (k, pos). split; [reflexivity|exact Hpos]. }
    destruct (bounding_box_contains state _ Hp) as (x1 & y1 & Hw & Hh & Hx & Hy).
    apply (toGridUnits_in_box _ _ _ _ x1 y1); assumption.
Qed.

Lemma export_positions_in_bounding_box_witness :
  let e := exportToJSON offset_state 20 "" in
  ∃ box, me_metadata e ≫= em_boundingBox = Some box
    ∧ (∀ ev, ev ∈ me_vertices e →
         (0 <= (ev_position ev).1 ∧ (ev_position ev).1 <= bb_width box)%Q
         ∧ (0 <= (ev_position ev).2 ∧ (ev_position ev).2 <= bb_height box)%Q)
    ∧ (∀ ef vp, ef ∈ default [] (me_frames e) → vp ∈ ef_vertexPositions ef →
         (0 <= vp.2.1 ∧ vp.2.1 <= bb_width box)%Q
         ∧ (0 <= vp.2.2 ∧ vp.2.2 <= bb_height box)%Q).
Proof.
  apply (export_positions_in_bounding_box offset_state 20 ""). reflexivity.
Defined.

(** ** Validation of the optional frames (validateImportData) *)

Lemma frame_malformed_not_ok f : frame_malformed f → frame_ok f ≠ Ret true.
Proof.
  intros Hbad. destruct (null_or_not f) as [->|Hnn]; [discriminate|].
  unfold frame_ok. rewrite !(prop_field f) by exact Hnn. cbn [mbind Result_bind].
  destruct (truthy (field f "id")) eqn:Hid; [|discriminate]. cbn [negb].
  destruct (truthy (field f "name")) eqn:Hname; [|discriminate]. cbn [negb].
  destruct Hbad as [Hbad|[Hbad|Hbad]]; congruence.
Qed.

Lemma validate_body_frames data :
  data ≠ VNull → frames_malformed data → validate_body data ≠ Ret true.
Proof.
  intros Hnn [Htruthy Hbad]. unfold validate_body.
  rewrite !(prop_field data) by exact Hnn. cbn [mbind Result_bind].
  destruct (isArray (field data "vertices")); [|discriminate]. cbn [negb].
  destruct (isArray (field data "shapes")); [|discriminate]. cbn [negb].
  destruct (isArray (field data "groups")); [|discriminate]. cbn [negb].
  destruct (all_ok vertex_ok _) as [[|]|m]; [|discriminate|discriminate].
  cbn [mbind Result_bind negb].
  destruct (all_ok shape_ok _) as [[|]|m]; [|discriminate|discriminate].
  cbn [mbind Result_bind negb]. rewrite Htruthy.
  destruct Hbad as [Harr|(f & Hin & Hf)].
  - rewrite Harr. discriminate.
  - destruct (isArray (field data "frames")); [|discriminate]. cbn [negb].
    apply (all_ok_not_ok _ _ _ Hin (frame_malformed_not_ok f Hf)).
Qed.

(** X28.  The frames of an imported file are optional, but when the file
    has a [frames] property that is not an array, or one of its frames lacks
    an id, a name or a [vertexPositions] array, the import fails as a whole:
    nothing is dispatched, an error is shown (the one thrown for an invalid
    format, or the engine's TypeError when an entry of [frames] is [null])
    and the document is unchanged. *)
Theorem import_rejects_malformed_frames env state gridSize confirmMerge data :
  frames_malformed data →
  (∃ e, (e = Error "Invalid import data format" ∨ e = TypeError)
        ∧ importFromJSON state gridSize confirmMerge (Ret data) = Some (None, error e))
  ∧ document_after_import env state gridSize confirmMerge (Ret data) = Some state.
Proof.
  intros Hbad.
  destruct (import_rejected state gridSize confirmMerge data) as (e & He & Hm).
  { intros ws. unfold validateImportData.
    destruct data as [| | | |items|f].
    1-4: cbn; discriminate.
    - destruct Hbad as [Ht _]. cbn in Ht. discriminate Ht.
    - destruct (version_check (VObj f)) as [ws'|m]; [|discriminate].
      cbn [mbind Result_bind].
      pose proof (validate_body_frames (VObj f) ltac:(discriminate) Hbad) as Hno.
      destruct (validate_body (VObj f)) as [[|]|m]; [congruence|discriminate|discriminate]. }
  assert (Himp : importFromJSON state gridSize confirmMerge (Ret data)
                 = Some (None, error e)).
  { unfold importFromJSON. rewrite Hm. reflexivity. }
  split; [eauto|]. unfold document_after_import. rewrite Himp. reflexivity.
Qed.

Lemma import_rejects_malformed_frames_witness :
  (∃ e, (e = Error "Invalid import data format" ∨ e = TypeError)
        ∧ importFromJSON line_state 20 true (Ret unnamed_frame_document)
          = Some (None, error e))
  ∧ document_after_import (mkEnv "" 0) line_state 20 true (Ret unnamed_frame_document)
    = Some line_state.
Proof.
  apply (import_rejects_malformed_frames (mkEnv "" 0) line_state 20 true
           unnamed_frame_document).
  split; [reflexivity|]. right.
  exists (VObj [("id", VStr "f1"); ("vertexPositions", VArr [])]).
  split; [left|]. right. left. reflexivity.
Defined.

(** ** Groups *)

(** X29.  Only CREATE_GROUP, DELETE_GROUP, IMPORT_DATA and CLEAR_ALL write
    the groups: deleting a shape or a vertex does not remove the shape from
    the groups that list it, and UNDO and REDO do not bring a group back. *)
Theorem only_group_actions_touch_groups env s a :
  writes_groups a = false → groups (appReducer env s a) = groups s.
Proof.
  intros Ha.
  destruct a; try discriminate Ha; cbn -[Nat.leb Nat.ltb out_of_range] in *;
    try reflexivity.
  - destruct (vertices s !! id); reflexivity.
  - destruct (shapes s !! id); reflexivity.
  - destruct (shapes s !! id) as [[? [] ? ? ? ? ?]|]; reflexivity.
  - destruct additive; reflexivity.
  - destruct additive; reflexivity.
  - destruct (length _ <? 2)%nat; reflexivity.
  - destruct (out_of_range _ _); reflexivity.
  - destruct (out_of_range _ _); reflexivity.
  - destruct (out_of_range _ _); reflexivity.
  - destruct (out_of_range _ _); [reflexivity|].
    destruct (js_index _ _); reflexivity.
  - destruct (js_index _ _); [|reflexivity].
    destruct (js_index _ _); reflexivity.
  - destruct (last _); reflexivity.
  - destruct (future _); reflexivity.
  - destruct (out_of_range _ _); reflexivity.
Qed.

Lemma only_group_actions_touch_groups_witness :
  groups (appReducer (mkEnv "" 0) grouped_line (DELETE_SHAPE "L")) = groups grouped_line
  ∧ shapes (appReducer (mkEnv "" 0) grouped_line (DELETE_SHAPE "L")) !! "L" = None.
Proof.
  split.
  - exact (only_group_actions_touch_groups (mkEnv "" 0) grouped_line (DELETE_SHAPE "L")
             eq_refl).
  - reflexivity.
Defined.
